(** * Shallow embedding of the tyagachi monitoring collector

    The development follows the Python sources:
    - [src/web/shifts.py]            (module [Shifts])
    - [src/api/client.py]            (module [Client])
    - [src/api/fetcher.py]           (modules [Interleaver], [Extractor], [Fetcher])
    - [src/parsers/monitoring_parser.py] (module [MonitoringParser])

    Python values are modelled as follows.  Strings are [string]s of
    UTF-8 bytes, integers are [Z], naive [datetime] objects are records of
    their seven integer fields, exceptions are values of [exn] carried by
    the [result] type, dictionaries whose iteration order matters are
    association lists and the result dictionaries are [gmap]s. *)

From Stdlib Require Import ZArith String Ascii List Bool Lia Permutation.
From Stdlib Require Import Floats.SpecFloat.
From stdpp Require Import gmap strings pretty.
Import ListNotations.

Open Scope string_scope.
Open Scope Z_scope.

Set Warnings "-register-all".

(* ===================================================================== *)
(** * Python runtime: exceptions and results *)
(* ===================================================================== *)

Inductive exn : Type :=
| ValueError
| OverflowError
| TypeError
| AttributeError
| ZeroDivisionError
| NotFoundError
| RuntimeError (msg : string).

Inductive result (A : Type) : Type :=
| Ok (a : A)
| Raise (e : exn).
Arguments Ok {A} a.
Arguments Raise {A} e.

(** Sequencing: an exception raised by [r] propagates. *)
#[global] Instance result_bind : MBind result := fun A B k r =>
  match r with
  | Ok a => k a
  | Raise e => Raise e
  end.

#[global] Instance result_ret : MRet result := fun A a => Ok a.

(* ===================================================================== *)
(** * Python strings *)
(* ===================================================================== *)

Module Str.

Definition is_digit (c : ascii) : bool :=
  let n := nat_of_ascii c in (48 <=? n)%nat && (n <=? 57)%nat.

Definition digit_val (c : ascii) : Z := Z.of_nat (nat_of_ascii c) - 48.

Definition digit_char (d : Z) : ascii := ascii_of_nat (Z.to_nat (48 + d)).

(** [str.isspace] on the ASCII range: tab, LF, VT, FF, CR, FS, GS, RS, US
    and the space. *)
Definition is_space (c : ascii) : bool :=
  let n := nat_of_ascii c in
  ((9 <=? n)%nat && (n <=? 13)%nat) || ((28 <=? n)%nat && (n <=? 32)%nat).

(** ["%02d" % n] and ["%04d" % n] for a non-negative [n]. *)
Definition pad2 (n : Z) : string :=
  String (digit_char (n / 10 mod 10)) (String (digit_char (n mod 10)) "").

Definition pad4 (n : Z) : string :=
  String (digit_char (n / 1000 mod 10))
    (String (digit_char (n / 100 mod 10)) (pad2 n)).

(** ["%d" % n] for [0 <= n < 10000]: the decimal digits, no padding. *)
Definition decimal (n : Z) : string :=
  if n <? 10 then String (digit_char n) ""
  else if n <? 100 then pad2 n
  else if n <? 1000 then String (digit_char (n / 100 mod 10)) (pad2 n)
  else pad4 n.

Fixpoint lstrip (s : string) : string :=
  match s with
  | String c s' => if is_space c then lstrip s' else s
  | "" => ""
  end.

Fixpoint rev_str (s acc : string) : string :=
  match s with
  | String c s' => rev_str s' (String c acc)
  | "" => acc
  end.

(** [s.strip()] *)
Definition strip (s : string) : string :=
  rev_str (lstrip (rev_str (lstrip s) "")) "".

(** [s.split(sep)] for a one-character separator. *)
Fixpoint split (sep : ascii) (s : string) : list string :=
  match s with
  | "" => [""]
  | String c s' =>
      if Ascii.eqb c sep then "" :: split sep s'
      else match split sep s' with
           | w :: ws => String c w :: ws
           | [] => [String c ""]
           end
  end.

(** [s.rsplit(sep, 1)] for a one-character separator: the string is cut
    at the last occurrence of [sep]; without one the result has a single
    part. *)
Fixpoint rsplit1 (sep : ascii) (s : string) : string * option string :=
  match s with
  | "" => ("", None)
  | String c s' =>
      match rsplit1 sep s' with
      | (l, Some r) => (String c l, Some r)
      | (l, None) => if Ascii.eqb c sep then ("", Some l) else (String c l, None)
      end
  end.

(** [needle in s] *)
Fixpoint startswith (p s : string) : bool :=
  match p, s with
  | "", _ => true
  | String a p', String b s' => Ascii.eqb a b && startswith p' s'
  | String _ _, "" => false
  end.

Fixpoint contains (needle s : string) : bool :=
  startswith needle s ||
  match s with
  | "" => false
  | String _ s' => contains needle s'
  end.

End Str.

(* ===================================================================== *)
(** * The [datetime] library

    Naive datetimes (no [tzinfo]) with the fields, the range and the
    comparison of CPython's [datetime.datetime]. *)
(* ===================================================================== *)

Module Datetime.

Record datetime : Type := mkdt {
  year : Z; month : Z; day : Z;
  hour : Z; minute : Z; second : Z; microsecond : Z
}.

Definition MINYEAR : Z := 1.
Definition MAXYEAR : Z := 9999.

Definition is_leap (y : Z) : bool :=
  (y mod 4 =? 0) && (negb (y mod 100 =? 0) || (y mod 400 =? 0)).

Definition days_in_month (y m : Z) : Z :=
  if m =? 2 then (if is_leap y then 29 else 28)
  else if (m =? 4) || (m =? 6) || (m =? 9) || (m =? 11) then 30
  else 31.

Definition valid_date (y m d : Z) : bool :=
  (MINYEAR <=? y) && (y <=? MAXYEAR) && (1 <=? m) && (m <=? 12) &&
  (1 <=? d) && (d <=? days_in_month y m).

Definition valid_time (h mi s us : Z) : bool :=
  (0 <=? h) && (h <? 24) && (0 <=? mi) && (mi <? 60) &&
  (0 <=? s) && (s <? 60) && (0 <=? us) && (us <? 1000000).

(** What the constructor [datetime(...)] accepts. *)
Definition valid (dt : datetime) : bool :=
  valid_date (year dt) (month dt) (day dt) &&
  valid_time (hour dt) (minute dt) (second dt) (microsecond dt).

(** Comparison of naive datetimes: lexicographic on the seven fields. *)
Definition lex (c1 c2 : comparison) : comparison :=
  match c1 with Eq => c2 | _ => c1 end.

Definition compare (a b : datetime) : comparison :=
  lex (year a ?= year b)
  (lex (month a ?= month b)
  (lex (day a ?= day b)
  (lex (hour a ?= hour b)
  (lex (minute a ?= minute b)
  (lex (second a ?= second b)
       (microsecond a ?= microsecond b)))))).

Definition ltb (a b : datetime) : bool :=
  match compare a b with Lt => true | _ => false end.

Definition leb (a b : datetime) : bool :=
  match compare a b with Gt => false | _ => true end.

Definition eqb (a b : datetime) : bool :=
  match compare a b with Eq => true | _ => false end.

(** [max(a, b)] and [min(a, b)]: the first argument wins a tie. *)
Definition max (a b : datetime) : datetime := if ltb a b then b else a.
Definition min (a b : datetime) : datetime := if ltb b a then b else a.

(** [dt.replace(hour=h, minute=mi)] *)
Definition replace_hm (dt : datetime) (h mi : Z) : result datetime :=
  let r := mkdt (year dt) (month dt) (day dt) h mi (second dt) (microsecond dt) in
  if valid r then Ok r else Raise ValueError.

(** The calendar day after and before [d.m.y]. *)
Definition next_date (y m d : Z) : Z * Z * Z :=
  if d <? days_in_month y m then (y, m, d + 1)
  else if m <? 12 then (y, m + 1, 1)
  else (y + 1, 1, 1).

Definition prev_date (y m d : Z) : Z * Z * Z :=
  if 1 <? d then (y, m, d - 1)
  else if 1 <? m then (y, m - 1, days_in_month y (m - 1))
  else (y - 1, 12, 31).

(** [dt + timedelta(days=1)]: the next calendar day at the same time;
    [OverflowError] past 31.12.9999. *)
Definition add_day (dt : datetime) : result datetime :=
  let '(y, m, d) := next_date (year dt) (month dt) (day dt) in
  if y <=? MAXYEAR
  then Ok (mkdt y m d (hour dt) (minute dt) (second dt) (microsecond dt))
  else Raise OverflowError.

(** [dt - timedelta(days=1)]: the previous calendar day at the same time;
    [OverflowError] before 01.01.0001. *)
Definition sub_day (dt : datetime) : result datetime :=
  let '(y, m, d) := prev_date (year dt) (month dt) (day dt) in
  if MINYEAR <=? y
  then Ok (mkdt y m d (hour dt) (minute dt) (second dt) (microsecond dt))
  else Raise OverflowError.

(** [dt.toordinal()]: day 1 is 01.01.0001. *)
Definition days_before_year (y : Z) : Z :=
  let y := y - 1 in y * 365 + y / 4 - y / 100 + y / 400.

Fixpoint days_before_month_nat (y : Z) (m : nat) : Z :=
  match m with
  | O => 0
  | S m' => days_before_month_nat y m' + days_in_month y (Z.of_nat m)
  end.

Definition days_before_month (y m : Z) : Z :=
  days_before_month_nat y (Z.to_nat (m - 1)).

Definition toordinal (dt : datetime) : Z :=
  days_before_year (year dt) + days_before_month (year dt) (month dt) + day dt.

(** The microseconds of the [timedelta] [a - b]. *)
Definition timedelta_us (a b : datetime) : Z :=
  ((toordinal a - toordinal b) * 86400 +
   ((hour a - hour b) * 60 + (minute a - minute b)) * 60 +
   (second a - second b)) * 1000000 + (microsecond a - microsecond b).

(** ** [strftime]

    CPython hands the format to the [strftime] of the C library.  [%d],
    [%m], [%H] and [%M] are two digits, zero padded.  [%Y] is the year in
    decimal: on Linux (glibc) it is not padded, so that the year 987 is
    printed [987] and only the years from 1000 on have four digits. *)

Definition strftime_dmY (dt : datetime) : string :=
  Str.pad2 (day dt) ++ "." ++ Str.pad2 (month dt) ++ "." ++ Str.decimal (year dt).

Definition strftime_dmY_HM (dt : datetime) : string :=
  strftime_dmY dt ++ " " ++ Str.pad2 (hour dt) ++ ":" ++ Str.pad2 (minute dt).

(** ** [strptime]

    CPython turns the format into a regular expression, one alternation
    per directive, matches it at the start of the string with
    backtracking, and refuses a match that leaves characters unread.  A
    matcher returns its matches in the order the backtracking engine tries
    them: the values read so far and the rest of the input. *)

Inductive directive : Type :=
| Dd | Dm | DY | DH | DM | DS   (* %d %m %Y %H %M %S *)
| Lit (c : ascii)               (* an escaped literal character *)
| Ws.                           (* a run of blanks in the format: \s+ *)

Definition rng (lo hi : nat) (c : ascii) : bool :=
  let n := nat_of_ascii c in (lo <=? n)%nat && (n <=? hi)%nat.

(** One alternative of a directive: a sequence of character classes. *)
Fixpoint match_classes (cls : list (ascii -> bool)) (s : string) (acc : Z)
  : list (Z * string) :=
  match cls with
  | [] => [(acc, s)]
  | p :: cls' =>
      match s with
      | String c s' =>
          if p c
          then match_classes cls' s'
                 (if Str.is_digit c then 10 * acc + Str.digit_val c else acc)
          else []
      | "" => []
      end
  end.

Definition alternatives (alts : list (list (ascii -> bool))) (s : string)
  : list (Z * string) :=
  flat_map (fun cls => match_classes cls s 0) alts.

Definition ch (n : nat) : ascii -> bool := rng n n.
Definition d09 : ascii -> bool := rng 48 57.

(** [\s+]: greedy, so the longest run first. *)
Fixpoint spaces_star (s : string) : list string :=
  match s with
  | String c s' => if Str.is_space c then (spaces_star s' ++ [s])%list else [s]
  | "" => [s]
  end.

Definition spaces_plus (s : string) : list string :=
  match s with
  | String c s' => if Str.is_space c then spaces_star s' else []
  | "" => []
  end.

(** The fields read by a match. *)
Record fields : Type := mkfields {
  f_d : Z; f_m : Z; f_Y : Z; f_H : Z; f_M : Z; f_S : Z
}.

(** The defaults of [_strptime]: 1 January 1900, midnight. *)
Definition fields0 : fields := mkfields 1 1 1900 0 0 0.

Definition match_directive (dv : directive) (f : fields) (s : string)
  : list (fields * string) :=
  let set (upd : Z -> fields) := map (fun '(v, r) => (upd v, r)) in
  match dv with
  | Dd => set (fun v => mkfields v (f_m f) (f_Y f) (f_H f) (f_M f) (f_S f))
            (alternatives [[ch 51; rng 48 49]; [rng 49 50; d09]; [ch 48; rng 49 57];
                           [rng 49 57]; [ch 32; rng 49 57]] s)
  | Dm => set (fun v => mkfields (f_d f) v (f_Y f) (f_H f) (f_M f) (f_S f))
            (alternatives [[ch 49; rng 48 50]; [ch 48; rng 49 57]; [rng 49 57]] s)
  | DY => set (fun v => mkfields (f_d f) (f_m f) v (f_H f) (f_M f) (f_S f))
            (alternatives [[d09; d09; d09; d09]] s)
  | DH => set (fun v => mkfields (f_d f) (f_m f) (f_Y f) v (f_M f) (f_S f))
            (alternatives [[ch 50; rng 48 51]; [rng 48 49; d09]; [d09]] s)
  | DM => set (fun v => mkfields (f_d f) (f_m f) (f_Y f) (f_H f) v (f_S f))
            (alternatives [[rng 48 53; d09]; [d09]] s)
  | DS => set (fun v => mkfields (f_d f) (f_m f) (f_Y f) (f_H f) (f_M f) v)
            (alternatives [[ch 54; rng 48 49]; [rng 48 53; d09]; [d09]] s)
  | Lit c =>
      match s with
      | String c' s' => if Ascii.eqb c c' then [(f, s')] else []
      | "" => []
      end
  | Ws => map (fun r => (f, r)) (spaces_plus s)
  end.

Fixpoint match_format (fmt : list directive) (f : fields) (s : string)
  : list (fields * string) :=
  match fmt with
  | [] => [(f, s)]
  | dv :: fmt' =>
      flat_map (fun '(f', r) => match_format fmt' f' r) (match_directive dv f s)
  end.

(** [datetime.strptime(s, fmt)]: the first match must read the whole
    string, and the fields must make a datetime. *)
Definition strptime (s : string) (fmt : list directive) : result datetime :=
  match match_format fmt fields0 s with
  | (f, "") :: _ =>
      let dt := mkdt (f_Y f) (f_m f) (f_d f) (f_H f) (f_M f) (f_S f) 0 in
      if valid dt then Ok dt else Raise ValueError
  | _ => Raise ValueError
  end.

(** ['%d.%m.%Y'], ['%d.%m.%Y %H:%M'] and ['%d.%m.%Y %H:%M:%S'] *)
Definition fmt_dmY : list directive := [Dd; Lit "."; Dm; Lit "."; DY].
Definition fmt_dmY_HM : list directive := (fmt_dmY ++ [Ws; DH; Lit ":"; DM])%list.
Definition fmt_dmY_HMS : list directive := (fmt_dmY_HM ++ [Lit ":"; DS])%list.

End Datetime.

(* ===================================================================== *)
(** * [src/web/shifts.py]: splitting a period into work shifts *)
(* ===================================================================== *)

Module Shifts.
Import Datetime.

(** Shift time boundaries *)
Definition MORNING_START : Z * Z := (7, 30).
Definition MORNING_END : Z * Z := (19, 30).
Definition EVENING_START : Z * Z := (19, 30).
Definition EVENING_END : Z * Z := (7, 30).

(** [parse_datetime]: the three formats are tried in turn on the stripped
    string; [None] for an empty string and when none matches. *)
Definition parse_datetime (dt_str : string) : option datetime :=
  if String.eqb dt_str "" then None
  else
    let try_formats :=
      fix go (fmts : list (list directive)) : option datetime :=
        match fmts with
        | [] => None
        | fmt :: fmts' =>
            match strptime (Str.strip dt_str) fmt with
            | Ok dt => Some dt
            | Raise _ => go fmts'
            end
        end in
    try_formats [fmt_dmY_HMS; fmt_dmY_HM; fmt_dmY].

Definition format_datetime (dt : datetime) : string := strftime_dmY_HM dt.

Definition format_date (dt : datetime) : string := strftime_dmY dt.

Definition get_shift_type (dt : datetime) : string :=
  let time_val := hour dt * 60 + minute dt in
  let morning_start_val := fst MORNING_START * 60 + snd MORNING_START in
  let morning_end_val := fst MORNING_END * 60 + snd MORNING_END in
  if (morning_start_val <=? time_val) && (time_val <? morning_end_val)
  then "morning"
  else "evening".

Definition get_shift_key (dt : datetime) (shift_type : string) : result string :=
  shift_date ←
    (if String.eqb shift_type "evening" then
       if (hour dt <? 7) || ((hour dt =? 7) && (minute dt <? 30))
       then sub_day dt
       else Ok dt
     else Ok dt);
  Ok (format_date shift_date ++ "_" ++ shift_type).

(** The labels are [Утро DD.MM] and [Вечер DD.MM]. *)
Definition get_shift_label (shift_key : string) : string :=
  match Str.rsplit1 "_" shift_key with
  | (_, None) => shift_key
  | (date_str, Some shift_type) =>
      let short_date :=
        match Str.split "." date_str with
        | p0 :: p1 :: _ => p0 ++ "." ++ p1
        | _ => date_str
        end in
      if String.eqb shift_type "morning"
      then "Утро " ++ short_date
      else "Вечер " ++ short_date
  end.

Definition get_shift_boundaries (shift_key : string) : result (datetime * datetime) :=
  match Str.rsplit1 "_" shift_key with
  | (_, None) => Raise ValueError
  | (date_str, Some shift_type) =>
      date ← strptime date_str fmt_dmY;
      if String.eqb shift_type "morning" then
        start ← replace_hm date (fst MORNING_START) (snd MORNING_START);
        end_ ← replace_hm date (fst MORNING_END) (snd MORNING_END);
        Ok (start, end_)
      else
        start ← replace_hm date (fst EVENING_START) (snd EVENING_START);
        next ← add_day date;
        end_ ← replace_hm next (fst EVENING_END) (snd EVENING_END);
        Ok (start, end_)
  end.

(** The shift dictionaries built by [split_period_into_shifts]. *)
Record shift : Type := mkshift {
  key : string;
  label : string;
  from_dt : datetime;
  to_dt : datetime;
  actual_from : datetime;
  actual_to : datetime
}.

(** The body of the [while current < to_dt] loop; [None] when [fuel]
    iterations did not finish it. *)
Fixpoint split_loop (fuel : nat) (current to_dt : datetime) (shifts : list shift)
  : option (result (list shift)) :=
  if negb (ltb current to_dt) then Some (Ok shifts)
  else
    match fuel with
    | O => None
    | S fuel' =>
        let shift_type := get_shift_type current in
        match (shift_key ← get_shift_key current shift_type;
               bounds ← get_shift_boundaries shift_key;
               Ok (shift_key, bounds)) with
        | Raise e => Some (Raise e)
        | Ok (shift_key, (shift_start, shift_end)) =>
            let actual_from := max current shift_start in
            let actual_to := min to_dt shift_end in
            let shifts' :=
              if ltb actual_from actual_to
              then (shifts ++ [mkshift shift_key (get_shift_label shift_key)
                                 shift_start shift_end actual_from actual_to])%list
              else shifts in
            split_loop fuel' shift_end to_dt shifts'
        end
    end.

(** The half-day slot of a datetime, counted on a calendar of 31-day
    months: the night before 07:30, the morning shift, the evening. *)
Definition slot (dt : datetime) : Z :=
  let time_val := hour dt * 60 + minute dt in
  2 * ((year dt * 12 + (month dt - 1)) * 31 + (day dt - 1)) +
  (if time_val <? 450 then 0 else if time_val <? 1170 then 1 else 2).

(** Every iteration moves [current] to a later slot, which bounds the
    number of iterations. *)
Definition loop_bound (from_dt to_dt : datetime) : nat :=
  Z.to_nat (slot to_dt - slot from_dt + 2).

Definition split_period_into_shifts (from_dt to_dt : datetime)
  : option (result (list shift)) :=
  split_loop (loop_bound from_dt to_dt) from_dt to_dt [].

(** The entries of [split_period_into_shifts_str]. *)
Record shift_str : Type := mkshift_str {
  s_key : string;
  s_label : string;
  s_from : string;
  s_to : string
}.

Definition split_period_into_shifts_str (from_date to_date : string)
  : option (result (list shift_str)) :=
  match parse_datetime from_date, parse_datetime to_date with
  | Some from_dt, Some to_dt =>
      match
        (from_dt ← (if (hour from_dt =? 0) && (minute from_dt =? 0)
                    then replace_hm from_dt (fst MORNING_START) (snd MORNING_START)
                    else Ok from_dt);
         to_dt ← (if (hour to_dt =? 0) && (minute to_dt =? 0)
                  then replace_hm to_dt (fst MORNING_END) (snd MORNING_END)
                  else Ok to_dt);
         Ok (from_dt, to_dt)) with
      | Raise e => Some (Raise e)
      | Ok (from_dt, to_dt) =>
          match split_period_into_shifts from_dt to_dt with
          | Some (Ok shifts) =>
              Some (Ok (map (fun s => mkshift_str (key s) (label s)
                                        (format_datetime (actual_from s))
                                        (format_datetime (actual_to s))) shifts))
          | Some (Raise e) => Some (Raise e)
          | None => None
          end
      end
  | _, _ => Some (Ok [])
  end.

End Shifts.

(* ===================================================================== *)
(** * Python values decoded from JSON

    What [response.json()] returns, and what the parsers build: [None],
    booleans, integers, floats, strings, lists and dictionaries with
    string keys.  A dictionary is the list of its items in insertion
    order; its keys are distinct. *)
(* ===================================================================== *)

Module Py.

Definition float : Type := spec_float.

Inductive json : Type :=
| JNull
| JBool (b : bool)
| JInt (n : Z)
| JFloat (f : float)
| JStr (s : string)
| JList (l : list json)
| JDict (d : list (string * json)).

Definition dict : Type := list (string * json).

(** [bool(v)] *)
Definition truthy (v : json) : bool :=
  match v with
  | JNull => false
  | JBool b => b
  | JInt n => negb (n =? 0)
  | JFloat (S754_zero _) => false
  | JFloat _ => true
  | JStr s => negb (String.eqb s "")
  | JList l => match l with [] => false | _ => true end
  | JDict d => match d with [] => false | _ => true end
  end.

(** [v == 0]: the integer zero, a float zero of either sign, and [False]. *)
Definition is_zero (v : json) : bool :=
  match v with
  | JInt n => n =? 0
  | JFloat (S754_zero _) => true
  | JBool b => negb b
  | _ => false
  end.

(** [d.get(k)] and [d.get(k, default)] *)
Fixpoint lookup (k : string) (d : dict) : option json :=
  match d with
  | [] => None
  | (k', v) :: d' => if String.eqb k k' then Some v else lookup k d'
  end.

Definition get (d : dict) (k : string) : json :=
  match lookup k d with Some v => v | None => JNull end.

Definition get_default (d : dict) (k : string) (default : json) : json :=
  match lookup k d with Some v => v | None => default end.

(** [d[k] = v]: an existing key keeps its place. *)
Fixpoint set (k : string) (v : json) (d : dict) : dict :=
  match d with
  | [] => [(k, v)]
  | (k', v') :: d' =>
      if String.eqb k k' then (k, v) :: d' else (k', v') :: set k v d'
  end.

(** [v.get]: only dictionaries have the method. *)
Definition as_dict (v : json) : result dict :=
  match v with
  | JDict d => Ok d
  | _ => Raise AttributeError
  end.

(** The values a [for] loop over [v] visits: the elements of a list, the
    keys of a dictionary, the characters of a string (here its bytes,
    one string each); other values are not iterable. *)
Definition iterate (v : json) : result (list json) :=
  match v with
  | JList l => Ok l
  | JDict d => Ok (map (fun kv => JStr (fst kv)) d)
  | JStr s => Ok (map (fun c => JStr (String c "")) (list_ascii_of_string s))
  | _ => Raise TypeError
  end.

(** [s.lower()] on UTF-8: the capitals of ASCII and of the Cyrillic block
    U+0400..U+042F; other characters are left as they are. *)
Fixpoint lower (s : string) : string :=
  match s with
  | "" => ""
  | String c s' =>
      let n := nat_of_ascii c in
      if (65 <=? n)%nat && (n <=? 90)%nat
      then String (ascii_of_nat (n + 32)) (lower s')
      else if (n =? 208)%nat then
        match s' with
        | String c2 s'' =>
            let m := nat_of_ascii c2 in
            if (128 <=? m)%nat && (m <=? 143)%nat
            then String (ascii_of_nat 209) (String (ascii_of_nat (m + 16)) (lower s''))
            else if (144 <=? m)%nat && (m <=? 159)%nat
            then String c (String (ascii_of_nat (m + 32)) (lower s''))
            else if (160 <=? m)%nat && (m <=? 175)%nat
            then String (ascii_of_nat 209) (String (ascii_of_nat (m - 32)) (lower s''))
            else String c (lower s')
        | "" => String c ""
        end
      else String c (lower s')
  end.

(** The arithmetic of Python floats is not evaluated: the operations the
    parser uses are the fields of this interface. *)
Class FloatOps : Type := {
  (** [v / n] for an integer constant [n]; [TypeError] when [v] is not a
      number, [OverflowError] when an integer is too large for a float *)
  truediv : json -> Z -> result float;
  (** [round(x, ndigits)] *)
  round : float -> Z -> float;
  (** [td.total_seconds()] for a [timedelta] of that many microseconds *)
  total_seconds : Z -> float;
  (** [total + x], where [total] starts as the integer 0 *)
  add : json -> float -> float
}.

End Py.

(* ===================================================================== *)
(** * [src/api/client.py]: one request with bounded retries *)
(* ===================================================================== *)

Module Client.
Import Py.

(** What one [requests.post] followed by [raise_for_status] and
    [response.json()] can do, by the [except] clause that handles it.
    The clauses are tried in the order of the source, so an exception
    that is both a [RequestException] and a [json.JSONDecodeError] (what
    [response.json()] raises for a body that is not JSON since requests
    2.27) is a [RequestException] here; [JSONDecodeError] stands for one
    the earlier clauses do not catch. *)
Inductive response : Type :=
| Json (data : json)                 (* a decoded body is returned *)
| HTTPError (status_code : Z) (msg : string)
| Timeout
| RequestException (msg : string)
| JSONDecodeError (msg : string).

(** What the caller of the client can observe of a call. *)
Inductive event : Type :=
| Request (attempt_no : Z)           (* logged as "Request attempt n" *)
| Sleep (seconds : Z).

Record run : Type := mkrun {
  (** [None]: the script of responses ended while a request was pending *)
  outcome : option (result json);
  trace : list event;
  (** the responses that were not consumed *)
  pending : list response
}.

Definition max_rate_limit_retries : Z := 5.

Definition failed_msg (retry_count : Z) (last_error : option string) : string :=
  "API request failed after " ++ pretty retry_count ++ " attempts: " ++
  match last_error with Some e => e | None => "None" end.

(** The [while attempt < self.retry_count] loop of [_make_request], run
    against the responses the server will give. *)
Fixpoint request_loop (retry_count : Z) (command : string)
    (responses : list response)
    (attempt rate_limit_retries : Z) (last_error : option string)
    (tr : list event) : run :=
  if negb (attempt <? retry_count)
  then mkrun (Some (Raise (RuntimeError (failed_msg retry_count last_error))))
             tr responses
  else
    match responses with
    | [] => mkrun None tr []
    | r :: responses' =>
        let tr := (tr ++ [Request (attempt + 1)])%list in
        (* the tail of an iteration that did not [continue] or leave *)
        let next last_error :=
          let attempt := attempt + 1 in
          let tr := if attempt <? retry_count
                    then (tr ++ [Sleep (2 ^ (attempt - 1))])%list else tr in
          request_loop retry_count command responses' attempt
                       rate_limit_retries last_error tr in
        match r with
        | Json data => mkrun (Some (Ok data)) tr responses'
        | HTTPError status_code msg =>
            if status_code =? 404
            then mkrun (Some (Raise NotFoundError)) tr responses'
            else if status_code =? 429 then
              let rate_limit_retries := rate_limit_retries + 1 in
              if rate_limit_retries >? max_rate_limit_retries
              then mkrun (Some (Raise (RuntimeError
                            ("Rate limited too many times for " ++ command))))
                         tr responses'
              else
                let wait_time := 10 * rate_limit_retries in
                request_loop retry_count command responses' attempt
                             rate_limit_retries last_error
                             (tr ++ [Sleep wait_time])%list
            else next (Some msg)
        | Timeout => next (Some "Request timeout")
        | RequestException msg => next (Some msg)
        | JSONDecodeError msg =>
            mkrun (Some (Raise (RuntimeError
                     (failed_msg retry_count (Some ("Invalid JSON response: " ++ msg))))))
                  tr responses'
        end
    end.

Definition _make_request (retry_count : Z) (command : string)
    (responses : list response) : run :=
  request_loop retry_count command responses 0 0 None [].

End Client.

(* ===================================================================== *)
(** * [src/api/fetcher.py]: monitoring tasks *)
(* ===================================================================== *)

(** The task dictionaries built by [extract_monitoring_tasks].  The
    vehicle id is whatever the route list holds under [idMO]; the
    dictionaries of the fetcher that are keyed by it are annotated
    [Dict[int, ...]]. *)
Record task (Id : Type) : Type := mktask {
  pl_id : string;
  ts_id_mo : Id;
  ts_reg_number : Py.json;
  ts_name_mo : Py.json;
  from_date : Py.json;
  to_date : Py.json
}.
Arguments mktask {Id}.
Arguments pl_id {Id}.
Arguments ts_id_mo {Id}.
Arguments ts_reg_number {Id}.
Arguments ts_name_mo {Id}.
Arguments from_date {Id}.
Arguments to_date {Id}.

(** ** [DataFetcher._reorder_tasks_for_rate_limit] *)

Module Interleaver.
Section WithId.
Context {Id : Type} `{EqDecision Id}.

(** [by_vehicle]: a dictionary in insertion order. *)
Definition groups : Type := list (Id * list (task Id)).

Definition has_key (vid : Id) (by_vehicle : groups) : bool :=
  existsb (fun kv => bool_decide (fst kv = vid)) by_vehicle.

(** [by_vehicle[vid].append(t)] *)
Fixpoint append_to (vid : Id) (t : task Id) (by_vehicle : groups) : groups :=
  match by_vehicle with
  | [] => []
  | (k, g) :: rest =>
      if bool_decide (k = vid) then (k, (g ++ [t])%list) :: rest
      else (k, g) :: append_to vid t rest
  end.

(** The body of [for task in tasks]. *)
Definition group_step (by_vehicle : groups) (t : task Id) : groups :=
  let ts_id := ts_id_mo t in
  let by_vehicle :=
    if negb (has_key ts_id by_vehicle)
    then (by_vehicle ++ [(ts_id, [])])%list
    else by_vehicle in
  append_to ts_id t by_vehicle.

Definition group_tasks (tasks : list (task Id)) : groups :=
  fold_left group_step tasks [].

(** [any(by_vehicle.values())] *)
Definition any_nonempty (by_vehicle : groups) : bool :=
  existsb (fun kv => match snd kv with [] => false | _ => true end) by_vehicle.

(** One pass of [for vid in vehicle_ids]: the tasks popped, in order, and
    the dictionary left. *)
Fixpoint take_round (by_vehicle : groups) : list (task Id) * groups :=
  match by_vehicle with
  | [] => ([], [])
  | (vid, g) :: rest =>
      let (taken, rest') := take_round rest in
      match g with
      | [] => (taken, (vid, []) :: rest')
      | t :: g' => (t :: taken, (vid, g') :: rest')
      end
  end.

(** The [while any(...)] loop, at most [fuel] passes. *)
Fixpoint rounds (fuel : nat) (by_vehicle : groups) (result : list (task Id))
  : list (task Id) :=
  if any_nonempty by_vehicle then
    match fuel with
    | O => result
    | S fuel' =>
        let (taken, by_vehicle') := take_round by_vehicle in
        rounds fuel' by_vehicle' (result ++ taken)%list
    end
  else result.

(** The same loop with the end of the fuel told apart from the end of
    the loop: [Some] only when the guard [any(...)] became false, [None]
    when [fuel] passes did not make it so. *)
Fixpoint rounds_within (fuel : nat) (by_vehicle : groups) (result : list (task Id))
  : option (list (task Id)) :=
  if any_nonempty by_vehicle then
    match fuel with
    | O => None
    | S fuel' =>
        let (taken, by_vehicle') := take_round by_vehicle in
        rounds_within fuel' by_vehicle' (result ++ taken)%list
    end
  else Some result.

(** Every pass pops a task while one is left, so [len(tasks)] passes are
    enough. *)
Definition _reorder_tasks_for_rate_limit (tasks : list (task Id)) : list (task Id) :=
  match tasks with
  | [] => tasks
  | _ => rounds (length tasks) (group_tasks tasks) []
  end.

(** *** The algorithm in the words of the specification

    Group the tasks by vehicle, each group in the original order and the
    groups in the order in which their vehicles first appear; then take
    one task from each group that still has one, round after round. *)

Fixpoint first_appearance (ids : list Id) : list Id :=
  match ids with
  | [] => []
  | x :: rest =>
      x :: List.filter (fun y => negb (bool_decide (y = x))) (first_appearance rest)
  end.

Definition group_of (tasks : list (task Id)) (vid : Id) : list (task Id) :=
  List.filter (fun t => bool_decide (ts_id_mo t = vid)) tasks.

Definition spec_groups (tasks : list (task Id)) : list (list (task Id)) :=
  map (group_of tasks) (first_appearance (map ts_id_mo tasks)).

(** Round [k] takes the task at position [k] of every group that has one. *)
Definition spec_round (gs : list (list (task Id))) (k : nat) : list (task Id) :=
  flat_map (fun g => match nth_error g k with Some t => [t] | None => [] end) gs.

Definition interleave_spec (tasks : list (task Id)) : list (task Id) :=
  flat_map (spec_round (spec_groups tasks)) (seq 0 (length tasks)).

End WithId.
End Interleaver.

(** ** [DataFetcher.extract_monitoring_tasks] *)

Module Extractor.
Import Py.
Section WithStr.

(** [str(v)], which is [v] itself for a string; the text it gives for
    other values is not fixed here. *)
Variable py_str : json -> string.

(** The body of [for ts in ts_list]: the tasks it appends. *)
Definition ts_tasks (pl_id : string) (date_out_plan date_in_plan ts : json)
  : list (task json) :=
  match ts with
  | JDict ts =>
      let ts_id_mo := get ts "idMO" in
      if negb (truthy ts_id_mo) then []
      else
        let ts_name := lower (py_str (get_default ts "nameMO" (JStr ""))) in
        if negb (Str.contains "тягач" ts_name) then []
        else [mktask pl_id ts_id_mo (get ts "regNumber") (get ts "nameMO")
                     date_out_plan date_in_plan]
  | _ => []
  end.

(** The body of [for pl in pl_data.get('list', [])]: the tasks it appends. *)
Definition pl_tasks (pl : json) : result (list (task json)) :=
  pl ← as_dict pl;
  let pl_id := py_str (get pl "tsNumber") ++ "_" ++ py_str (get pl "dateOut") in
  let date_out_plan := get_default pl "dateOutPlan" (JStr "") in
  let date_in_plan := get_default pl "dateInPlan" (JStr "") in
  if negb (truthy date_out_plan) || negb (truthy date_in_plan) then Ok []
  else
    let ts_list := get_default pl "ts" (JList []) in
    if negb (truthy ts_list) then Ok []
    else
      ts_list ← iterate ts_list;
      Ok (flat_map (ts_tasks pl_id date_out_plan date_in_plan) ts_list).

Fixpoint extract_loop (pls : list json) (tasks : list (task json))
  : result (list (task json)) :=
  match pls with
  | [] => Ok tasks
  | pl :: pls' =>
      new ← pl_tasks pl;
      extract_loop pls' (tasks ++ new)%list
  end.

Definition extract_monitoring_tasks (pl_data : json) : result (list (task json)) :=
  pl_data ← as_dict pl_data;
  pls ← iterate (get_default pl_data "list" (JList []));
  extract_loop pls [].

End WithStr.
End Extractor.

(* ===================================================================== *)
(** * [src/parsers/monitoring_parser.py] *)
(* ===================================================================== *)

Module MonitoringParser.
Import Py Datetime.

(** Default interval for track simplification (minutes) *)
Definition TRACK_SIMPLIFY_INTERVAL_MIN : Z := 20.

(** [_parse_datetime]: [None] for a false value and for a string in
    neither format; [strptime] refuses other values. *)
Definition _parse_datetime (dt_str : json) : result (option datetime) :=
  if negb (truthy dt_str) then Ok None
  else
    match dt_str with
    | JStr s =>
        match strptime s fmt_dmY_HMS with
        | Ok dt => Ok (Some dt)
        | Raise _ =>
            match strptime s fmt_dmY_HM with
            | Ok dt => Ok (Some dt)
            | Raise _ => Ok None
            end
        end
    | _ => Raise TypeError
    end.

(** The loop of [_simplify_track] over [track[1:-1]].  The quotient
    [total_seconds() / 60] is compared with the interval exactly. *)
Fixpoint simplify_loop (interval_minutes : Z) (points : list dict)
    (kept : list dict) (last_time : option datetime) : result (list dict) :=
  match points with
  | [] => Ok kept
  | point :: points' =>
      point_time ← _parse_datetime (get_default point "time" (JStr ""));
      match point_time, last_time with
      | Some pt, Some lt =>
          if timedelta_us pt lt >=? interval_minutes * 60 * 1000000
          then simplify_loop interval_minutes points' (kept ++ [point])%list (Some pt)
          else simplify_loop interval_minutes points' kept last_time
      | Some pt, None =>
          simplify_loop interval_minutes points' (kept ++ [point])%list (Some pt)
      | None, _ => simplify_loop interval_minutes points' kept last_time
      end
  end.

Definition _simplify_track (track : list dict) (interval_minutes : Z)
  : result (list dict) :=
  if (match track with [] => true | _ => false end) || (length track <=? 2)%nat
  then Ok track
  else
    match track with
    | [] => Ok track
    | first :: rest =>
        last_time ← _parse_datetime (get_default first "time" (JStr ""));
        kept ← simplify_loop interval_minutes (removelast rest) [first] last_time;
        Ok (kept ++ [List.last rest first])%list
    end.

Definition _empty_monitoring : dict :=
  [("mon_mo_uid", JNull); ("mon_name_mo", JNull); ("mon_distance", JNull);
   ("mon_moving_time", JNull); ("mon_engine_time", JNull);
   ("mon_engine_idling_time", JNull); ("mon_last_activity", JNull);
   ("mon_moving_time_hours", JNull); ("mon_engine_time_hours", JNull);
   ("mon_idling_time_hours", JNull);
   ("mon_fuel_name", JNull); ("mon_fuel_charges", JNull);
   ("mon_fuel_discharges", JNull); ("mon_fuel_rate", JNull);
   ("mon_fuel_begin", JNull); ("mon_fuel_end", JNull);
   ("mon_fuels", JList []); ("mon_parkings", JList []);
   ("mon_parkings_count", JInt 0); ("mon_parkings_total_hours", JInt 0);
   ("mon_track", JList [])].

Section WithFloats.
Context `{FloatOps}.

(** [round(v / 3600, 2) if v else None] *)
Definition hours (v : json) : result json :=
  if truthy v then
    q ← truediv v 3600;
    Ok (JFloat (round q 2))
  else Ok JNull.

Definition fuel_record (fuel : dict) : json :=
  JDict [("name", get fuel "fuelName"); ("charges", get fuel "charges");
         ("discharges", get fuel "discharges"); ("rate", get fuel "rate");
         ("value_begin", get fuel "valueBegin"); ("value_end", get fuel "valueEnd")].

Definition parse_fuels (fuels : json) : list json :=
  match fuels with
  | JList l =>
      flat_map (fun fuel => match fuel with
                            | JDict fuel => [fuel_record fuel]
                            | _ => []
                            end) l
  | _ => []
  end.

(** The loop over [parkings]: the records and [total_parking_minutes]. *)
Fixpoint parse_parkings (parkings : list json) (acc : list json) (total : json)
  : result (list json * json) :=
  match parkings with
  | [] => Ok (acc, total)
  | JDict p :: parkings' =>
      let begin := get p "begin" in
      let end_ := get p "end" in
      let address := get_default p "address" (JStr "") in
      let lon := get p "lon" in
      let lat := get p "lat" in
      begin_dt ← _parse_datetime begin;
      end_dt ← _parse_datetime end_;
      '(parking_minutes, total) ←
        match begin_dt, end_dt with
        | Some b, Some e =>
            q ← truediv (JFloat (total_seconds (timedelta_us e b))) 60;
            let parking_minutes := round q 1 in
            Ok (JFloat parking_minutes, JFloat (add total parking_minutes))
        | _, _ => Ok (JNull, total)
        end;
      parse_parkings parkings'
        (acc ++ [JDict [("begin", begin); ("end", end_); ("address", address);
                        ("duration_min", parking_minutes);
                        ("lat", lat); ("lon", lon)]])%list
        total
  | _ :: parkings' => parse_parkings parkings' acc total
  end.

Definition is_none (v : json) : bool :=
  match v with JNull => true | _ => false end.

Definition track_points (track : list json) : list dict :=
  flat_map (fun t =>
    match t with
    | JDict t =>
        let lat := get t "lat" in
        let lon := get t "lon" in
        if negb (is_none lat) && negb (is_none lon)
        then [[("lat", lat); ("lon", lon);
               ("time", get_default t "time" (JStr "")); ("speed", get t "speed")]]
        else []
    | _ => []
    end) track.

Definition parse_monitoring (data : json) : result dict :=
  match data with
  | JDict ((_ :: _) as data) =>
      let mon_moving_time := get data "movingTime" in
      let mon_engine_time := get data "engineTime" in
      let mon_engine_idling_time := get data "engineIdlingTime" in
      mon_moving_time_hours ← hours mon_moving_time;
      mon_engine_time_hours ← hours mon_engine_time;
      mon_idling_time_hours ← hours mon_engine_idling_time;
      let fuels := get_default data "fuels" (JList []) in
      let mon_fuels := if truthy fuels then parse_fuels fuels else [] in
      let f := match mon_fuels with JDict f :: _ => f | _ => [] end in
      let parkings := get_default data "parkings" (JList []) in
      '(mon_parkings, total_parking_minutes) ←
        match parkings with
        | JList ((_ :: _) as l) => parse_parkings l [] (JInt 0)
        | _ => Ok ([], JInt 0)
        end;
      mon_parkings_total_hours ←
        (if truthy total_parking_minutes then
           q ← truediv total_parking_minutes 60;
           Ok (JFloat (round q 2))
         else Ok (JInt 0));
      let track := get_default data "track" (JList []) in
      mon_track ←
        match track with
        | JList ((_ :: _) as l) =>
            _simplify_track (track_points l) TRACK_SIMPLIFY_INTERVAL_MIN
        | _ => Ok []
        end;
      Ok [("mon_mo_uid", get data "moUid");
          ("mon_name_mo", get data "nameMO");
          ("mon_distance", get data "distance");
          ("mon_moving_time", mon_moving_time);
          ("mon_engine_time", mon_engine_time);
          ("mon_engine_idling_time", mon_engine_idling_time);
          ("mon_last_activity", get data "lastActivityTime");
          ("mon_moving_time_hours", mon_moving_time_hours);
          ("mon_engine_time_hours", mon_engine_time_hours);
          ("mon_idling_time_hours", mon_idling_time_hours);
          ("mon_fuels", JList mon_fuels);
          ("mon_fuel_name", get f "name");
          ("mon_fuel_charges", get f "charges");
          ("mon_fuel_discharges", get f "discharges");
          ("mon_fuel_rate", get f "rate");
          ("mon_fuel_begin", get f "value_begin");
          ("mon_fuel_end", get f "value_end");
          ("mon_parkings", JList mon_parkings);
          ("mon_parkings_count", JInt (Z.of_nat (length mon_parkings)));
          ("mon_parkings_total_hours", mon_parkings_total_hours);
          ("mon_track", JList (map JDict mon_track))]
  | _ => Ok _empty_monitoring
  end.

End WithFloats.
End MonitoringParser.

(* ===================================================================== *)
(** * [src/api/fetcher.py]: fetching the monitoring data of a batch

    The network is a parameter: [net n] is what the [n]-th call of
    [client.get_monitoring_stats] of one client does (it returns the
    decoded body or raises) and how long it takes.  Time is counted in
    whole seconds.  Logging and console output are left out. *)
(* ===================================================================== *)

Module Fetcher.
Import Py MonitoringParser Interleaver.

Definition network : Type := nat -> result json * Z.

Definition RATE_LIMIT_SECONDS : Z := 30.

Section WithId.
Context {Id : Type} `{Countable Id} `{FloatOps}.

Inductive effect : Type :=
| Slept (seconds : Z)                       (* [time.sleep] *)
| Called (t : task Id)                      (* [get_monitoring_stats] *)
| Progress (current total : Z).             (* [progress_callback] *)

(** The variables of one loop over tasks, and the clock. *)
Record state : Type := mkstate {
  results : gmap (string * Id) dict;
  last_request_time : gmap Id Z;
  now : Z;
  calls : nat;
  events : list effect
}.

Definition initial (start : Z) : state := mkstate ∅ ∅ start O [].

(** The rate limit per vehicle: wait until 30 seconds have passed since
    the last request for it. *)
Definition wait_for_vehicle (ts_id : Id) (st : state) : state :=
  match last_request_time st !! ts_id with
  | Some last =>
      let elapsed := now st - last in
      if elapsed <? RATE_LIMIT_SECONDS then
        let wait_time := RATE_LIMIT_SECONDS - elapsed in
        mkstate (results st) (last_request_time st) (now st + wait_time)
                (calls st) (events st ++ [Slept wait_time])
      else st
  | None => st
  end.

(** [last_request_time[ts_id] = time.time(); results[key] = parsed] *)
Definition record (key : string * Id) (ts_id : Id) (parsed : dict) (st : state)
  : state :=
  mkstate (<[key := parsed]> (results st))
          (<[ts_id := now st]> (last_request_time st))
          (now st) (calls st) (events st).

(** The body of the loop over tasks up to the progress report, the same
    in [_fetch_monitoring_sequential] and in [worker]: the rate limit,
    then the [try] block with its two handlers. *)
Definition fetch_task (net : network) (st : state) (t : task Id) : result state :=
  let key := (pl_id t, ts_id_mo t) in
  let ts_id := ts_id_mo t in
  let st := wait_for_vehicle ts_id st in
  let (response, duration) := net (calls st) in
  let st := mkstate (results st) (last_request_time st) (now st + duration)
                    (S (calls st)) (events st ++ [Called t]) in
  match (raw_data ← response; parse_monitoring raw_data) with
  | Ok parsed => Ok (record key ts_id parsed st)
  | Raise NotFoundError =>
      empty ← parse_monitoring (JDict []);
      Ok (record key ts_id empty st)
  | Raise _ =>
      empty ← parse_monitoring (JDict []);
      Ok (record key ts_id empty st)
  end.

(** [for i, task in enumerate(tasks_sorted)], from index [i]. *)
Fixpoint sequential_loop (net : network) (progress_callback : bool) (total : Z)
    (i : Z) (tasks_sorted : list (task Id)) (st : state) : result state :=
  match tasks_sorted with
  | [] => Ok st
  | t :: rest =>
      st ← fetch_task net st t;
      let st :=
        if progress_callback
        then mkstate (results st) (last_request_time st) (now st) (calls st)
                     (events st ++ [Progress (i + 1) total])
        else st in
      sequential_loop net progress_callback total (i + 1) rest st
  end.

Definition _fetch_monitoring_sequential (net : network) (start : Z)
    (tasks : list (task Id)) (progress_callback : bool) : result state :=
  let total := Z.of_nat (length tasks) in
  let tasks_sorted := _reorder_tasks_for_rate_limit tasks in
  sequential_loop net progress_callback total 0 tasks_sorted (initial start).

(** [task_queues[i % len(clients)].append(task)] for every task. *)
Fixpoint distribute_from (n : nat) (i : nat) (tasks : list (task Id))
    (task_queues : list (list (task Id))) : list (list (task Id)) :=
  match tasks with
  | [] => task_queues
  | t :: rest =>
      distribute_from n (S i) rest
        (alter (fun q => q ++ [t])%list (i mod n)%nat task_queues)
  end.

Definition distribute (n : nat) (tasks : list (task Id))
  : result (list (list (task Id))) :=
  match n, tasks with
  | O, _ :: _ => Raise ZeroDivisionError
  | _, _ => Ok (distribute_from n 0 tasks (replicate n []))
  end.

(** [worker]: the loop over its own [task_list]. *)
Fixpoint worker_loop (net : network) (task_list : list (task Id)) (st : state)
  : result state :=
  match task_list with
  | [] => Ok st
  | t :: rest =>
      st ← fetch_task net st t;
      worker_loop net rest st
  end.

Definition worker (net : network) (start : Z) (task_list : list (task Id))
  : result state :=
  worker_loop net task_list (initial start).

(** [results.update(local_results)] for the futures in the order
    [as_completed] yields them; a worker that raised is logged and
    skipped. *)
Definition merge (locals : list (result state)) (order : list nat)
  : gmap (string * Id) dict :=
  fold_left (fun merged i =>
               match locals !! i with
               | Some (Ok st) => results st ∪ merged
               | _ => merged
               end) order ∅.

(** The outcome of a parallel run: the merged dictionary and what every
    worker did. *)
Record parallel_run : Type := mkparallel {
  merged : gmap (string * Id) dict;
  workers : list (result state)
}.

(** [nets i] is the network as the client of token [i] sees it, [order]
    the order in which the workers complete.  The callback is accepted
    and not used. *)
Definition _fetch_monitoring_parallel (nets : nat -> network) (n : nat)
    (order : list nat) (start : Z) (tasks : list (task Id))
    (progress_callback : bool) : result parallel_run :=
  task_queues ← distribute n tasks;
  let locals := imap (fun i q => worker (nets i) start q) task_queues in
  Ok (mkparallel (merge locals order) locals).

(** The callback invocations of a run, in order. *)
Definition progress_of (evs : list effect) : list (Z * Z) :=
  flat_map (fun e => match e with Progress c t => [(c, t)] | _ => [] end) evs.

Definition calls_of (evs : list effect) : list (task Id) :=
  flat_map (fun e => match e with Called t => [t] | _ => [] end) evs.

(** The callback invocations of a parallel run, whichever way the
    workers interleave: those recorded by its workers. *)
Definition parallel_progress (r : parallel_run) : list (Z * Z) :=
  flat_map (fun w => match w with
                     | Ok st => progress_of (events st)
                     | Raise _ => []
                     end) (workers r).

(** [fetch_monitoring_batch] with [n] tokens loaded: the dictionary it
    returns and the callback invocations it made. *)
Definition fetch_monitoring_batch (nets : nat -> network) (n : nat)
    (order : list nat) (start : Z) (tasks : list (task Id))
    (progress_callback : bool)
  : result (gmap (string * Id) dict * list (Z * Z)) :=
  if (1 <? n)%nat then
    r ← _fetch_monitoring_parallel nets n order start tasks progress_callback;
    Ok (merged r, parallel_progress r)
  else
    st ← _fetch_monitoring_sequential (nets O) start tasks progress_callback;
    Ok (results st, progress_of (events st)).

End WithId.
End Fetcher.

(* ===================================================================== *)
(** * [src/api/fetcher.py]: the tokens and the date prompt *)
(* ===================================================================== *)

Module Config.
Import Py Datetime.

(** The condition of the list comprehension of [_load_tokens]:
    [t and not t.startswith('SECOND') and not t.startswith('THIRD')].
    Only strings have [startswith]. *)
Definition keep_token (t : json) : result bool :=
  if negb (truthy t) then Ok false
  else
    match t with
    | JStr s => Ok (negb (Str.startswith "SECOND" s) && negb (Str.startswith "THIRD" s))
    | _ => Raise AttributeError
    end.

Fixpoint filter_tokens (tokens : list json) : result (list json) :=
  match tokens with
  | [] => Ok []
  | t :: tokens' =>
      keep ← keep_token t;
      kept ← filter_tokens tokens';
      Ok (if keep : bool then t :: kept else kept)
  end.

(** [_load_tokens], from the configuration [yaml.safe_load] returned. *)
Definition _load_tokens (config : json) : result (list json) :=
  config ← as_dict config;
  api_config ← as_dict (get_default config "api" (JDict []));
  let tokens := get_default api_config "tokens" (JList []) in
  let tokens :=
    if negb (truthy tokens) then
      let single_token := get_default api_config "token" (JStr "") in
      if truthy single_token then JList [single_token] else tokens
    else tokens in
  tokens ← iterate tokens;
  filter_tokens tokens.

(** [_validate_date] *)
Definition _validate_date (date_str : string) : bool :=
  match strptime date_str fmt_dmY with
  | Ok _ => true
  | Raise _ => false
  end.

End Config.

(* ===================================================================== *)
(** * [src/web/shifts.py]: [ShiftMonitoringFetcher]

    The client is a parameter: what [get_monitoring_stats] does with
    its arguments. *)
(* ===================================================================== *)

Module ShiftFetcher.
Import Py Datetime Shifts MonitoringParser.

Section WithClient.
Context {Id : Type} `{FloatOps}.

(** [not s] for an optional string argument whose default is [None]. *)
Definition not_given (s : option string) : bool :=
  match s with
  | None => true
  | Some s => String.eqb s ""
  end.

(** The string of an argument that was given. *)
Definition given (s : option string) : string :=
  match s with
  | Some s => s
  | None => ""
  end.

Definition fetch_shift_monitoring
    (get_monitoring_stats : Id -> string -> string -> result json)
    (ts_id_mo : Id) (shift_key : string) (from_date to_date : option string)
  : result dict :=
  '(from_date, to_date) ←
    (if not_given from_date || not_given to_date then
       '(start, end_) ← get_shift_boundaries shift_key;
       Ok (format_datetime start, format_datetime end_)
     else Ok (given from_date, given to_date));
  match (raw_data ← get_monitoring_stats ts_id_mo from_date to_date;
         parse_monitoring raw_data) with
  | Ok parsed => Ok parsed
  | Raise NotFoundError => parse_monitoring (JDict [])
  | Raise _ => parse_monitoring (JDict [])
  end.

(** The entries of [fetch_all_shifts]. *)
Record shift_data : Type := mkshift_data {
  d_key : string;
  d_label : string;
  d_from : string;
  d_to : string;
  d_data : dict
}.

(** The loop [for shift in shifts]; [client n] is what the [n]-th call of
    the client does. *)
Fixpoint fetch_shifts_loop (client : nat -> Id -> string -> string -> result json)
    (n : nat) (ts_id_mo : Id) (shifts : list shift_str) (results : list shift_data)
  : result (list shift_data) :=
  match shifts with
  | [] => Ok results
  | shift :: shifts' =>
      data ← fetch_shift_monitoring (client n) ts_id_mo (s_key shift)
                (Some (s_from shift)) (Some (s_to shift));
      fetch_shifts_loop client (S n) ts_id_mo shifts'
        (results ++ [mkshift_data (s_key shift) (s_label shift)
                                  (s_from shift) (s_to shift) data])%list
  end.

Definition fetch_all_shifts (client : nat -> Id -> string -> string -> result json)
    (ts_id_mo : Id) (from_date to_date : string)
  : option (result (list shift_data)) :=
  match split_period_into_shifts_str from_date to_date with
  | Some (Ok shifts) => Some (fetch_shifts_loop client 0 ts_id_mo shifts [])
  | Some (Raise e) => Some (Raise e)
  | None => None
  end.

End WithClient.
End ShiftFetcher.

(* ===================================================================== *)
(** * Properties of the embedding *)
(* ===================================================================== *)

(** Case analysis on the left operand of a [bind] in a hypothesis. *)
Ltac bind_inv H :=
  unfold mbind, result_bind in H;
  repeat match type of H with
         | context [match ?r with Ok _ => _ | Raise _ => _ end] =>
             let E := fresh "E" in destruct r eqn:E; try discriminate H
         end.

Module DatetimeFacts.
Import Datetime.

(** *** Strings *)

Lemma append_cons c s r : String c s ++ r = String c (s ++ r).
Proof. reflexivity. Qed.

Lemma append_nil r : "" ++ r = r.
Proof. reflexivity. Qed.

Lemma append_nil_r s : s ++ "" = s.
Proof. induction s as [|c s IH]; [reflexivity|]. now rewrite append_cons, IH. Qed.

Ltac norm_append := rewrite ?append_cons, ?append_nil.

(** *** Digits *)

Ltac digit_cases k :=
  let Hc := fresh "Hc" in
  assert (Hc : k = 0 \/ k = 1 \/ k = 2 \/ k = 3 \/ k = 4 \/ k = 5 \/ k = 6 \/
               k = 7 \/ k = 8 \/ k = 9) by lia;
  repeat (destruct Hc as [Hc | Hc]; [subst k|]); [..|subst k].

Lemma digit_char_digit k :
  0 <= k <= 9 ->
  d09 (Str.digit_char k) = true /\ Str.is_digit (Str.digit_char k) = true /\
  Str.digit_val (Str.digit_char k) = k.
Proof. intros Hk. digit_cases k; repeat split; reflexivity. Qed.

(** From the year 1000 on the year is printed with four digits. *)
Lemma decimal_four y : 1000 <= y -> Str.decimal y = Str.pad4 y.
Proof.
  intros Hy. unfold Str.decimal.
  destruct (Z.ltb_spec y 10); [lia|]. destruct (Z.ltb_spec y 100); [lia|].
  destruct (Z.ltb_spec y 1000); [lia|reflexivity].
Qed.

(** Before it the year has one, two or three digits. *)
Lemma decimal_short y :
  0 <= y < 1000 ->
  exists a, 0 <= a <= 9 /\
    (Str.decimal y = String (Str.digit_char a) "" \/
     exists b, 0 <= b <= 9 /\
       (Str.decimal y = String (Str.digit_char a) (String (Str.digit_char b) "") \/
        exists c, 0 <= c <= 9 /\
          Str.decimal y = String (Str.digit_char a)
                            (String (Str.digit_char b) (String (Str.digit_char c) "")))).
Proof.
  intros Hy. unfold Str.decimal, Str.pad2.
  assert (H2 : 0 <= y / 100 mod 10 <= 9) by (pose proof (Z.mod_pos_bound (y / 100) 10); lia).
  assert (H1 : 0 <= y / 10 mod 10 <= 9) by (pose proof (Z.mod_pos_bound (y / 10) 10); lia).
  assert (H0 : 0 <= y mod 10 <= 9) by (pose proof (Z.mod_pos_bound y 10); lia).
  destruct (Z.ltb_spec y 10); [exists y; split; [lia|now left]|].
  destruct (Z.ltb_spec y 100).
  { exists (y / 10 mod 10). split; [lia|]. right. exists (y mod 10). split; [lia|now left]. }
  destruct (Z.ltb_spec y 1000); [|lia].
  exists (y / 100 mod 10). split; [lia|]. right. exists (y / 10 mod 10). split; [lia|].
  right. exists (y mod 10). split; [lia|reflexivity].
Qed.

(** *** [strptime] reads back what [strftime] wrote *)

Lemma match_format_head dv fmt f s f1 r1 tl1 f2 r2 :
  match_directive dv f s = (f1, r1) :: tl1 ->
  (exists tl2, match_format fmt f1 r1 = (f2, r2) :: tl2) ->
  exists tl, match_format (dv :: fmt) f s = (f2, r2) :: tl.
Proof.
  intros Hd (tl2 & Hf). cbn [match_format]. rewrite Hd. cbn [flat_map]. rewrite Hf.
  cbn [app]. eauto.
Qed.

Lemma match_year f y rest :
  0 <= y <= 9999 ->
  match_directive DY f (Str.pad4 y ++ rest) =
  [(mkfields (f_d f) (f_m f) y (f_H f) (f_M f) (f_S f), rest)].
Proof.
  intros Hy. unfold Str.pad4, Str.pad2.
  assert (H3 : 0 <= y / 1000 mod 10 <= 9) by (pose proof (Z.mod_pos_bound (y / 1000) 10); lia).
  assert (H2 : 0 <= y / 100 mod 10 <= 9) by (pose proof (Z.mod_pos_bound (y / 100) 10); lia).
  assert (H1 : 0 <= y / 10 mod 10 <= 9) by (pose proof (Z.mod_pos_bound (y / 10) 10); lia).
  assert (H0 : 0 <= y mod 10 <= 9) by (pose proof (Z.mod_pos_bound y 10); lia).
  destruct (digit_char_digit _ H3) as (A3 & B3 & C3).
  destruct (digit_char_digit _ H2) as (A2 & B2 & C2).
  destruct (digit_char_digit _ H1) as (A1 & B1 & C1).
  destruct (digit_char_digit _ H0) as (A0 & B0 & C0).
  norm_append.
  cbn [match_directive alternatives flat_map match_classes map app].
  rewrite A3, A2, A1, A0, B3, B2, B1, B0, C3, C2, C1, C0.
  cbn [map app]. do 3 f_equal.
  clear -Hy. Z.to_euclidean_division_equations. lia.
Qed.

(** What follows the digits of a year in a printed date: nothing, or the
    blank before the time. *)
Definition no_digit_ahead (rest : string) : bool :=
  match rest with
  | "" => true
  | String c _ => negb (d09 c)
  end.

Lemma match_classes_digit cls k s acc :
  0 <= k <= 9 ->
  match_classes (d09 :: cls) (String (Str.digit_char k) s) acc =
  match_classes cls s (10 * acc + k).
Proof.
  intros Hk. destruct (digit_char_digit k Hk) as (H1 & H2 & H3).
  cbn [match_classes]. now rewrite H1, H2, H3.
Qed.

(** [%Y] wants four digits: it does not read a shorter year. *)
Lemma match_year_short f y rest :
  0 <= y < 1000 -> no_digit_ahead rest = true ->
  match_directive DY f (Str.decimal y ++ rest) = [].
Proof.
  intros Hy Hrest.
  assert (Hstop : forall cls acc, match_classes (d09 :: cls) rest acc = []).
  { intros cls acc. destruct rest as [|c rest]; [reflexivity|].
    cbn [no_digit_ahead] in Hrest. apply negb_true_iff in Hrest.
    cbn [match_classes]. now rewrite Hrest. }
  destruct (decimal_short y Hy) as (a & Ha & [->|(b & Hb & [->|(c & Hc & ->)])]);
    norm_append; cbn [match_directive alternatives flat_map];
    rewrite !match_classes_digit by assumption; now rewrite Hstop.
Qed.

Lemma match_day f d rest :
  1 <= d <= 31 ->
  exists tl, match_directive Dd f (Str.pad2 d ++ rest) =
             (mkfields d (f_m f) (f_Y f) (f_H f) (f_M f) (f_S f), rest) :: tl.
Proof.
  intros Hd.
  assert (Hc : exists n : nat, d = Z.of_nat n /\ (1 <= n <= 31)%nat)
    by (exists (Z.to_nat d); lia).
  destruct Hc as (n & -> & Hn). unfold Str.pad2. norm_append.
  do 32 (destruct n as [|n]; [try lia; eexists; reflexivity|]). lia.
Qed.

Lemma match_month f m rest :
  1 <= m <= 12 ->
  exists tl, match_directive Dm f (Str.pad2 m ++ rest) =
             (mkfields (f_d f) m (f_Y f) (f_H f) (f_M f) (f_S f), rest) :: tl.
Proof.
  intros Hm.
  assert (Hc : exists n : nat, m = Z.of_nat n /\ (1 <= n <= 12)%nat)
    by (exists (Z.to_nat m); lia).
  destruct Hc as (n & -> & Hn). unfold Str.pad2. norm_append.
  do 13 (destruct n as [|n]; [try lia; eexists; reflexivity|]). lia.
Qed.

(** Evaluates the matches of a directive on two given digits and lets
    the literal that follows choose among them. *)
Ltac two_digits_dot :=
  cbn [match_format];
  match goal with
  | |- context [match_directive ?dv ?f (String ?a (String ?b ?r))] =>
      let v := eval vm_compute in (match_directive dv f (String a (String b r))) in
      change (match_directive dv f (String a (String b r))) with v
  end;
  cbn [flat_map match_directive Ascii.eqb Bool.eqb app]; rewrite ?app_nil_r.

(** A day or a month of two digits followed by the dot: the match that
    reads both digits is the only one the dot lets through. *)
Lemma match_day_dot f d fmt rest :
  1 <= d <= 31 ->
  match_format (Dd :: Lit "." :: fmt) f (Str.pad2 d ++ String "." rest) =
  match_format fmt (mkfields d (f_m f) (f_Y f) (f_H f) (f_M f) (f_S f)) rest.
Proof.
  intros Hd.
  assert (Hc : exists n : nat, d = Z.of_nat n /\ (1 <= n <= 31)%nat)
    by (exists (Z.to_nat d); lia).
  destruct Hc as (n & -> & Hn). unfold Str.pad2. norm_append.
  do 32 (destruct n as [|n]; [try lia; now two_digits_dot|]).
  lia.
Qed.

Lemma match_month_dot f m fmt rest :
  1 <= m <= 12 ->
  match_format (Dm :: Lit "." :: fmt) f (Str.pad2 m ++ String "." rest) =
  match_format fmt (mkfields (f_d f) m (f_Y f) (f_H f) (f_M f) (f_S f)) rest.
Proof.
  intros Hm.
  assert (Hc : exists n : nat, m = Z.of_nat n /\ (1 <= n <= 12)%nat)
    by (exists (Z.to_nat m); lia).
  destruct Hc as (n & -> & Hn). unfold Str.pad2. norm_append.
  do 13 (destruct n as [|n]; [try lia; now two_digits_dot|]).
  lia.
Qed.

Lemma days_in_month_bounds y m : 28 <= days_in_month y m <= 31.
Proof.
  unfold days_in_month. destruct (m =? 2); [destruct (is_leap y); lia|].
  destruct (_ || _); lia.
Qed.

Lemma valid_date_bounds y m d :
  valid_date y m d = true ->
  1 <= y <= 9999 /\ 1 <= m <= 12 /\ 1 <= d <= days_in_month y m /\ d <= 31.
Proof.
  unfold valid_date, MINYEAR, MAXYEAR. rewrite !andb_true_iff, !Z.leb_le.
  pose proof (days_in_month_bounds y m). lia.
Qed.

(** The directives of a date on a printed date, whatever follows the
    year. *)
Lemma match_date_year dt fmt rest :
  valid_date (year dt) (month dt) (day dt) = true ->
  match_format (fmt_dmY ++ fmt)%list fields0 (strftime_dmY dt ++ rest) =
  flat_map (fun '(f, r) => match_format fmt f r)
    (match_directive DY (mkfields (day dt) (month dt) 1900 0 0 0)
       (Str.decimal (year dt) ++ rest)).
Proof.
  intros Hv. destruct (valid_date_bounds _ _ _ Hv) as (Hy & Hm & Hd & Hd').
  unfold strftime_dmY, fmt_dmY. cbn [app].
  replace ((Str.pad2 (day dt) ++ "." ++ Str.pad2 (month dt) ++ "." ++
            Str.decimal (year dt)) ++ rest)
    with (Str.pad2 (day dt) ++ String "." (Str.pad2 (month dt) ++
            String "." (Str.decimal (year dt) ++ rest))).
  2: { unfold Str.pad2. now norm_append. }
  rewrite match_day_dot by lia. cbn [fields0 f_d f_m f_Y f_H f_M f_S].
  rewrite match_month_dot by lia. reflexivity.
Qed.

Lemma strptime_strftime_dmY dt :
  valid_date (year dt) (month dt) (day dt) = true -> 1000 <= year dt ->
  strptime (strftime_dmY dt) fmt_dmY =
  Ok (mkdt (year dt) (month dt) (day dt) 0 0 0 0).
Proof.
  intros Hv Hy. destruct (valid_date_bounds _ _ _ Hv) as (Hy' & _).
  unfold strptime.
  rewrite <- (append_nil_r (strftime_dmY dt)), <- (app_nil_r fmt_dmY).
  rewrite match_date_year by assumption.
  rewrite decimal_four, match_year by lia. cbn [flat_map match_format app].
  cbn [f_d f_m f_Y f_H f_M f_S]. unfold valid.
  cbn [year month day hour minute second microsecond].
  rewrite Hv. reflexivity.
Qed.

(** A date of a year before 1000 is printed with a year [strptime] does
    not read. *)
Lemma strptime_short_year dt fmt rest :
  valid_date (year dt) (month dt) (day dt) = true -> year dt < 1000 ->
  no_digit_ahead rest = true ->
  strptime (strftime_dmY dt ++ rest) (fmt_dmY ++ fmt)%list = Raise ValueError.
Proof.
  intros Hv Hy Hrest. destruct (valid_date_bounds _ _ _ Hv) as (Hy' & _).
  unfold strptime. rewrite match_date_year by assumption.
  rewrite match_year_short by (assumption || lia). reflexivity.
Qed.

End DatetimeFacts.

Module ShiftsSpec.
Import Datetime Shifts DatetimeFacts.

(** A datetime as a number: an order-preserving numbering of the valid
    datetimes. *)
Definition stamp (dt : datetime) : Z :=
  (((((year dt * 13 + month dt) * 32 + day dt) * 24 + hour dt) * 60
    + minute dt) * 60 + second dt) * 1000000 + microsecond dt.

(** The day of [dt] at [h:mi]. *)
Definition at_time (dt : datetime) (h mi : Z) : datetime :=
  mkdt (year dt) (month dt) (day dt) h mi 0 0.

Definition time_val (dt : datetime) : Z := hour dt * 60 + minute dt.

(** The key and the boundaries of the shift that holds [c], as the loop
    body computes them: the day before [c] may not exist, the key of a
    day of a year before 1000 is not read back, and the day after [c]
    may not exist, in this order. *)
Definition shift_of (c : datetime) : result (string * (datetime * datetime)) :=
  if (450 <=? time_val c) && (time_val c <? 1170) then
    if year c <? 1000 then Raise ValueError
    else Ok (strftime_dmY c ++ "_morning", (at_time c 7 30, at_time c 19 30))
  else if time_val c <? 450 then
    let '(y, m, d) := prev_date (year c) (month c) (day c) in
    if MINYEAR <=? y
    then if y <? 1000 then Raise ValueError
         else Ok (strftime_dmY (mkdt y m d 0 0 0 0) ++ "_evening",
                  (mkdt y m d 19 30 0 0, at_time c 7 30))
    else Raise OverflowError
  else
    if year c <? 1000 then Raise ValueError
    else
      let '(y, m, d) := next_date (year c) (month c) (day c) in
      if y <=? MAXYEAR
      then Ok (strftime_dmY c ++ "_evening", (at_time c 19 30, mkdt y m d 7 30 0 0))
      else Raise OverflowError.

(** The day part of [stamp] and of [slot]. *)
Definition day_stamp (y m d : Z) : Z := (y * 13 + m) * 32 + d.
Definition day_slot (y m d : Z) : Z := (y * 12 + (m - 1)) * 31 + (d - 1).

(** The first and the last instant a period may touch: before
    [01.01.0001 07:30] the evening shift of the day before has no date,
    after [31.12.9999 19:30] the end of the evening shift has none. *)
Definition FIRST : datetime := mkdt 1 1 1 7 30 0 0.
Definition LAST : datetime := mkdt 9999 12 31 19 30 0 0.

(** The first instant whose shift has a key that is read back: the
    morning of [01.01.1000], the first day printed with four digits. *)
Definition FIRST_KEYED : datetime := mkdt 1000 1 1 7 30 0 0.

(** [s] is the shift of a period clipped to [a, b). *)
Record clipped (a b : datetime) (s : shift) : Prop := {
  clipped_from : actual_from s = a;
  clipped_to : actual_to s = b;
  clipped_valid_from : valid a = true;
  clipped_valid_to : valid b = true;
  clipped_nonempty : stamp a < stamp b;
  clipped_start : stamp (from_dt s) <= stamp a;
  clipped_end : stamp b <= stamp (to_dt s);
  clipped_valid_start : valid (from_dt s) = true;
  clipped_valid_end : valid (to_dt s) = true
}.

(** The shifts tile [a, b): each starts where the one before ends. *)
Inductive tiling : datetime -> datetime -> list shift -> Prop :=
| tiling_one a b s : clipped a b s -> tiling a b [s]
| tiling_cons a m b s l : clipped a m s -> tiling m b l -> tiling a b (s :: l).

(** [t] lies in the clipped window of [s]. *)
Definition in_window (s : shift) (t : datetime) : Prop :=
  leb (actual_from s) t = true /\ ltb t (actual_to s) = true.

(** *** The order of datetimes *)

Lemma valid_bounds dt :
  valid dt = true ->
  1 <= year dt <= 9999 /\ 1 <= month dt <= 12 /\
  1 <= day dt <= days_in_month (year dt) (month dt) /\ day dt <= 31 /\
  0 <= hour dt < 24 /\ 0 <= minute dt < 60 /\ 0 <= second dt < 60 /\
  0 <= microsecond dt < 1000000.
Proof.
  unfold valid, valid_time. rewrite !andb_true_iff, !Z.leb_le, !Z.ltb_lt.
  intros (Hd & ?). apply valid_date_bounds in Hd. lia.
Qed.

Lemma compare_stamp a b :
  valid a = true -> valid b = true -> compare a b = (stamp a ?= stamp b).
Proof.
  intros Ha Hb. apply valid_bounds in Ha, Hb. unfold compare, lex, stamp.
  symmetry.
  destruct (Z.compare_spec (year a) (year b));
    [|apply Z.compare_lt_iff; nia|apply Z.compare_gt_iff; nia].
  destruct (Z.compare_spec (month a) (month b));
    [|apply Z.compare_lt_iff; nia|apply Z.compare_gt_iff; nia].
  destruct (Z.compare_spec (day a) (day b));
    [|apply Z.compare_lt_iff; nia|apply Z.compare_gt_iff; nia].
  destruct (Z.compare_spec (hour a) (hour b));
    [|apply Z.compare_lt_iff; nia|apply Z.compare_gt_iff; nia].
  destruct (Z.compare_spec (minute a) (minute b));
    [|apply Z.compare_lt_iff; nia|apply Z.compare_gt_iff; nia].
  destruct (Z.compare_spec (second a) (second b));
    [|apply Z.compare_lt_iff; nia|apply Z.compare_gt_iff; nia].
  destruct (Z.compare_spec (microsecond a) (microsecond b));
    [apply Z.compare_eq_iff|apply Z.compare_lt_iff|apply Z.compare_gt_iff]; nia.
Qed.

Lemma ltb_stamp a b :
  valid a = true -> valid b = true -> ltb a b = (stamp a <? stamp b).
Proof. intros Ha Hb. unfold ltb, Z.ltb. now rewrite compare_stamp. Qed.

Lemma leb_stamp a b :
  valid a = true -> valid b = true -> leb a b = (stamp a <=? stamp b).
Proof. intros Ha Hb. unfold leb, Z.leb. now rewrite compare_stamp. Qed.

Lemma stamp_inj a b :
  valid a = true -> valid b = true -> stamp a = stamp b -> a = b.
Proof.
  intros Ha Hb Hs. apply valid_bounds in Ha, Hb. unfold stamp in Hs.
  destruct a as [y1 m1 d1 h1 mi1 s1 u1], b as [y2 m2 d2 h2 mi2 s2 u2]. cbn in *.
  assert (u1 = u2) by lia. assert (s1 = s2) by lia.
  assert (mi1 = mi2) by lia. assert (h1 = h2) by lia.
  assert (d1 = d2) by lia. assert (m1 = m2) by lia.
  assert (y1 = y2) by lia. congruence.
Qed.

(** *** The shift of a datetime *)

Lemma rsplit1_suffix s ty :
  Str.rsplit1 "_" ty = (ty, None) ->
  Str.rsplit1 "_" (s ++ String "_" ty) = (s, Some ty).
Proof.
  intros Hty. induction s as [|c s IH].
  - rewrite append_nil. cbn [Str.rsplit1]. rewrite Hty. reflexivity.
  - rewrite append_cons. cbn [Str.rsplit1]. rewrite IH. reflexivity.
Qed.

Lemma next_date_valid y m d :
  valid_date y m d = true ->
  let '(y', m', d') := next_date y m d in
  y' <= MAXYEAR -> valid_date y' m' d' = true.
Proof.
  intros Hv. pose proof (valid_date_bounds _ _ _ Hv) as (Hy & Hm & Hd & _).
  unfold next_date, MAXYEAR.
  destruct (Z.ltb_spec d (days_in_month y m)).
  - intros _. unfold valid_date, MINYEAR, MAXYEAR.
    rewrite !andb_true_iff, !Z.leb_le. lia.
  - destruct (Z.ltb_spec m 12); intros Hy'; unfold valid_date, MINYEAR, MAXYEAR;
      rewrite !andb_true_iff, !Z.leb_le;
      pose proof (days_in_month_bounds y (m + 1));
      pose proof (days_in_month_bounds (y + 1) 1); lia.
Qed.

Lemma prev_date_valid y m d :
  valid_date y m d = true ->
  let '(y', m', d') := prev_date y m d in
  MINYEAR <= y' -> valid_date y' m' d' = true.
Proof.
  intros Hv. pose proof (valid_date_bounds _ _ _ Hv) as (Hy & Hm & Hd & _).
  unfold prev_date, MINYEAR.
  destruct (Z.ltb_spec 1 d).
  - intros _. unfold valid_date, MINYEAR, MAXYEAR.
    rewrite !andb_true_iff, !Z.leb_le. lia.
  - destruct (Z.ltb_spec 1 m); intros Hy'; unfold valid_date, MINYEAR, MAXYEAR;
      rewrite !andb_true_iff, !Z.leb_le;
      pose proof (days_in_month_bounds y (m - 1)); [lia|].
    assert (days_in_month (y - 1) 12 = 31) by reflexivity. lia.
Qed.

Lemma next_prev_date y m d :
  valid_date y m d = true ->
  let '(y', m', d') := prev_date y m d in next_date y' m' d' = (y, m, d).
Proof.
  intros Hv. pose proof (valid_date_bounds _ _ _ Hv) as (Hy & Hm & Hd & _).
  unfold prev_date. destruct (Z.ltb_spec 1 d).
  - unfold next_date. destruct (Z.ltb_spec (d - 1) (days_in_month y m)); [|lia].
    f_equal. f_equal. lia.
  - destruct (Z.ltb_spec 1 m).
    + unfold next_date. rewrite Z.ltb_irrefl.
      destruct (Z.ltb_spec (m - 1) 12); [|lia]. repeat f_equal; lia.
    + unfold next_date. assert (days_in_month (y - 1) 12 = 31) as -> by reflexivity.
      cbn. repeat f_equal; lia.
Qed.

Lemma boundaries_morning dt :
  valid_date (year dt) (month dt) (day dt) = true -> 1000 <= year dt ->
  get_shift_boundaries (strftime_dmY dt ++ "_morning") =
  Ok (at_time dt 7 30, at_time dt 19 30).
Proof.
  intros Hv Hy. unfold get_shift_boundaries.
  change (strftime_dmY dt ++ "_morning") with (strftime_dmY dt ++ String "_" "morning").
  rewrite rsplit1_suffix by reflexivity.
  rewrite strptime_strftime_dmY by assumption.
  cbn [mbind result_bind]. change ("morning" =? "morning")%string with true.
  cbn match. unfold replace_hm, valid, MORNING_START, MORNING_END.
  cbn [year month day hour minute second microsecond fst snd].
  rewrite Hv. reflexivity.
Qed.

Lemma boundaries_evening dt :
  valid_date (year dt) (month dt) (day dt) = true -> 1000 <= year dt ->
  get_shift_boundaries (strftime_dmY dt ++ "_evening") =
  let '(y, m, d) := next_date (year dt) (month dt) (day dt) in
  if y <=? MAXYEAR
  then Ok (at_time dt 19 30, mkdt y m d 7 30 0 0)
  else Raise OverflowError.
Proof.
  intros Hv Hy. unfold get_shift_boundaries.
  change (strftime_dmY dt ++ "_evening") with (strftime_dmY dt ++ String "_" "evening").
  rewrite rsplit1_suffix by reflexivity.
  rewrite strptime_strftime_dmY by assumption.
  cbn [mbind result_bind]. change ("evening" =? "morning")%string with false.
  cbn match. unfold replace_hm, valid, add_day, EVENING_START, EVENING_END.
  cbn [year month day hour minute second microsecond fst snd].
  rewrite Hv. cbn [andb valid_time mbind result_bind].
  pose proof (next_date_valid _ _ _ Hv) as Hn.
  destruct (next_date (year dt) (month dt) (day dt)) as [[y m] d].
  destruct (Z.leb_spec y MAXYEAR) as [Hmax|Hmax]; [|reflexivity].
  cbn [mbind result_bind year month day hour minute second microsecond].
  rewrite Hn by assumption. reflexivity.
Qed.

(** The key of a day of a year before 1000 is refused. *)
Lemma boundaries_short_year dt shift_type :
  valid_date (year dt) (month dt) (day dt) = true -> year dt < 1000 ->
  Str.rsplit1 "_" shift_type = (shift_type, None) ->
  get_shift_boundaries (strftime_dmY dt ++ "_" ++ shift_type) = Raise ValueError.
Proof.
  intros Hv Hy Hty. unfold get_shift_boundaries.
  change ("_" ++ shift_type) with (String "_" shift_type).
  rewrite rsplit1_suffix by assumption.
  pose proof (strptime_short_year dt [] "" Hv Hy eq_refl) as Hp.
  rewrite append_nil_r, app_nil_r in Hp. now rewrite Hp.
Qed.

Lemma valid_date_of dt : valid dt = true -> valid_date (year dt) (month dt) (day dt) = true.
Proof. unfold valid. now intros (? & _)%andb_true_iff. Qed.

Lemma shift_of_spec c :
  valid c = true ->
  (shift_key ← get_shift_key c (get_shift_type c);
   bounds ← get_shift_boundaries shift_key;
   Ok (shift_key, bounds)) = shift_of c.
Proof.
  intros Hv. pose proof (valid_bounds c Hv) as Hb.
  pose proof (valid_date_of c Hv) as Hd.
  unfold shift_of, get_shift_type, get_shift_key, format_date, MORNING_START, MORNING_END.
  cbn [fst snd]. change (7 * 60 + 30) with 450. change (19 * 60 + 30) with 1170.
  fold (time_val c).
  destruct ((450 <=? time_val c) && (time_val c <? 1170)) eqn:Hm.
  - change ("morning" =? "evening")%string with false. cbn [mbind result_bind].
    destruct (Z.ltb_spec (year c) 1000) as [Hy|Hy].
    + now rewrite boundaries_short_year.
    + change ("_" ++ "morning") with "_morning". now rewrite boundaries_morning.
  - change ("evening" =? "evening")%string with true.
    assert (Hearly : (hour c <? 7) || (hour c =? 7) && (minute c <? 30)
                     = (time_val c <? 450)).
    { unfold time_val. destruct (Z.ltb_spec (hour c * 60 + minute c) 450);
        destruct (Z.ltb_spec (hour c) 7); destruct (Z.eqb_spec (hour c) 7);
        destruct (Z.ltb_spec (minute c) 30); cbn; lia. }
    rewrite Hearly. destruct (time_val c <? 450) eqn:He.
    + unfold sub_day. pose proof (prev_date_valid _ _ _ Hd) as Hp.
      pose proof (next_prev_date _ _ _ Hd) as Hnp.
      destruct (prev_date (year c) (month c) (day c)) as [[y m] d].
      destruct (Z.leb_spec MINYEAR y) as [Hmin|Hmin]; [|reflexivity].
      cbn [mbind result_bind]. specialize (Hp Hmin).
      change (strftime_dmY {| year := y; month := m; day := d; hour := hour c;
                minute := minute c; second := second c;
                microsecond := microsecond c |})
        with (strftime_dmY (mkdt y m d 0 0 0 0)).
      destruct (Z.ltb_spec y 1000) as [Hy|Hy].
      * now rewrite (boundaries_short_year (mkdt y m d 0 0 0 0)).
      * change ("_" ++ "evening") with "_evening".
        rewrite (boundaries_evening (mkdt y m d 0 0 0 0)) by assumption.
        cbn [year month day]. rewrite Hnp.
        destruct (Z.leb_spec (year c) MAXYEAR); [reflexivity|unfold MAXYEAR in *; lia].
    + cbn [mbind result_bind].
      destruct (Z.ltb_spec (year c) 1000) as [Hy|Hy].
      * now rewrite boundaries_short_year.
      * change ("_" ++ "evening") with "_evening".
        rewrite boundaries_evening by assumption.
        destruct (next_date (year c) (month c) (day c)) as [[y m] d].
        now destruct (y <=? MAXYEAR).
Qed.

(** *** One iteration moves forward *)

Lemma next_date_later y m d :
  valid_date y m d = true ->
  let '(y', m', d') := next_date y m d in
  day_stamp y m d < day_stamp y' m' d' /\ day_slot y m d < day_slot y' m' d'.
Proof.
  intros Hv. pose proof (valid_date_bounds _ _ _ Hv) as (Hy & Hm & Hd & Hd').
  unfold next_date, day_stamp, day_slot.
  destruct (Z.ltb_spec d (days_in_month y m)); [lia|].
  destruct (Z.ltb_spec m 12); lia.
Qed.

Lemma prev_date_earlier y m d :
  valid_date y m d = true ->
  let '(y', m', d') := prev_date y m d in
  day_stamp y' m' d' < day_stamp y m d /\ day_slot y' m' d' < day_slot y m d.
Proof.
  intros Hv. pose proof (valid_date_bounds _ _ _ Hv) as (Hy & Hm & Hd & Hd').
  unfold prev_date, day_stamp, day_slot.
  destruct (Z.ltb_spec 1 d); [lia|].
  pose proof (days_in_month_bounds y (m - 1)).
  destruct (Z.ltb_spec 1 m); lia.
Qed.

Lemma valid_at y m d h mi :
  valid_date y m d = true -> 0 <= h < 24 -> 0 <= mi < 60 ->
  valid (mkdt y m d h mi 0 0) = true.
Proof.
  intros Hv Hh Hmi. unfold valid, valid_time.
  cbn [year month day hour minute second microsecond]. rewrite Hv.
  rewrite !andb_true_iff, !Z.leb_le, !Z.ltb_lt. lia.
Qed.

Lemma stamp_eq dt :
  stamp dt = ((day_stamp (year dt) (month dt) (day dt) * 1440 + time_val dt) * 60
              + second dt) * 1000000 + microsecond dt.
Proof. unfold stamp, day_stamp, time_val. lia. Qed.

Lemma time_val_mk y m d h mi s u : time_val (mkdt y m d h mi s u) = h * 60 + mi.
Proof. reflexivity. Qed.

Ltac norm_times :=
  change (7 * 60 + 30) with 450; change (19 * 60 + 30) with 1170;
  change (450 <? 450) with false; change (450 <? 1170) with true;
  change (1170 <? 450) with false; change (1170 <? 1170) with false;
  cbv iota.

Lemma slot_eq dt :
  slot dt = 2 * day_slot (year dt) (month dt) (day dt) +
            (if time_val dt <? 450 then 0 else if time_val dt <? 1170 then 1 else 2).
Proof. reflexivity. Qed.

Lemma shift_of_ok c key s e :
  valid c = true -> shift_of c = Ok (key, (s, e)) ->
  valid s = true /\ valid e = true /\
  stamp s <= stamp c < stamp e /\ slot c < slot e.
Proof.
  intros Hv. pose proof (valid_bounds c Hv) as Hb.
  pose proof (valid_date_of c Hv) as Hd.
  assert (Htv : 0 <= time_val c < 1440) by (unfold time_val; lia).
  unfold shift_of.
  destruct (Z.leb_spec 450 (time_val c)) as [H1|H1];
    [destruct (Z.ltb_spec (time_val c) 1170) as [H2|H2]|]; cbn [andb].
  - destruct (year c <? 1000); [discriminate|].
    intros [= <- <- <-]. split; [now apply valid_at|]. split; [now apply valid_at|].
    rewrite !stamp_eq, !slot_eq. unfold at_time.
    cbn [year month day hour minute second microsecond]. rewrite !time_val_mk.
    destruct (Z.ltb_spec (time_val c) 450); [lia|].
    destruct (Z.ltb_spec (time_val c) 1170); [|lia]. norm_times. lia.
  - destruct (Z.ltb_spec (time_val c) 450); [lia|].
    destruct (year c <? 1000); [discriminate|].
    pose proof (next_date_valid _ _ _ Hd) as Hn.
    pose proof (next_date_later _ _ _ Hd) as Hl.
    destruct (next_date (year c) (month c) (day c)) as [[y m] d].
    destruct (Z.leb_spec y MAXYEAR) as [Hy|Hy]; [|discriminate].
    intros [= <- <- <-]. split; [now apply valid_at|].
    split; [apply valid_at; auto; lia|].
    rewrite !stamp_eq, !slot_eq. unfold at_time.
    cbn [year month day hour minute second microsecond]. rewrite !time_val_mk.
    destruct (Z.ltb_spec (time_val c) 450); [lia|].
    destruct (Z.ltb_spec (time_val c) 1170); [lia|]. norm_times. lia.
  - destruct (Z.ltb_spec (time_val c) 450); [|lia].
    pose proof (prev_date_valid _ _ _ Hd) as Hp.
    pose proof (prev_date_earlier _ _ _ Hd) as Hl.
    destruct (prev_date (year c) (month c) (day c)) as [[y m] d].
    destruct (Z.leb_spec MINYEAR y) as [Hy|Hy]; [|discriminate].
    destruct (y <? 1000); [discriminate|].
    intros [= <- <- <-]. split; [apply valid_at; auto; lia|].
    split; [now apply valid_at|].
    rewrite !stamp_eq, !slot_eq. unfold at_time.
    cbn [year month day hour minute second microsecond]. rewrite !time_val_mk.
    destruct (Z.ltb_spec (time_val c) 450); [|lia]. norm_times. lia.
Qed.

Lemma stamp_FIRST : stamp FIRST = ((((1 * 13 + 1) * 32 + 1) * 1440 + 450) * 60) * 1000000.
Proof. reflexivity. Qed.

Lemma stamp_FIRST_KEYED :
  stamp FIRST_KEYED = ((((1000 * 13 + 1) * 32 + 1) * 1440 + 450) * 60) * 1000000.
Proof. reflexivity. Qed.

Lemma stamp_LAST :
  stamp LAST = ((((9999 * 13 + 12) * 32 + 31) * 1440 + 1170) * 60) * 1000000.
Proof. reflexivity. Qed.

Lemma shift_of_in_range c :
  valid c = true -> stamp FIRST_KEYED <= stamp c -> stamp c < stamp LAST ->
  exists key s e, shift_of c = Ok (key, (s, e)).
Proof.
  intros Hv Hlo Hhi. pose proof (valid_bounds c Hv) as Hb.
  pose proof (valid_date_of c Hv) as Hd.
  rewrite (stamp_eq c) in Hlo, Hhi. unfold day_stamp in Hlo, Hhi.
  rewrite stamp_FIRST_KEYED in Hlo. rewrite stamp_LAST in Hhi.
  assert (Htv : 0 <= time_val c < 1440) by (unfold time_val; lia).
  assert (Hy : 1000 <= year c) by nia.
  unfold shift_of.
  destruct (Z.ltb_spec (year c) 1000) as [|_]; [lia|].
  destruct (Z.leb_spec 450 (time_val c)) as [H1|H1];
    [destruct (Z.ltb_spec (time_val c) 1170) as [H2|H2]|]; cbn [andb]; [eauto|..];
    destruct (Z.ltb_spec (time_val c) 450) as [He|He]; try lia.
  2: { unfold prev_date, MINYEAR.
    destruct (Z.ltb_spec 1 (day c)); [|destruct (Z.ltb_spec 1 (month c))].
    + destruct (Z.leb_spec 1 (year c)); [|lia].
      destruct (Z.ltb_spec (year c) 1000); [lia|eauto].
    + destruct (Z.leb_spec 1 (year c)); [|lia].
      destruct (Z.ltb_spec (year c) 1000); [lia|eauto].
    + destruct (Z.leb_spec 1 (year c - 1)); [|lia].
      destruct (Z.ltb_spec (year c - 1) 1000); [|eauto].
      assert (year c = 1000) by lia. assert (month c = 1) by lia.
      assert (day c = 1) by lia. nia. }
  - unfold next_date, MAXYEAR.
    pose proof (days_in_month_bounds (year c) (month c)).
    destruct (Z.ltb_spec (day c) (days_in_month (year c) (month c)));
      [|destruct (Z.ltb_spec (month c) 12)].
    + destruct (Z.leb_spec (year c) 9999); [eauto|lia].
    + destruct (Z.leb_spec (year c) 9999); [eauto|lia].
    + destruct (Z.leb_spec (year c + 1) 9999); [eauto|].
      assert (days_in_month (year c) 12 = 31) by reflexivity.
      assert (month c = 12) by lia.
      assert (day c = 31) by (replace (month c) with 12 in * by lia; lia).
      lia.
Qed.

Lemma slot_mono a b :
  valid a = true -> valid b = true -> stamp a <= stamp b -> slot a <= slot b.
Proof.
  intros Ha Hb. pose proof (valid_bounds a Ha). pose proof (valid_bounds b Hb).
  rewrite !stamp_eq, !slot_eq. unfold day_stamp, day_slot.
  assert (0 <= time_val a < 1440) by (unfold time_val; lia).
  assert (0 <= time_val b < 1440) by (unfold time_val; lia).
  intros Hs.
  destruct (Z.ltb_spec (time_val a) 450); destruct (Z.ltb_spec (time_val a) 1170);
    destruct (Z.ltb_spec (time_val b) 450); destruct (Z.ltb_spec (time_val b) 1170);
    try lia;
    destruct (Z.compare_spec (year a) (year b));
    destruct (Z.compare_spec (month a) (month b));
    destruct (Z.compare_spec (day a) (day b)); lia.
Qed.

(** *** The loop *)

Lemma split_loop_tiling to_dt :
  valid to_dt = true -> stamp to_dt <= stamp LAST ->
  forall fuel c acc,
    valid c = true -> stamp FIRST_KEYED <= stamp c -> stamp c < stamp to_dt ->
    slot to_dt - slot c + 2 <= Z.of_nat fuel ->
    exists l, split_loop fuel c to_dt acc = Some (Ok (acc ++ l)%list) /\ tiling c to_dt l.
Proof.
  intros Hto Hlast.
  induction fuel as [|fuel IH]; intros c acc Hc Hfirst Hlt Hfuel.
  { pose proof (slot_mono c to_dt Hc Hto). lia. }
  cbn [split_loop]. rewrite (ltb_stamp c to_dt Hc Hto).
  destruct (Z.ltb_spec (stamp c) (stamp to_dt)) as [_|]; [|lia]. cbn [negb].
  rewrite (shift_of_spec c Hc).
  destruct (shift_of_in_range c Hc Hfirst) as (k & s & e & Hs); [lia|].
  rewrite Hs. destruct (shift_of_ok c k s e Hc Hs) as (Hvs & Hve & Hse & Hslot).
  unfold max, min.
  rewrite (ltb_stamp c s Hc Hvs), (ltb_stamp e to_dt Hve Hto).
  destruct (Z.ltb_spec (stamp c) (stamp s)) as [|_]; [lia|].
  destruct (Z.ltb_spec (stamp e) (stamp to_dt)) as [He|He].
  - rewrite (ltb_stamp c e Hc Hve).
    destruct (Z.ltb_spec (stamp c) (stamp e)) as [_|]; [|lia].
    destruct (IH e (acc ++ [mkshift k (get_shift_label k) s e c e])%list)
      as (l & Hl & Ht); [assumption|lia|assumption|lia|].
    exists (mkshift k (get_shift_label k) s e c e :: l). split.
    + rewrite Hl, <- app_assoc. reflexivity.
    + eapply tiling_cons; [|exact Ht]. constructor; cbn; auto; lia.
  - rewrite (ltb_stamp c to_dt Hc Hto).
    destruct (Z.ltb_spec (stamp c) (stamp to_dt)) as [_|]; [|lia].
    exists [mkshift k (get_shift_label k) s e c to_dt]. split.
    + destruct fuel; cbn [split_loop]; rewrite (ltb_stamp e to_dt Hve Hto);
        destruct (Z.ltb_spec (stamp e) (stamp to_dt)); (lia || reflexivity).
    + apply tiling_one. constructor; cbn; auto; lia.
Qed.

(** The loop always ends within its bound, also when it raises. *)
Lemma split_loop_total to_dt :
  valid to_dt = true ->
  forall fuel c acc,
    valid c = true -> slot to_dt - slot c + 2 <= Z.of_nat fuel ->
    exists r, split_loop fuel c to_dt acc = Some r.
Proof.
  intros Hto. induction fuel as [|fuel IH]; intros c acc Hc Hfuel.
  - cbn [split_loop]. rewrite (ltb_stamp c to_dt Hc Hto).
    destruct (Z.ltb_spec (stamp c) (stamp to_dt)); cbn [negb]; [|eauto].
    pose proof (slot_mono c to_dt Hc Hto). lia.
  - cbn [split_loop]. rewrite (ltb_stamp c to_dt Hc Hto).
    destruct (Z.ltb_spec (stamp c) (stamp to_dt)); cbn [negb]; [|eauto].
    rewrite (shift_of_spec c Hc).
    destruct (shift_of c) as [[k [s e]]|err] eqn:Hs; [|eauto].
    destruct (shift_of_ok c k s e Hc Hs) as (Hvs & Hve & Hse & Hslot).
    apply IH; [assumption|lia].
Qed.

(** *** What a tiling says *)

Lemma tiling_lt a b l : tiling a b l -> stamp a < stamp b /\ valid a = true /\ valid b = true.
Proof.
  induction 1 as [a b s Hs | a m b s l Hs _ (IH & _ & Hb)].
  - destruct Hs; auto.
  - destruct Hs; split; [lia|auto].
Qed.

Lemma in_window_stamp a b s t :
  clipped a b s -> valid t = true ->
  in_window s t <-> stamp a <= stamp t < stamp b.
Proof.
  intros [Hf Ht Hva Hvb _ _ _ _ _] Hvt. unfold in_window. rewrite Hf, Ht.
  rewrite (leb_stamp a t Hva Hvt), (ltb_stamp t b Hvt Hvb), Z.leb_le, Z.ltb_lt.
  tauto.
Qed.

Lemma tiling_in a b l s t :
  tiling a b l -> In s l -> valid t = true -> in_window s t ->
  stamp a <= stamp t < stamp b.
Proof.
  induction 1 as [a b s0 Hs | a m b s0 l Hs Hl IH]; intros Hin Hvt Hw.
  - destruct Hin as [<- | []]. now apply (in_window_stamp a b s0 t Hs Hvt).
  - pose proof (tiling_lt _ _ _ Hl) as (Hmb & _).
    destruct Hin as [<- | Hin].
    + apply (in_window_stamp a m s0 t Hs Hvt) in Hw. lia.
    + specialize (IH Hin Hvt Hw). destruct Hs. lia.
Qed.

Lemma tiling_cover a b l t :
  tiling a b l -> valid t = true -> stamp a <= stamp t < stamp b ->
  exists s, In s l /\ in_window s t.
Proof.
  induction 1 as [a b s Hs | a m b s l Hs Hl IH]; intros Hvt Ht.
  - exists s. split; [now left|]. now apply (in_window_stamp a b s t Hs Hvt).
  - destruct (Z.lt_ge_cases (stamp t) (stamp m)) as [Hm | Hm].
    + exists s. split; [now left|]. apply (in_window_stamp a m s t Hs Hvt). lia.
    + destruct IH as (s' & Hin & Hw); [assumption|lia|].
      exists s'. split; [now right|exact Hw].
Qed.

Lemma tiling_lookup a b l i s :
  tiling a b l -> l !! i = Some s ->
  ltb (actual_from s) (actual_to s) = true /\
  leb (from_dt s) (actual_from s) = true /\ leb (actual_to s) (to_dt s) = true.
Proof.
  intros Ht. revert i. induction Ht as [a b s0 Hs | a m b s0 l Hs Hl IH]; intros i Hi.
  - destruct i; [|discriminate]. inversion Hi; subst s0. destruct Hs as [<- <- ? ? ? ? ? ? ?].
    rewrite ltb_stamp, !leb_stamp, Z.ltb_lt, !Z.leb_le by assumption. auto.
  - destruct i as [|i]; [|exact (IH i Hi)].
    inversion Hi; subst s0. destruct Hs as [<- <- ? ? ? ? ? ? ?].
    rewrite ltb_stamp, !leb_stamp, Z.ltb_lt, !Z.leb_le by assumption. auto.
Qed.

Lemma tiling_first a b l : tiling a b l -> exists s l', l = s :: l' /\ actual_from s = a.
Proof. destruct 1 as [a b s Hs | a m b s l Hs _]; destruct Hs; eauto. Qed.

Lemma tiling_last_to a b l : tiling a b l -> forall d, actual_to (List.last l d) = b.
Proof.
  induction 1 as [a b s Hs | a m b s l Hs Hl IH]; intros d.
  - now destruct Hs.
  - destruct (tiling_first _ _ _ Hl) as (s' & l' & -> & _). apply (IH d).
Qed.

Lemma tiling_adjacent a b l i s s' :
  tiling a b l -> l !! i = Some s -> l !! S i = Some s' ->
  actual_to s = actual_from s'.
Proof.
  intros Ht. revert i. induction Ht as [a b s0 Hs | a m b s0 l Hs Hl IH]; intros i Hi Hi'.
  - destruct i; discriminate.
  - destruct i as [|i].
    + inversion Hi; subst s0.
      destruct (tiling_first _ _ _ Hl) as (s1 & l' & -> & Hf).
      inversion Hi'; subst s1. destruct Hs. congruence.
    + exact (IH i Hi Hi').
Qed.

Lemma tiling_disjoint a b l : tiling a b l ->
  forall i j s s' t, valid t = true ->
    l !! i = Some s -> l !! j = Some s' -> in_window s t -> in_window s' t -> i = j.
Proof.
  induction 1 as [a b s0 Hs | a m b s0 l Hs Hl IH]; intros i j s s' t Hvt Hi Hj Hw Hw'.
  - destruct i, j; try discriminate; reflexivity.
  - destruct i as [|i], j as [|j]; [reflexivity|..].
    + inversion Hi; subst s0. apply (in_window_stamp a m s t Hs Hvt) in Hw.
      change (l !! j = Some s') in Hj.
      apply list_elem_of_lookup_2, list_elem_of_In in Hj.
      pose proof (tiling_in _ _ _ _ _ Hl Hj Hvt Hw'). lia.
    + inversion Hj; subst s0. apply (in_window_stamp a m s' t Hs Hvt) in Hw'.
      change (l !! i = Some s) in Hi.
      apply list_elem_of_lookup_2, list_elem_of_In in Hi.
      pose proof (tiling_in _ _ _ _ _ Hl Hi Hvt Hw). lia.
    + f_equal. exact (IH i j s s' t Hvt Hi Hj Hw Hw').
Qed.

(** *** Outside of [FIRST_KEYED, LAST] the splitter raises *)

Lemma day_stamp_bounds y m d :
  valid_date y m d = true -> day_stamp 1 1 1 <= day_stamp y m d <= day_stamp 9999 12 31.
Proof.
  intros Hv. pose proof (valid_date_bounds _ _ _ Hv). unfold day_stamp. lia.
Qed.

Lemma shift_of_before_first c :
  valid c = true -> stamp c < stamp FIRST -> shift_of c = Raise OverflowError.
Proof.
  intros Hv Hlo. pose proof (valid_bounds c Hv) as Hb.
  rewrite (stamp_eq c) in Hlo. unfold day_stamp in Hlo. rewrite stamp_FIRST in Hlo.
  assert (0 <= time_val c < 1440) by (unfold time_val; lia).
  assert (year c = 1) by lia. assert (month c = 1) by lia. assert (day c = 1) by lia.
  unfold shift_of.
  destruct (Z.leb_spec 450 (time_val c)); [lia|]. cbn [andb].
  destruct (Z.ltb_spec (time_val c) 450); [|lia].
  replace (year c) with 1 by lia. replace (month c) with 1 by lia.
  replace (day c) with 1 by lia. reflexivity.
Qed.

(** From [FIRST] on and before [FIRST_KEYED] the shift lies in a year
    before 1000. *)
Lemma shift_of_unkeyed c :
  valid c = true -> stamp FIRST <= stamp c -> stamp c < stamp FIRST_KEYED ->
  shift_of c = Raise ValueError.
Proof.
  intros Hv Hlo Hhi. pose proof (valid_bounds c Hv) as Hb.
  rewrite (stamp_eq c) in Hlo, Hhi. unfold day_stamp in Hlo, Hhi.
  rewrite stamp_FIRST in Hlo. rewrite stamp_FIRST_KEYED in Hhi.
  assert (Htv : 0 <= time_val c < 1440) by (unfold time_val; lia).
  assert (Hy : year c <= 1000) by nia.
  unfold shift_of.
  destruct (Z.leb_spec 450 (time_val c)) as [H1|H1];
    [destruct (Z.ltb_spec (time_val c) 1170) as [H2|H2]|]; cbn [andb].
  - destruct (Z.ltb_spec (year c) 1000); [reflexivity|nia].
  - destruct (Z.ltb_spec (time_val c) 450); [lia|].
    destruct (Z.ltb_spec (year c) 1000); [reflexivity|nia].
  - destruct (Z.ltb_spec (time_val c) 450); [|lia].
    unfold prev_date, MINYEAR.
    destruct (Z.ltb_spec 1 (day c)); [|destruct (Z.ltb_spec 1 (month c))].
    + destruct (Z.leb_spec 1 (year c)); [|lia].
      destruct (Z.ltb_spec (year c) 1000); [reflexivity|nia].
    + destruct (Z.leb_spec 1 (year c)); [|lia].
      destruct (Z.ltb_spec (year c) 1000); [reflexivity|nia].
    + destruct (Z.leb_spec 1 (year c - 1)); [|nia].
      destruct (Z.ltb_spec (year c - 1) 1000); [reflexivity|lia].
Qed.

Lemma shift_of_after_last c :
  valid c = true -> stamp LAST <= stamp c -> shift_of c = Raise OverflowError.
Proof.
  intros Hv Hhi. pose proof (valid_bounds c Hv) as Hb.
  rewrite (stamp_eq c) in Hhi. unfold day_stamp in Hhi. rewrite stamp_LAST in Hhi.
  assert (0 <= time_val c < 1440) by (unfold time_val; lia).
  assert (year c = 9999) by lia. assert (month c = 12) by lia.
  assert (day c = 31) by lia.
  unfold shift_of.
  destruct (Z.leb_spec 450 (time_val c)); [|lia].
  destruct (Z.ltb_spec (time_val c) 1170); [lia|]. cbn [andb].
  destruct (Z.ltb_spec (time_val c) 450); [lia|].
  replace (year c) with 9999 by lia. replace (month c) with 12 by lia.
  replace (day c) with 31 by lia. reflexivity.
Qed.

Lemma shift_end_before_last c key s e :
  valid c = true -> stamp c < stamp LAST -> shift_of c = Ok (key, (s, e)) ->
  stamp e <= stamp LAST.
Proof.
  intros Hv Hhi. pose proof (valid_bounds c Hv) as Hb.
  pose proof (valid_date_of c Hv) as Hd.
  pose proof (day_stamp_bounds _ _ _ Hd) as Hds.
  change (stamp LAST) with (((day_stamp 9999 12 31 * 1440 + 1170) * 60) * 1000000).
  unfold shift_of.
  destruct ((450 <=? time_val c) && (time_val c <? 1170)).
  - destruct (year c <? 1000); [discriminate|].
    intros [= <- <- <-]. rewrite stamp_eq. unfold at_time.
    cbn [year month day hour minute second microsecond]. rewrite time_val_mk. lia.
  - destruct (time_val c <? 450).
    + destruct (prev_date (year c) (month c) (day c)) as [[y m] d].
      destruct (MINYEAR <=? y); [|discriminate].
      destruct (y <? 1000); [discriminate|].
      intros [= <- <- <-]. rewrite stamp_eq. unfold at_time.
      cbn [year month day hour minute second microsecond]. rewrite time_val_mk. lia.
    + destruct (year c <? 1000); [discriminate|].
      pose proof (next_date_valid _ _ _ Hd) as Hn.
      destruct (next_date (year c) (month c) (day c)) as [[y m] d].
      destruct (Z.leb_spec y MAXYEAR); [|discriminate].
      intros [= <- <- <-]. rewrite stamp_eq.
      cbn [year month day hour minute second microsecond]. rewrite time_val_mk.
      pose proof (day_stamp_bounds _ _ _ (Hn ltac:(assumption))). lia.
Qed.

Lemma split_loop_past_last to_dt :
  valid to_dt = true -> stamp LAST < stamp to_dt ->
  forall fuel c acc,
    valid c = true -> stamp FIRST_KEYED <= stamp c -> stamp c < stamp to_dt ->
    slot to_dt - slot c + 2 <= Z.of_nat fuel ->
    split_loop fuel c to_dt acc = Some (Raise OverflowError).
Proof.
  intros Hto Hlast.
  induction fuel as [|fuel IH]; intros c acc Hc Hkeyed Hlt Hfuel.
  { pose proof (slot_mono c to_dt Hc Hto). lia. }
  cbn [split_loop]. rewrite (ltb_stamp c to_dt Hc Hto).
  destruct (Z.ltb_spec (stamp c) (stamp to_dt)) as [_|]; [|lia]. cbn [negb].
  rewrite (shift_of_spec c Hc).
  destruct (Z.lt_ge_cases (stamp c) (stamp LAST)) as [Hin | Hout].
  - destruct (shift_of_in_range c Hc Hkeyed Hin) as (k & s & e & Hs). rewrite Hs.
    destruct (shift_of_ok c k s e Hc Hs) as (Hvs & Hve & Hse & Hslot).
    pose proof (shift_end_before_last c k s e Hc Hin Hs).
    apply IH; [assumption|lia|lia|lia].
  - now rewrite (shift_of_after_last c Hc Hout).
Qed.

(** A first shift that has no key or no boundaries ends the call. *)
Lemma split_first_shift_raises from_dt to_dt e :
  valid from_dt = true -> valid to_dt = true -> stamp from_dt < stamp to_dt ->
  shift_of from_dt = Raise e ->
  split_period_into_shifts from_dt to_dt = Some (Raise e).
Proof.
  intros Hf Ht Hlt Hs. pose proof (slot_mono from_dt to_dt Hf Ht).
  unfold split_period_into_shifts, loop_bound.
  destruct (Z.to_nat (slot to_dt - slot from_dt + 2)) as [|fuel] eqn:Hfuel; [lia|].
  cbn [split_loop]. rewrite (ltb_stamp from_dt to_dt Hf Ht).
  destruct (Z.ltb_spec (stamp from_dt) (stamp to_dt)) as [_|]; [|lia]. cbn [negb].
  now rewrite (shift_of_spec from_dt Hf), Hs.
Qed.

(** What the splitter does with a period [from_dt < to_dt], by where the
    period lies. *)
Inductive split_outcome (from_dt to_dt : datetime) : Prop :=
| split_before_first :
    stamp from_dt < stamp FIRST ->
    split_period_into_shifts from_dt to_dt = Some (Raise OverflowError) ->
    split_outcome from_dt to_dt
| split_unkeyed :
    stamp FIRST <= stamp from_dt -> stamp from_dt < stamp FIRST_KEYED ->
    split_period_into_shifts from_dt to_dt = Some (Raise ValueError) ->
    split_outcome from_dt to_dt
| split_past_last :
    stamp FIRST_KEYED <= stamp from_dt -> stamp LAST < stamp to_dt ->
    split_period_into_shifts from_dt to_dt = Some (Raise OverflowError) ->
    split_outcome from_dt to_dt
| split_tiles shifts :
    stamp FIRST_KEYED <= stamp from_dt -> stamp to_dt <= stamp LAST ->
    split_period_into_shifts from_dt to_dt = Some (Ok shifts) ->
    tiling from_dt to_dt shifts ->
    split_outcome from_dt to_dt.

Lemma split_outcomes from_dt to_dt :
  valid from_dt = true -> valid to_dt = true -> stamp from_dt < stamp to_dt ->
  split_outcome from_dt to_dt.
Proof.
  intros Hf Ht Hlt. pose proof (slot_mono from_dt to_dt Hf Ht).
  destruct (Z.lt_ge_cases (stamp from_dt) (stamp FIRST)) as [Hbefore|Hfirst].
  { apply split_before_first; [assumption|].
    apply split_first_shift_raises; try assumption. now apply shift_of_before_first. }
  destruct (Z.lt_ge_cases (stamp from_dt) (stamp FIRST_KEYED)) as [Hshort|Hkeyed].
  { apply split_unkeyed; [assumption..|].
    apply split_first_shift_raises; try assumption. now apply shift_of_unkeyed. }
  destruct (Z.lt_ge_cases (stamp LAST) (stamp to_dt)) as [Hpast|Hlast].
  { apply split_past_last; [assumption..|].
    apply split_loop_past_last; try assumption. unfold loop_bound. lia. }
  destruct (split_loop_tiling to_dt Ht Hlast (loop_bound from_dt to_dt) from_dt []
              Hf Hkeyed Hlt) as (shifts & Hrun & Htile).
  { unfold loop_bound. lia. }
  now apply (split_tiles _ _ shifts).
Qed.

(** C1 (as amended).  For every pair of datetimes [from_dt < to_dt] with
    [FIRST_KEYED <= from_dt] and [to_dt <= LAST],
    [split_period_into_shifts] returns a non-empty list of shifts whose
    clipped windows [actual_from, actual_to) are non-empty, lie inside
    the shift they are clipped from, start at [from_dt], end at [to_dt],
    and follow one another without a gap (each starts where the one
    before ends); every instant of [from_dt, to_dt) lies in the window
    of a shift, every instant of a window lies in [from_dt, to_dt), and
    no instant lies in the windows of two shifts.  Outside of these
    bounds the splitter returns nothing: it raises [OverflowError] for a
    period that starts before [FIRST], [ValueError] for one that starts
    from [FIRST] on and before [FIRST_KEYED], and [OverflowError] for
    one that starts from [FIRST_KEYED] on and ends after [LAST]. *)
Theorem shifts_tile_the_period (from_dt to_dt : datetime) :
  valid from_dt = true -> valid to_dt = true ->
  ltb from_dt to_dt = true ->
  (leb FIRST_KEYED from_dt = true -> leb to_dt LAST = true ->
   exists shifts,
     split_period_into_shifts from_dt to_dt = Some (Ok shifts) /\
     (exists first rest, shifts = first :: rest /\ actual_from first = from_dt) /\
     (forall d, actual_to (List.last shifts d) = to_dt) /\
     (forall i s, shifts !! i = Some s ->
        ltb (actual_from s) (actual_to s) = true /\
        leb (Shifts.from_dt s) (actual_from s) = true /\
        leb (actual_to s) (Shifts.to_dt s) = true) /\
     (forall i s s', shifts !! i = Some s -> shifts !! S i = Some s' ->
        actual_to s = actual_from s') /\
     (forall t, valid t = true ->
        (leb from_dt t = true /\ ltb t to_dt = true <->
         exists s, In s shifts /\ in_window s t)) /\
     (forall i j s s' t, valid t = true ->
        shifts !! i = Some s -> shifts !! j = Some s' ->
        in_window s t -> in_window s' t -> i = j)) /\
  (ltb from_dt FIRST = true ->
   split_period_into_shifts from_dt to_dt = Some (Raise OverflowError)) /\
  (leb FIRST from_dt = true -> ltb from_dt FIRST_KEYED = true ->
   split_period_into_shifts from_dt to_dt = Some (Raise ValueError)) /\
  (leb FIRST_KEYED from_dt = true -> ltb LAST to_dt = true ->
   split_period_into_shifts from_dt to_dt = Some (Raise OverflowError)).
Proof.
  intros Hf Ht Hlt.
  assert (Hvf : valid FIRST = true) by reflexivity.
  assert (Hvk : valid FIRST_KEYED = true) by reflexivity.
  assert (Hvl : valid LAST = true) by reflexivity.
  rewrite !leb_stamp, !ltb_stamp, !Z.leb_le, !Z.ltb_lt in * by assumption.
  assert (Hfk : stamp FIRST < stamp FIRST_KEYED) by (rewrite stamp_FIRST, stamp_FIRST_KEYED; lia).
  destruct (split_outcomes from_dt to_dt Hf Ht Hlt)
    as [Hb Hrun|Hlo Hhi Hrun|Hlo Hhi Hrun|shifts Hlo Hhi Hrun Htile].
  1-3: repeat split; intros; (assumption || lia).
  split; [|repeat split; intros; lia].
  intros _ _. exists shifts. split; [exact Hrun|].
  split; [exact (tiling_first _ _ _ Htile)|].
  split; [exact (tiling_last_to _ _ _ Htile)|].
  split; [intros i s; exact (tiling_lookup _ _ _ i s Htile)|].
  split; [intros i s s'; exact (tiling_adjacent _ _ _ i s s' Htile)|].
  split; [|exact (tiling_disjoint _ _ _ Htile)].
  intros t Hvt. rewrite leb_stamp, ltb_stamp, Z.leb_le, Z.ltb_lt by assumption.
  split.
  - intros Hin. apply (tiling_cover _ _ _ t Htile Hvt). lia.
  - intros (s & Hin & Hw). pose proof (tiling_in _ _ _ s t Htile Hin Hvt Hw). lia.
Qed.

Lemma shifts_tile_the_period_witness :
  exists shifts,
    split_period_into_shifts (mkdt 2026 1 25 8 0 0 0) (mkdt 2026 1 26 8 0 0 0)
      = Some (Ok shifts) /\
    (forall d, actual_to (List.last shifts d) = mkdt 2026 1 26 8 0 0 0) /\
    (forall i s s', shifts !! i = Some s -> shifts !! S i = Some s' ->
       actual_to s = actual_from s').
Proof.
  destruct (shifts_tile_the_period (mkdt 2026 1 25 8 0 0 0) (mkdt 2026 1 26 8 0 0 0)
              eq_refl eq_refl eq_refl) as (Htile & _).
  destruct (Htile eq_refl eq_refl) as (shifts & Hrun & _ & Hlast & _ & Hadj & _).
  exists shifts. split; [exact Hrun|]. split; [exact Hlast | exact Hadj].
Defined.

(** C1 as stated fails at both ends of the calendar and for the years
    before 1000: for 31.12.9999 20:00 - 21:00 the end of the evening
    shift is past the last date, for 01.01.0001 03:00 - 21:00 the evening
    shift began before the first one, and the splitter raises
    [OverflowError]; for 05.06.0987 08:00 - 09:00 the key is printed
    [05.06.987_morning], which is not read back, and the splitter raises
    [ValueError].  No shifts are returned. *)
Lemma split_overflows_at_calendar_ends :
  (valid (mkdt 9999 12 31 20 0 0 0) = true /\ valid (mkdt 9999 12 31 21 0 0 0) = true /\
   ltb (mkdt 9999 12 31 20 0 0 0) (mkdt 9999 12 31 21 0 0 0) = true /\
   split_period_into_shifts (mkdt 9999 12 31 20 0 0 0) (mkdt 9999 12 31 21 0 0 0)
     = Some (Raise OverflowError)) /\
  (valid (mkdt 1 1 1 3 0 0 0) = true /\ valid (mkdt 1 1 1 21 0 0 0) = true /\
   ltb (mkdt 1 1 1 3 0 0 0) (mkdt 1 1 1 21 0 0 0) = true /\
   split_period_into_shifts (mkdt 1 1 1 3 0 0 0) (mkdt 1 1 1 21 0 0 0)
     = Some (Raise OverflowError)) /\
  (valid (mkdt 987 6 5 8 0 0 0) = true /\ valid (mkdt 987 6 5 9 0 0 0) = true /\
   ltb (mkdt 987 6 5 8 0 0 0) (mkdt 987 6 5 9 0 0 0) = true /\
   get_shift_key (mkdt 987 6 5 8 0 0 0) (get_shift_type (mkdt 987 6 5 8 0 0 0))
     = Ok "05.06.987_morning" /\
   split_period_into_shifts (mkdt 987 6 5 8 0 0 0) (mkdt 987 6 5 9 0 0 0)
     = Some (Raise ValueError)).
Proof. repeat split; vm_compute; reflexivity. Qed.

(** The splitter always returns or raises within the bound of its loop. *)
Lemma split_period_total from_dt to_dt :
  valid from_dt = true -> valid to_dt = true ->
  exists r, split_period_into_shifts from_dt to_dt = Some r.
Proof.
  intros Hf Ht. apply split_loop_total; [assumption..|].
  unfold loop_bound.
  destruct (Z.le_gt_cases (slot from_dt) (slot to_dt)); lia.
Qed.

(** C6.  Splitting 25.01.2026 08:00 - 26.01.2026 08:00 yields exactly
    three shifts: [25.01.2026_morning] clipped to [25.01 08:00, 25.01
    19:30), [25.01.2026_evening] clipped to [25.01 19:30, 26.01 07:30) and
    [26.01.2026_morning] clipped to [26.01 07:30, 26.01 08:00); the
    string version returns the same keys, labels and windows; and an
    instant of the small hours of 26.01 has the key of the evening shift
    of 25.01, the day on which that shift started. *)
Theorem split_example :
  (exists shifts,
     split_period_into_shifts (mkdt 2026 1 25 8 0 0 0) (mkdt 2026 1 26 8 0 0 0)
       = Some (Ok shifts) /\
     map (fun s => (key s, actual_from s, actual_to s)) shifts =
       [("25.01.2026_morning", mkdt 2026 1 25 8 0 0 0, mkdt 2026 1 25 19 30 0 0);
        ("25.01.2026_evening", mkdt 2026 1 25 19 30 0 0, mkdt 2026 1 26 7 30 0 0);
        ("26.01.2026_morning", mkdt 2026 1 26 7 30 0 0, mkdt 2026 1 26 8 0 0 0)]) /\
  split_period_into_shifts_str "25.01.2026 08:00" "26.01.2026 08:00" =
    Some (Ok [mkshift_str "25.01.2026_morning" "Утро 25.01" "25.01.2026 08:00" "25.01.2026 19:30";
              mkshift_str "25.01.2026_evening" "Вечер 25.01" "25.01.2026 19:30" "26.01.2026 07:30";
              mkshift_str "26.01.2026_morning" "Утро 26.01" "26.01.2026 07:30" "26.01.2026 08:00"]) /\
  get_shift_key (mkdt 2026 1 26 3 0 0 0) (get_shift_type (mkdt 2026 1 26 3 0 0 0))
    = Ok "25.01.2026_evening".
Proof.
  split; [|split]; [eexists; split|..]; vm_compute; reflexivity.
Qed.
End ShiftsSpec.

Module ClientSpec.
Import Py Client.

(** The responses with status 429. *)
Definition rate_limited (msgs : list string) : list response :=
  map (HTTPError 429) msgs.


(** The number of requests made in a trace. *)
Definition requests (tr : list event) : nat :=
  length (List.filter (fun e => match e with Request _ => true | Sleep _ => false end) tr).


(** A 429 below the cap: the client waits [10 * ordinal] seconds and asks
    again, and the attempt counter stays. *)
Lemma rate_limited_retry rc cmd msg rs a n le tr :
  a < rc -> n < max_rate_limit_retries ->
  request_loop rc cmd (HTTPError 429 msg :: rs) a n le tr =
  request_loop rc cmd rs a (n + 1) le
    (tr ++ [Request (a + 1); Sleep (10 * (n + 1))]).
Proof.
  intros Ha Hn. unfold max_rate_limit_retries in Hn. simpl.
  destruct (Z.ltb_spec a rc); [|lia]. simpl.
  unfold max_rate_limit_retries.
  destruct (Z.gtb_spec (n + 1) 5); [lia|].
  now rewrite <- app_assoc.
Qed.



(** The requests of a call are bounded: at most [retry_count] that count
    as attempts and [max_rate_limit_retries] that do not. *)
Lemma requests_app tr1 tr2 : requests (tr1 ++ tr2) = (requests tr1 + requests tr2)%nat.
Proof. unfold requests. now rewrite List.filter_app, length_app. Qed.





End ClientSpec.

Module InterleaverSpec.
Import Py Interleaver.

Section WithId.
Context {Id : Type} `{EqDecision Id}.
Implicit Types (tasks : list (task Id)) (gs : @groups Id) (vid : Id).
Implicit Types (gl : list (list (task Id))).

(** The dictionary that pairs every key of [ks] with its group. *)
Definition grouped tasks (ks : list Id) : groups :=
  map (fun vid => (vid, group_of tasks vid)) ks.

Definition heads (gl : list (list (task Id))) : list (task Id) :=
  flat_map (fun g => match g with [] => [] | t :: _ => [t] end) gl.

Definition at_round (g : list (task Id)) (k : nat) : list (task Id) :=
  match nth_error g k with Some t => [t] | None => [] end.

(** *** Grouping *)

Lemma first_appearance_in (ids : list Id) x :
  In x (first_appearance ids) <-> In x ids.
Proof.
  induction ids as [|a ids IH]; simpl; [tauto|].
  rewrite List.filter_In, IH, negb_true_iff, bool_decide_eq_false.
  destruct (decide (x = a)); [subst|]; intuition congruence.
Qed.

Lemma first_appearance_nodup (ids : list Id) : List.NoDup (first_appearance ids).
Proof.
  induction ids as [|a ids IH]; simpl; constructor.
  - rewrite List.filter_In, negb_true_iff, bool_decide_eq_false. tauto.
  - now apply List.NoDup_filter.
Qed.

Lemma first_appearance_snoc (ids : list Id) x :
  first_appearance (ids ++ [x]) =
  if bool_decide (x ∈ ids) then first_appearance ids
  else (first_appearance ids ++ [x])%list.
Proof.
  induction ids as [|a ids IH]; [reflexivity|].
  cbn [app first_appearance]. rewrite IH.
  destruct (decide (x ∈ ids)) as [Hin | Hin].
  - rewrite !bool_decide_eq_true_2 by (try right; assumption). reflexivity.
  - rewrite (bool_decide_eq_false_2 (x ∈ ids)) by assumption.
    rewrite List.filter_app. cbn [List.filter].
    destruct (decide (x = a)) as [-> | Hne].
    + rewrite (bool_decide_eq_true_2 (a ∈ a :: ids)) by left.
      rewrite bool_decide_eq_true_2 by reflexivity. cbn [negb].
      now rewrite app_nil_r.
    + rewrite (bool_decide_eq_false_2 (x = a)) by assumption. cbn [negb].
      rewrite bool_decide_eq_false_2; [reflexivity|].
      rewrite elem_of_cons. tauto.
Qed.

Lemma group_of_snoc tasks t vid :
  group_of (tasks ++ [t]) vid =
  (group_of tasks vid ++ if bool_decide (ts_id_mo t = vid) then [t] else [])%list.
Proof. unfold group_of. rewrite List.filter_app. simpl. now destruct (bool_decide _). Qed.

Lemma group_of_absent tasks vid :
  ~ In vid (map ts_id_mo tasks) -> group_of tasks vid = [].
Proof.
  induction tasks as [|t tasks IH]; simpl; [reflexivity|]. intros Hn.
  unfold group_of in *. simpl.
  rewrite bool_decide_eq_false_2 by tauto. apply IH. tauto.
Qed.

Lemma has_key_grouped tasks ks vid :
  has_key vid (grouped tasks ks) = bool_decide (vid ∈ ks).
Proof.
  unfold has_key, grouped. induction ks as [|k ks IH]; [reflexivity|].
  cbn [map existsb fst]. rewrite IH. destruct (decide (k = vid)) as [-> | Hne].
  - rewrite (bool_decide_eq_true_2 (vid = vid)) by reflexivity.
    rewrite (bool_decide_eq_true_2 (vid ∈ vid :: ks)) by left. reflexivity.
  - rewrite (bool_decide_eq_false_2 (k = vid)) by assumption. cbn [orb].
    apply bool_decide_ext. rewrite elem_of_cons. intuition congruence.
Qed.

Lemma append_to_absent vid t gs :
  ~ In vid (map fst gs) -> append_to vid t gs = gs.
Proof.
  induction gs as [|[k g] gs IH]; simpl; [reflexivity|]. intros Hn.
  rewrite bool_decide_eq_false_2 by tauto. f_equal. apply IH. tauto.
Qed.

Lemma append_to_grouped tasks t ks :
  List.NoDup ks -> In (ts_id_mo t) ks ->
  append_to (ts_id_mo t) t (grouped tasks ks) = grouped (tasks ++ [t]) ks.
Proof.
  unfold grouped. induction ks as [|k ks IH]; simpl; [tauto|].
  intros Hnd Hin. inversion Hnd as [|? ? Hk Hnd']; subst.
  rewrite group_of_snoc.
  destruct (decide (k = ts_id_mo t)) as [-> | Hne].
  - rewrite !bool_decide_eq_true_2 by reflexivity. f_equal.
    apply map_ext_in. intros vid Hvid. rewrite group_of_snoc.
    rewrite bool_decide_eq_false_2 by congruence. now rewrite app_nil_r.
  - rewrite bool_decide_eq_false_2 by assumption.
    rewrite bool_decide_eq_false_2 by congruence.
    rewrite app_nil_r. f_equal. apply IH; [assumption|]. destruct Hin; congruence.
Qed.

Lemma group_tasks_snoc tasks t :
  group_tasks (tasks ++ [t]) = group_step (group_tasks tasks) t.
Proof. unfold group_tasks. now rewrite fold_left_app. Qed.

(** [by_vehicle] after the grouping loop. *)
Lemma group_tasks_grouped tasks :
  group_tasks tasks = grouped tasks (first_appearance (map ts_id_mo tasks)).
Proof.
  induction tasks as [|t tasks IH] using rev_ind; [reflexivity|].
  rewrite group_tasks_snoc, IH, map_app. simpl map.
  rewrite first_appearance_snoc. unfold group_step.
  rewrite has_key_grouped.
  destruct (decide (ts_id_mo t ∈ map ts_id_mo tasks)) as [Hin | Hin];
    rewrite list_elem_of_In in Hin.
  - rewrite !bool_decide_eq_true_2
      by (apply list_elem_of_In;
          first [assumption | apply first_appearance_in; assumption]).
    simpl. apply append_to_grouped.
    + apply first_appearance_nodup.
    + now apply first_appearance_in.
  - rewrite !bool_decide_eq_false_2
      by (rewrite list_elem_of_In, ?first_appearance_in; assumption).
    simpl.
    unfold grouped. rewrite map_app. simpl.
    assert (Hks : forall ks, ~ In (ts_id_mo t) ks ->
              append_to (ts_id_mo t) t
                (map (fun vid => (vid, group_of tasks vid)) ks ++ [(ts_id_mo t, [])])%list =
              (map (fun vid => (vid, group_of (tasks ++ [t]) vid)) ks ++
               [(ts_id_mo t, [t])])%list).
    { induction ks as [|k ks IHk]; simpl; intros Hn.
      - now rewrite bool_decide_eq_true_2.
      - rewrite bool_decide_eq_false_2 by tauto.
        rewrite group_of_snoc, bool_decide_eq_false_2 by (intros ?; apply Hn; auto).
        rewrite app_nil_r. f_equal. apply IHk. tauto. }
    rewrite Hks by (now rewrite first_appearance_in).
    rewrite group_of_snoc, bool_decide_eq_true_2 by reflexivity.
    now rewrite (group_of_absent tasks) by assumption.
Qed.

Lemma group_tasks_spec tasks : map snd (group_tasks tasks) = spec_groups tasks.
Proof.
  rewrite group_tasks_grouped. unfold grouped, spec_groups.
  rewrite map_map. reflexivity.
Qed.

(** *** The rounds *)

Lemma spec_round_0 gl : spec_round gl 0 = heads gl.
Proof.
  unfold spec_round, heads. induction gl as [|g gl IH]; [reflexivity|].
  cbn [flat_map]. rewrite IH. now destruct g.
Qed.

Lemma spec_round_S gl k : spec_round gl (S k) = spec_round (map (@tl _) gl) k.
Proof.
  unfold spec_round. induction gl as [|g gl IH]; [reflexivity|].
  cbn [flat_map map]. rewrite IH. destruct g; simpl; [|reflexivity]. now destruct k.
Qed.

Lemma take_round_spec gs :
  fst (take_round gs) = heads (map snd gs) /\
  map snd (snd (take_round gs)) = map (@tl _) (map snd gs).
Proof.
  induction gs as [|[k g] gs [IH1 IH2]]; simpl; [now split|].
  destruct (take_round gs) as [taken rest]. simpl in *.
  destruct g; simpl; now rewrite IH1, IH2.
Qed.

Lemma any_nonempty_false gs k :
  any_nonempty gs = false -> spec_round (map snd gs) k = [].
Proof.
  unfold any_nonempty, spec_round. induction gs as [|[v g] gs IH]; [reflexivity|].
  cbn [existsb map flat_map snd].
  destruct g; simpl; [|discriminate]. intros Hn. rewrite IH by assumption.
  now destruct k.
Qed.

Lemma flat_map_nil {A B} (f : A -> list B) l :
  (forall x, f x = []) -> flat_map f l = [].
Proof. intros Hf. induction l; simpl; [reflexivity|]. now rewrite Hf. Qed.

Lemma flat_map_seq_S {B} (f : nat -> list B) n :
  flat_map f (seq 1 n) = flat_map (fun k => f (S k)) (seq 0 n).
Proof. rewrite <- seq_shift, flat_map_concat_map, map_map, <- flat_map_concat_map. reflexivity. Qed.

(** The [while] loop appends round after round. *)
Lemma rounds_spec fuel : forall gs acc,
  rounds fuel gs acc = (acc ++ flat_map (spec_round (map snd gs)) (seq 0 fuel))%list.
Proof.
  induction fuel as [|fuel IH]; intros gs acc.
  - simpl. destruct (any_nonempty gs); now rewrite app_nil_r.
  - cbn [rounds]. destruct (any_nonempty gs) eqn:Hany.
    + destruct (take_round_spec gs) as [H1 H2].
      destruct (take_round gs) as [taken gs']. simpl in H1, H2.
      rewrite IH, H2, <- app_assoc. f_equal.
      cbn [seq flat_map]. rewrite spec_round_0, H1. f_equal.
      rewrite flat_map_seq_S. apply flat_map_ext. intros k.
      now rewrite spec_round_S.
    + rewrite flat_map_nil; [now rewrite app_nil_r|].
      intros k. now apply any_nonempty_false.
Qed.

(** The code computes what the specification describes. *)
Lemma reorder_is_interleave tasks :
  _reorder_tasks_for_rate_limit tasks = interleave_spec tasks.
Proof.
  unfold _reorder_tasks_for_rate_limit, interleave_spec.
  destruct tasks as [|t tasks]; [reflexivity|].
  rewrite rounds_spec, group_tasks_spec. reflexivity.
Qed.

(** *** Nothing is lost and nothing is added *)

Lemma heads_tails_perm (gl : list (list (task Id))) :
  Permutation (concat gl) (heads gl ++ concat (map (@tl _) gl)).
Proof.
  induction gl as [|g gl IH]; simpl; [constructor|].
  destruct g as [|t g]; simpl; [assumption|].
  constructor. rewrite IH.
  rewrite !app_assoc. apply Permutation_app_tail, Permutation_app_comm.
Qed.

Lemma rounds_perm n : forall gl : list (list (task Id)),
  Forall (fun g => (length g <= n)%nat) gl ->
  Permutation (concat gl) (flat_map (spec_round gl) (seq 0 n)).
Proof.
  induction n as [|n IH]; intros gl Hlen.
  - simpl. replace (concat gl) with (@nil (task Id)); [constructor|].
    induction Hlen as [|g gl Hg _ IHl]; simpl; [reflexivity|].
    destruct g; simpl in *; [assumption|lia].
  - cbn [seq flat_map]. rewrite flat_map_seq_S, spec_round_0.
    rewrite heads_tails_perm. apply Permutation_app_head.
    erewrite flat_map_ext by (intros k; apply spec_round_S).
    apply IH. clear IH.
    induction Hlen as [|g gl Hg _ IHl]; cbn [map]; constructor; [|assumption].
    destruct g; simpl in *; lia.
Qed.

Lemma group_of_cons_absent t tasks ks :
  ~ In (ts_id_mo t) ks ->
  map (group_of (t :: tasks)) ks = map (group_of tasks) ks.
Proof.
  intros Hn. apply map_ext_in. intros vid Hvid. unfold group_of. simpl.
  rewrite bool_decide_eq_false_2; [reflexivity|]. congruence.
Qed.

Lemma group_of_cons_present t tasks ks :
  List.NoDup ks -> In (ts_id_mo t) ks ->
  Permutation (concat (map (group_of (t :: tasks)) ks))
              (t :: concat (map (group_of tasks) ks)).
Proof.
  induction ks as [|k ks IH]; simpl; [tauto|]. intros Hnd Hin.
  inversion Hnd as [|? ? Hk Hnd']; subst.
  destruct (decide (ts_id_mo t = k)) as [<- | Hne].
  - rewrite group_of_cons_absent by assumption.
    unfold group_of at 1. simpl. rewrite bool_decide_eq_true_2 by reflexivity.
    reflexivity.
  - unfold group_of at 1. simpl. rewrite bool_decide_eq_false_2 by assumption.
    fold (group_of tasks k). rewrite IH by (tauto || (destruct Hin; congruence)).
    symmetry. apply Permutation_middle.
Qed.

Lemma groups_perm tasks : forall ks,
  List.NoDup ks -> (forall t, In t tasks -> In (ts_id_mo t) ks) ->
  Permutation tasks (concat (map (group_of tasks) ks)).
Proof.
  induction tasks as [|t tasks IH]; intros ks Hnd Hcov.
  - simpl. replace (concat (map (group_of []) ks)) with (@nil (task Id)); [constructor|].
    induction ks; simpl; [reflexivity|]. apply IHks. now inversion Hnd. intros ? [].
  - rewrite group_of_cons_present by (auto with datatypes).
    constructor. apply IH; auto with datatypes.
Qed.

Lemma group_of_length tasks vid : (length (group_of tasks vid) <= length tasks)%nat.
Proof. apply List.filter_length_le. Qed.

Lemma interleave_spec_perm tasks : Permutation tasks (interleave_spec tasks).
Proof.
  unfold interleave_spec. rewrite <- rounds_perm.
  - apply groups_perm; [apply first_appearance_nodup|].
    intros t Ht. apply first_appearance_in, in_map, Ht.
  - unfold spec_groups.
    induction (first_appearance (map ts_id_mo tasks)); cbn [map]; constructor;
      [apply group_of_length | assumption].
Qed.

(** *** The loop ends

    A pass pops a task from every group that has one, so the number of
    tasks left in [by_vehicle] goes down while the guard holds. *)

Definition remaining gs : nat := length (concat (map snd gs)).

Lemma take_round_remaining gs :
  any_nonempty gs = true ->
  (remaining (snd (take_round gs)) < remaining gs)%nat.
Proof.
  unfold remaining, any_nonempty.
  assert (Hle : forall gs', (length (concat (map snd (snd (take_round gs')))) <=
                             length (concat (map snd gs')))%nat).
  { induction gs' as [|[k g] gs' IH]; cbn [take_round]; [reflexivity|].
    destruct (take_round gs') as [taken rest]. cbn [snd] in IH.
    destruct g; cbn [snd map concat]; rewrite !length_app; cbn [length]; lia. }
  induction gs as [|[k g] gs IH]; cbn [existsb]; [discriminate|].
  cbn [take_round snd]. specialize (Hle gs).
  destruct (take_round gs) as [taken rest]. cbn [snd] in *.
  destruct g as [|t g]; cbn [orb snd map concat].
  - intros Hany. specialize (IH Hany). cbn [app]. exact IH.
  - intros _. rewrite !length_app. cbn [length]. lia.
Qed.

(** With as many passes as there are tasks left the loop leaves by its
    guard, and returns the list [rounds] computes. *)
Lemma rounds_within_enough fuel : forall fuel' gs acc,
  (remaining gs <= fuel)%nat -> (remaining gs <= fuel')%nat ->
  rounds_within fuel gs acc = Some (rounds fuel' gs acc).
Proof.
  induction fuel as [|fuel IH]; intros fuel' gs acc Hf Hf';
    cbn [rounds_within]; destruct (any_nonempty gs) eqn:Hany;
    try (destruct fuel'; cbn [rounds]; now rewrite Hany);
    pose proof (take_round_remaining gs Hany) as Hlt; [lia|].
  destruct fuel' as [|fuel']; [lia|]. cbn [rounds]. rewrite Hany.
  destruct (take_round gs) as [taken gs']. cbn [snd] in Hlt.
  apply IH; lia.
Qed.

Lemma group_tasks_remaining tasks : remaining (group_tasks tasks) = length tasks.
Proof.
  unfold remaining. rewrite group_tasks_spec. unfold spec_groups.
  symmetry. apply Permutation_length, groups_perm.
  - apply first_appearance_nodup.
  - intros t Ht. apply first_appearance_in, in_map, Ht.
Qed.

(** *** The tasks of a vehicle keep their order *)

Lemma filter_flat_map {A B} (p : B -> bool) (f : A -> list B) l :
  List.filter p (flat_map f l) = flat_map (fun x => List.filter p (f x)) l.
Proof.
  induction l as [|x l IH]; [reflexivity|].
  cbn [flat_map]. now rewrite List.filter_app, IH.
Qed.

Lemma at_round_group tasks v vid k :
  List.filter (fun t => bool_decide (ts_id_mo t = vid)) (at_round (group_of tasks v) k) =
  if bool_decide (v = vid) then at_round (group_of tasks vid) k else [].
Proof.
  unfold at_round. destruct (decide (v = vid)) as [<- | Hne].
  - rewrite bool_decide_eq_true_2 by reflexivity.
    destruct (nth_error (group_of tasks v) k) as [t|] eqn:Hk; [|reflexivity].
    apply nth_error_In, List.filter_In in Hk as [_ Ht].
    cbn [List.filter]. now rewrite Ht.
  - rewrite bool_decide_eq_false_2 by assumption.
    destruct (nth_error (group_of tasks v) k) as [t|] eqn:Hk; [|reflexivity].
    apply nth_error_In, List.filter_In in Hk as [_ Ht].
    apply bool_decide_eq_true in Ht.
    cbn [List.filter]. rewrite bool_decide_eq_false_2 by congruence. reflexivity.
Qed.

Lemma spec_round_group tasks ks vid k :
  List.NoDup ks ->
  List.filter (fun t => bool_decide (ts_id_mo t = vid))
    (spec_round (map (group_of tasks) ks) k) =
  if bool_decide (vid ∈ ks) then at_round (group_of tasks vid) k else [].
Proof.
  unfold spec_round. rewrite filter_flat_map, flat_map_concat_map, map_map,
    <- flat_map_concat_map.
  induction ks as [|v ks IH]; intros Hnd; [reflexivity|].
  inversion Hnd as [|? ? Hv Hnd']; subst. cbn [flat_map].
  fold (at_round (group_of tasks v) k). rewrite at_round_group, IH by assumption.
  destruct (decide (v = vid)) as [-> | Hne].
  - rewrite bool_decide_eq_true_2 by reflexivity.
    rewrite (bool_decide_eq_true_2 (vid ∈ vid :: ks)) by left.
    rewrite bool_decide_eq_false_2 by (now rewrite list_elem_of_In).
    now rewrite app_nil_r.
  - rewrite (bool_decide_eq_false_2 (v = vid)) by assumption. cbn [app].
    apply (f_equal (fun b : bool => if b then _ else _)).
    apply bool_decide_ext. rewrite elem_of_cons. intuition congruence.
Qed.

Lemma at_rounds_all n : forall g : list (task Id),
  (length g <= n)%nat -> flat_map (at_round g) (seq 0 n) = g.
Proof.
  induction n as [|n IH]; intros g Hg.
  - destruct g; [reflexivity|simpl in Hg; lia].
  - cbn [seq flat_map]. rewrite flat_map_seq_S.
    destruct g as [|t g]; [apply flat_map_nil; reflexivity|].
    cbn [at_round nth_error app]. f_equal. apply IH. simpl in Hg. lia.
Qed.

Lemma interleave_spec_group tasks vid :
  group_of (interleave_spec tasks) vid = group_of tasks vid.
Proof.
  unfold interleave_spec, spec_groups. unfold group_of at 1.
  rewrite filter_flat_map.
  erewrite flat_map_ext
    by (intros k; apply spec_round_group, first_appearance_nodup).
  destruct (decide (vid ∈ first_appearance (map ts_id_mo tasks))) as [Hin | Hin].
  - rewrite bool_decide_eq_true_2 by assumption.
    apply at_rounds_all, group_of_length.
  - rewrite bool_decide_eq_false_2 by assumption.
    rewrite flat_map_nil by reflexivity. symmetry. apply group_of_absent.
    now rewrite <- first_appearance_in, <- list_elem_of_In.
Qed.

End WithId.
End InterleaverSpec.

Module InterleaverExample.
Import Py Interleaver.

Definition a1 : task string := mktask "pl1" "A" JNull JNull (JStr "01.01.2026") (JStr "02.01.2026").
Definition b1 : task string := mktask "pl2" "B" JNull JNull (JStr "01.01.2026") (JStr "02.01.2026").
Definition a2 : task string := mktask "pl3" "A" JNull JNull (JStr "01.01.2026") (JStr "02.01.2026").
Definition c1 : task string := mktask "pl4" "C" JNull JNull (JStr "01.01.2026") (JStr "02.01.2026").
Definition a3 : task string := mktask "pl5" "A" JNull JNull (JStr "01.01.2026") (JStr "02.01.2026").
Definition c2 : task string := mktask "pl6" "C" JNull JNull (JStr "01.01.2026") (JStr "02.01.2026").

(** C7.  For every task list, [_reorder_tasks_for_rate_limit] returns
    what the specification describes (the groups by vehicle in
    first-appearance order, each in the original order, emptied one task
    per group and round), which is a permutation of the input in which
    the tasks of every vehicle keep their order; its loop goes on until
    all groups are exhausted and then ends: with [len(tasks)] passes or
    more it leaves by its guard [any(by_vehicle.values())] and returns
    that list; the tasks of vehicles A, B, A, C, A, C come out as A, B,
    C, A, C, A. *)
Theorem interleave_correct :
  (forall (Id : Type) (eq_dec : EqDecision Id) (tasks : list (task Id)),
     _reorder_tasks_for_rate_limit tasks = interleave_spec tasks /\
     Permutation tasks (_reorder_tasks_for_rate_limit tasks) /\
     (forall vid, group_of (_reorder_tasks_for_rate_limit tasks) vid = group_of tasks vid) /\
     (forall fuel, (length tasks <= fuel)%nat ->
        rounds_within fuel (group_tasks tasks) [] =
        Some (_reorder_tasks_for_rate_limit tasks))) /\
  _reorder_tasks_for_rate_limit [a1; b1; a2; c1; a3; c2] = [a1; b1; c1; a2; c2; a3] /\
  map ts_id_mo (_reorder_tasks_for_rate_limit [a1; b1; a2; c1; a3; c2])
    = ["A"; "B"; "C"; "A"; "C"; "A"].
Proof.
  split; [|split; reflexivity].
  intros Id eq_dec tasks. split; [|split; [|split]].
  - apply InterleaverSpec.reorder_is_interleave.
  - rewrite InterleaverSpec.reorder_is_interleave.
    apply InterleaverSpec.interleave_spec_perm.
  - intros vid. rewrite InterleaverSpec.reorder_is_interleave.
    apply InterleaverSpec.interleave_spec_group.
  - intros fuel Hfuel. unfold _reorder_tasks_for_rate_limit.
    destruct tasks as [|t tasks]; [now destruct fuel|].
    apply InterleaverSpec.rounds_within_enough;
      rewrite InterleaverSpec.group_tasks_remaining; [exact Hfuel|reflexivity].
Qed.

End InterleaverExample.

Module ExtractorSpec.
Import Py Extractor.

Section WithStr.
Variable py_str : json -> string.

(** The planned dates of a record, as the extractor reads them. *)
Definition date_out_plan (pl : dict) : json := get_default pl "dateOutPlan" (JStr "").
Definition date_in_plan (pl : dict) : json := get_default pl "dateInPlan" (JStr "").

(** The task made from the record [pl] and the entry [ts] of its [ts]
    list. *)
Definition task_of (pl ts : dict) : task json :=
  mktask (py_str (get pl "tsNumber") ++ "_" ++ py_str (get pl "dateOut"))
         (get ts "idMO") (get ts "regNumber") (get ts "nameMO")
         (date_out_plan pl) (date_in_plan pl).

(** [new] is what the record [pl] contributes: nothing when a planned
    date is missing or empty, and otherwise only tasks made from the
    entries of its own [ts] list, with its own planned dates as window. *)
Definition from_record (pl : json) (new : list (task json)) : Prop :=
  exists d, pl = JDict d /\
    (truthy (date_out_plan d) = false \/ truthy (date_in_plan d) = false -> new = []) /\
    forall t, In t new ->
      (exists ts_list ts,
         iterate (get_default d "ts" (JList [])) = Ok ts_list /\
         In (JDict ts) ts_list /\ t = task_of d ts) /\
      from_date t = date_out_plan d /\ to_date t = date_in_plan d /\
      truthy (from_date t) = true /\ truthy (to_date t) = true.

Lemma pl_tasks_skip pl :
  truthy (date_out_plan pl) = false \/ truthy (date_in_plan pl) = false ->
  pl_tasks py_str (JDict pl) = Ok [].
Proof.
  unfold pl_tasks, date_out_plan, date_in_plan. cbn [as_dict mbind result_bind].
  intros [-> | ->]; [reflexivity|]. now rewrite orb_true_r.
Qed.

Lemma ts_tasks_made pid dop dip ts t :
  In t (ts_tasks py_str pid dop dip ts) ->
  exists d, ts = JDict d /\
    t = mktask pid (get d "idMO") (get d "regNumber") (get d "nameMO") dop dip.
Proof.
  unfold ts_tasks. destruct ts as [| | | | | |d]; try contradiction.
  destruct (negb (truthy (get d "idMO"))); [contradiction|].
  destruct (negb _); [contradiction|].
  intros [<- | []]. eauto.
Qed.

Lemma pl_tasks_from_record pl new :
  pl_tasks py_str pl = Ok new -> from_record pl new.
Proof.
  unfold pl_tasks. intros Hpl.
  destruct pl as [| | | | | |d]; try discriminate Hpl.
  cbn [as_dict mbind result_bind] in Hpl. exists d. split; [reflexivity|].
  fold (date_out_plan d) (date_in_plan d) in Hpl.
  destruct (truthy (date_out_plan d)) eqn:Hout; cbn [negb orb] in Hpl;
    [|injection Hpl as <-; split; [reflexivity|intros t []]].
  destruct (truthy (date_in_plan d)) eqn:Hin; cbn [negb orb] in Hpl;
    [|injection Hpl as <-; split; [reflexivity|intros t []]].
  split; [intros [|]; discriminate|].
  destruct (negb (truthy (get_default d "ts" (JList [])))).
  { injection Hpl as <-. intros t []. }
  destruct (iterate (get_default d "ts" (JList []))) as [ts_list|] eqn:Hit;
    cbn [mbind result_bind] in Hpl; [|discriminate].
  injection Hpl as <-. intros t (ts & Hts & Ht)%in_flat_map.
  apply ts_tasks_made in Ht as (v & -> & ->).
  cbn [from_date to_date]. rewrite Hout, Hin.
  split; [exists ts_list, v; auto|auto].
Qed.

(** The result of the loop is what the records give, one after the
    other. *)
Lemma extract_loop_parts pls : forall acc tasks,
  extract_loop py_str pls acc = Ok tasks ->
  exists news,
    Forall2 (fun pl new => pl_tasks py_str pl = Ok new) pls news /\
    tasks = (acc ++ concat news)%list.
Proof.
  induction pls as [|pl pls IH]; intros acc tasks Hl; cbn [extract_loop] in Hl.
  - injection Hl as <-. exists []. split; [constructor|]. now rewrite app_nil_r.
  - unfold mbind, result_bind in Hl.
    destruct (pl_tasks py_str pl) as [new|] eqn:Hpl; [|discriminate].
    destruct (IH _ _ Hl) as (news & Hnews & ->).
    exists (new :: news). split; [now constructor|].
    cbn [concat]. now rewrite app_assoc.
Qed.

Lemma extract_loop_concat pls acc tasks :
  extract_loop py_str pls acc = Ok tasks ->
  exists news, Forall2 from_record pls news /\ tasks = (acc ++ concat news)%list.
Proof.
  intros (news & Hnews & ->)%extract_loop_parts. exists news. split; [|reflexivity].
  eapply Forall2_impl; [exact Hnews|]. intros pl new. apply pl_tasks_from_record.
Qed.

Lemma extract_loop_skip pl pls1 : forall pls2 acc,
  pl_tasks py_str pl = Ok [] ->
  extract_loop py_str (pls1 ++ pl :: pls2) acc = extract_loop py_str (pls1 ++ pls2) acc.
Proof.
  induction pls1 as [|p pls1 IH]; intros pls2 acc Hpl.
  - cbn [app extract_loop]. rewrite Hpl. cbn [mbind result_bind].
    now rewrite app_nil_r.
  - cbn [app extract_loop]. destruct (pl_tasks py_str p); cbn [mbind result_bind];
      [now apply IH | reflexivity].
Qed.

End WithStr.

(** Two records with a vehicle each: the planned departure of the first
    is no date, the planned return of the second is before its departure. *)
Definition bad_windows : json :=
  JDict [("list", JList [
    JDict [("tsNumber", JStr "T1"); ("dateOut", JStr "25.01.2026");
           ("dateOutPlan", JStr "garbage"); ("dateInPlan", JStr "25.01.2026 19:30");
           ("ts", JList [JDict [("idMO", JInt 5); ("nameMO", JStr "Тягач Volvo")]])];
    JDict [("tsNumber", JStr "T2"); ("dateOut", JStr "26.01.2026");
           ("dateOutPlan", JStr "26.01.2026 08:00"); ("dateInPlan", JStr "25.01.2026 08:00");
           ("ts", JList [JDict [("idMO", JInt 6); ("nameMO", JStr "тягач MAN")]])]])].

Definition bad_tasks : list (task json) :=
  [mktask "T1_25.01.2026" (JInt 5) JNull (JStr "Тягач Volvo")
          (JStr "garbage") (JStr "25.01.2026 19:30");
   mktask "T2_26.01.2026" (JInt 6) JNull (JStr "тягач MAN")
          (JStr "26.01.2026 08:00") (JStr "25.01.2026 08:00")].

(** One record with one tractor, planned from [a] to [b]. *)
Definition one_record (a b : string) : json :=
  JDict [("list", JList [
    JDict [("tsNumber", JStr "T1"); ("dateOut", JStr "25.01.2026");
           ("dateOutPlan", JStr a); ("dateInPlan", JStr b);
           ("ts", JList [JDict [("idMO", JInt 5); ("nameMO", JStr "Тягач Volvo")]])]])].

(** C5 (as amended).  The tasks [extract_monitoring_tasks] emits are
    the contributions of the records of the list, record by record and
    in order: a record whose [dateOutPlan] or [dateInPlan] is missing or
    empty contributes nothing, and every task of another record is made
    from an entry of the [ts] list of that same record and carries the
    [dateOutPlan] and [dateInPlan] of that record, both not empty,
    unchanged as its window.  A record with a missing or empty planned
    date can be left out of the list without changing the result.  The
    planned dates are not read: whatever two strings they are, if not
    empty, the tractor of the record gets a task with them as window. *)
Theorem extractor_skips_empty_windows (py_str : json -> string) :
  (forall pl_data tasks,
     extract_monitoring_tasks py_str pl_data = Ok tasks ->
     exists d pls news,
       pl_data = JDict d /\ iterate (get_default d "list" (JList [])) = Ok pls /\
       Forall2 (from_record py_str) pls news /\ tasks = concat news) /\
  (forall d d' pls1 pl pls2,
     truthy (date_out_plan pl) = false \/ truthy (date_in_plan pl) = false ->
     get_default d "list" (JList []) = JList (pls1 ++ JDict pl :: pls2) ->
     get_default d' "list" (JList []) = JList (pls1 ++ pls2) ->
     extract_monitoring_tasks py_str (JDict d) = extract_monitoring_tasks py_str (JDict d')) /\
  (forall a b, (forall s, py_str (JStr s) = s) -> a <> "" -> b <> "" ->
     extract_monitoring_tasks py_str (one_record a b) =
     Ok [mktask "T1_25.01.2026" (JInt 5) JNull (JStr "Тягач Volvo") (JStr a) (JStr b)]).
Proof.
  split; [|split].
  - intros pl_data tasks Hex. unfold extract_monitoring_tasks in Hex.
    destruct pl_data as [| | | | | |d]; try discriminate Hex.
    cbn [as_dict mbind result_bind] in Hex.
    destruct (iterate (get_default d "list" (JList []))) as [pls|] eqn:Hit;
      [|discriminate Hex].
    destruct (extract_loop_concat _ _ _ _ Hex) as (news & Hnews & ->).
    exists d, pls, news. auto.
  - intros d d' pls1 pl pls2 Hfalse Hd Hd'. unfold extract_monitoring_tasks.
    cbn [as_dict mbind result_bind]. rewrite Hd, Hd'. cbn [iterate].
    apply extract_loop_skip, pl_tasks_skip, Hfalse.
  - intros a b Hs Ha Hb. apply String.eqb_neq in Ha, Hb.
    unfold extract_monitoring_tasks, one_record.
    cbn [as_dict mbind result_bind get_default lookup String.eqb Ascii.eqb Bool.eqb iterate
         extract_loop pl_tasks get truthy]. rewrite Ha, Hb.
    cbn [negb orb mbind result_bind iterate flat_map ts_tasks get get_default lookup
         String.eqb Ascii.eqb Bool.eqb truthy Z.eqb app].
    rewrite !Hs. reflexivity.
Qed.

Lemma extractor_skips_empty_windows_witness :
  exists d pls news,
    bad_windows = JDict d /\ iterate (get_default d "list" (JList [])) = Ok pls /\
    Forall2 (from_record (fun v => match v with JStr s => s | _ => "" end)) pls news /\
    bad_tasks = concat news.
Proof.
  apply (proj1 (extractor_skips_empty_windows
                  (fun v => match v with JStr s => s | _ => "" end))).
  reflexivity.
Defined.

(** C5 as stated fails: the extractor emits a task whose window start
    does not parse, and a task whose window ends before it starts. *)
Lemma unparseable_window_emitted :
  (forall py_str : json -> string, (forall s, py_str (JStr s) = s) ->
     extract_monitoring_tasks py_str bad_windows = Ok bad_tasks) /\
  Shifts.parse_datetime "garbage" = None /\
  Shifts.parse_datetime "26.01.2026 08:00" = Some (Datetime.mkdt 2026 1 26 8 0 0 0) /\
  Shifts.parse_datetime "25.01.2026 08:00" = Some (Datetime.mkdt 2026 1 25 8 0 0 0) /\
  Datetime.ltb (Datetime.mkdt 2026 1 26 8 0 0 0) (Datetime.mkdt 2026 1 25 8 0 0 0) = false.
Proof.
  split; [|repeat split; vm_compute; reflexivity].
  intros py_str Hs. unfold extract_monitoring_tasks, bad_windows.
  cbn [as_dict mbind result_bind get_default lookup String.eqb Ascii.eqb Bool.eqb iterate
       extract_loop pl_tasks get truthy negb orb flat_map ts_tasks Z.eqb app].
  rewrite !Hs. reflexivity.
Qed.

End ExtractorSpec.

Module MonitoringParserSpec.
Import Py Datetime MonitoringParser.

Section WithFloats.
Context `{FloatOps}.

Lemma is_zero_falsy v : is_zero v = true -> truthy v = false.
Proof.
  destruct v as [|b|n|f|s|l|d]; simpl; try discriminate.
  - now destruct b.
  - intros ->. reflexivity.
  - now destruct f.
Qed.

(** A duration of zero seconds has no hours: [None], not [0.0], and no
    arithmetic is done on it. *)
Lemma hours_zero v : is_zero v = true -> hours v = Ok JNull.
Proof. intros Hz. unfold hours. now rewrite (is_zero_falsy v Hz). Qed.

Lemma hours_zero_inv v h : is_zero v = true -> hours v = Ok h -> h = JNull.
Proof. intros Hz. rewrite (hours_zero v Hz). congruence. Qed.

Lemma parse_monitoring_hours data r :
  parse_monitoring (JDict data) = Ok r ->
  exists h1 h2 h3,
    (data = [] \/
     hours (get data "movingTime") = Ok h1 /\
     hours (get data "engineTime") = Ok h2 /\
     hours (get data "engineIdlingTime") = Ok h3) /\
    (data = [] -> h1 = JNull /\ h2 = JNull /\ h3 = JNull) /\
    lookup "mon_moving_time_hours" r = Some h1 /\
    lookup "mon_engine_time_hours" r = Some h2 /\
    lookup "mon_idling_time_hours" r = Some h3.
Proof.
  intros Hp. destruct data as [|kv data].
  - inversion Hp; subst. exists JNull, JNull, JNull. repeat split; auto.
  - cbn [parse_monitoring] in Hp. remember (kv :: data) as d eqn:Hd.
    unfold mbind, result_bind in Hp.
    destruct (hours (get d "movingTime")) as [h1|] eqn:E1; [|discriminate Hp].
    destruct (hours (get d "engineTime")) as [h2|] eqn:E2; [|discriminate Hp].
    destruct (hours (get d "engineIdlingTime")) as [h3|] eqn:E3; [|discriminate Hp].
    exists h1, h2, h3.
    split; [right; auto|]. split; [subst d; discriminate|].
    repeat match type of Hp with
           | context [match ?r with Ok _ => _ | Raise _ => _ end] =>
               destruct r as [[? ?] | ?] || destruct r; try discriminate Hp
           end;
      inversion Hp; subst r; repeat split; reflexivity.
Qed.

End WithFloats.

(** A payload with zero seconds in the three fields: integer zero, float
    zero, negative float zero. *)
Definition idle_payload : dict :=
  [("moUid", JStr "mo-17"); ("distance", JFloat (S754_zero false));
   ("movingTime", JInt 0); ("engineTime", JFloat (S754_zero false));
   ("engineIdlingTime", JFloat (S754_zero true))].

(** Float operations for payloads that need none: a division is refused. *)
Definition no_arithmetic : FloatOps :=
  {| truediv := fun _ _ => Raise TypeError;
     round := fun x _ => x;
     total_seconds := fun _ => S754_nan;
     add := fun _ x => x |}.

(** C9.  For every payload that the parser accepts, when [movingTime],
    [engineTime] or [engineIdlingTime] equals 0 the corresponding hours
    field of the result ([mon_moving_time_hours],
    [mon_engine_time_hours], [mon_idling_time_hours]) is [None], not
    [0.0]: the conversion is guarded by the truth value of the field and
    no division is done. *)
Theorem zero_seconds_gives_no_hours (F : FloatOps) (data : dict) (r : dict) :
  parse_monitoring (JDict data) = Ok r ->
  (is_zero (get data "movingTime") = true ->
     hours (get data "movingTime") = Ok JNull /\
     lookup "mon_moving_time_hours" r = Some JNull) /\
  (is_zero (get data "engineTime") = true ->
     hours (get data "engineTime") = Ok JNull /\
     lookup "mon_engine_time_hours" r = Some JNull) /\
  (is_zero (get data "engineIdlingTime") = true ->
     hours (get data "engineIdlingTime") = Ok JNull /\
     lookup "mon_idling_time_hours" r = Some JNull).
Proof.
  intros Hp.
  destruct (parse_monitoring_hours data r Hp)
    as (h1 & h2 & h3 & Hh & Hempty & L1 & L2 & L3).
  rewrite L1, L2, L3.
  destruct Hh as [-> | (E1 & E2 & E3)].
  - destruct (Hempty eq_refl) as (-> & -> & ->). repeat split; discriminate.
  - repeat split; try (now apply hours_zero);
      f_equal; eapply hours_zero_inv; eassumption.
Qed.

Lemma zero_seconds_gives_no_hours_witness :
  exists r,
    parse_monitoring (H := no_arithmetic) (JDict idle_payload) = Ok r /\
    lookup "mon_moving_time_hours" r = Some JNull /\
    lookup "mon_engine_time_hours" r = Some JNull /\
    lookup "mon_idling_time_hours" r = Some JNull.
Proof.
  eexists. split; [reflexivity|].
  destruct (zero_seconds_gives_no_hours no_arithmetic idle_payload _ eq_refl)
    as (H1 & H2 & H3).
  split; [apply (H1 eq_refl)|]. split; [apply (H2 eq_refl) | apply (H3 eq_refl)].
Defined.

(** C10.  A track of at most two points is returned as it is, whatever
    the interval and whatever the points hold as their time. *)
Theorem short_track_unchanged (track : list dict) (interval_minutes : Z) :
  (length track <= 2)%nat -> _simplify_track track interval_minutes = Ok track.
Proof.
  intros Hlen. unfold _simplify_track.
  destruct track as [|p1 [|p2 [|p3 track]]]; try reflexivity.
  simpl in Hlen. lia.
Qed.

(** Two points whose times [strptime] would refuse. *)
Lemma short_track_unchanged_witness :
  _simplify_track [[("lat", JInt 1); ("lon", JInt 2); ("time", JInt 5)];
                   [("lat", JInt 1); ("lon", JInt 3); ("time", JStr "soon")]] 0
  = Ok [[("lat", JInt 1); ("lon", JInt 2); ("time", JInt 5)];
        [("lat", JInt 1); ("lon", JInt 3); ("time", JStr "soon")]].
Proof.
  apply (short_track_unchanged _ 0). simpl. lia.
Defined.

End MonitoringParserSpec.

Module FetcherSpec.
Import Py MonitoringParser Interleaver Fetcher.

Section WithId.
Context {Id : Type} `{Countable Id} `{FloatOps}.
Implicit Types (t : task Id) (tasks : list (task Id)) (net : network).
Implicit Types (st : state (Id := Id)).

Definition key_of t : string * Id := (pl_id t, ts_id_mo t).

(** What a task leaves in the dictionary: the parsed body, or the empty
    record when the call or the parser raised. *)
Definition stored (response : result json) : dict :=
  match (raw_data ← response; parse_monitoring raw_data) with
  | Ok parsed => parsed
  | Raise _ => _empty_monitoring
  end.

(** The keys of the dictionary are those it had and those of the tasks
    of the loop. *)
Definition has_keys (m : gmap (string * Id) dict) tasks : Prop :=
  forall t, In t tasks -> is_Some (m !! key_of t).

(** The callback invocations of the sequential loop from index [i]. *)
Fixpoint reports (i : Z) (total : Z) (n : nat) : list (Z * Z) :=
  match n with
  | O => []
  | S n' => (i + 1, total) :: reports (i + 1) total n'
  end.

(** The tasks at the positions [i0 + j] with [(i0 + j) mod n = k], in order. *)
Definition strided (n k i0 : nat) tasks : list (task Id) :=
  map snd (List.filter (fun it => (fst it mod n =? k)%nat)
             (combine (seq i0 (length tasks)) tasks)).

(** Queue [k] holds the tasks [i] with [i mod n = k]. *)
Definition queue_of (n k : nat) tasks : list (task Id) := strided n k 0 tasks.

Lemma calls_of_app (e1 e2 : list (effect (Id := Id))) :
  calls_of (e1 ++ e2) = (calls_of e1 ++ calls_of e2)%list.
Proof. unfold calls_of. now rewrite flat_map_app. Qed.

Lemma progress_of_app (e1 e2 : list (effect (Id := Id))) :
  progress_of (e1 ++ e2) = (progress_of e1 ++ progress_of e2)%list.
Proof. unfold progress_of. now rewrite flat_map_app. Qed.

Lemma wait_for_vehicle_keeps vid st :
  results (wait_for_vehicle vid st) = results st /\
  calls (wait_for_vehicle vid st) = calls st /\
  calls_of (events (wait_for_vehicle vid st)) = calls_of (events st) /\
  progress_of (events (wait_for_vehicle vid st)) = progress_of (events st).
Proof.
  unfold wait_for_vehicle. destruct (last_request_time st !! vid); [|auto].
  destruct (_ <? _); [|auto]. cbn [results calls events].
  rewrite calls_of_app, progress_of_app. cbn. now rewrite !app_nil_r.
Qed.

(** One task never raises: its key gets the parsed body or the empty
    record, the other keys keep their values. *)
Lemma fetch_task_spec net st t :
  exists st',
    fetch_task net st t = Ok st' /\
    results st' = <[key_of t := stored (fst (net (calls st)))]> (results st) /\
    calls st' = S (calls st) /\
    calls_of (events st') = (calls_of (events st) ++ [t])%list /\
    progress_of (events st') = progress_of (events st).
Proof.
  unfold fetch_task, stored.
  destruct (wait_for_vehicle_keeps (ts_id_mo t) st) as (Hr & Hc & Hcalls & Hprog).
  rewrite Hc. destruct (net (calls st)) as [response duration]. cbn [fst].
  set (body := response ≫= _).
  assert (Hst : forall parsed,
    let st' := record (pl_id t, ts_id_mo t) (ts_id_mo t) parsed
      (mkstate (results (wait_for_vehicle (ts_id_mo t) st))
         (last_request_time (wait_for_vehicle (ts_id_mo t) st))
         (now (wait_for_vehicle (ts_id_mo t) st) + duration) (S (calls st))
         (events (wait_for_vehicle (ts_id_mo t) st) ++ [Called t])) in
    results st' = <[key_of t := parsed]> (results st) /\
    calls st' = S (calls st) /\
    calls_of (events st') = (calls_of (events st) ++ [t])%list /\
    progress_of (events st') = progress_of (events st)).
  { intros parsed. cbn [record results calls events].
    rewrite Hr, calls_of_app, progress_of_app, Hcalls, Hprog.
    cbn. now rewrite app_nil_r. }
  destruct body as [parsed | e].
  - eexists. split; [reflexivity | apply Hst].
  - destruct e; (eexists; split; [reflexivity | apply Hst]).
Qed.




Lemma is_Some_insert (m : gmap (string * Id) dict) k k' v :
  is_Some (m !! k') -> is_Some (<[k := v]> m !! k').
Proof.
  intros Hs. destruct (decide (k = k')) as [-> | Hne].
  - rewrite lookup_insert_eq. eauto.
  - now rewrite lookup_insert_ne.
Qed.

Lemma worker_loop_spec net tasks : forall st,
  exists st',
    worker_loop net tasks st = Ok st' /\
    has_keys (results st') tasks /\
    (forall k, is_Some (results st !! k) -> is_Some (results st' !! k)) /\
    calls_of (events st') = (calls_of (events st) ++ tasks)%list /\
    progress_of (events st') = progress_of (events st).
Proof.
  induction tasks as [|t tasks IH]; intros st.
  - exists st. cbn. rewrite app_nil_r. repeat split; auto. intros ? [].
  - cbn [worker_loop].
    destruct (fetch_task_spec net st t) as (st1 & -> & Hres & _ & Hcalls & Hprog).
    cbn [mbind result_bind].
    destruct (IH st1) as (st' & -> & Hkeys & Hmono & Hcalls' & Hprog').
    exists st'. split; [reflexivity|]. repeat split.
    + intros t' [<- | Hin]; [|auto].
      apply Hmono. rewrite Hres, lookup_insert_eq. eauto.
    + intros k Hk. apply Hmono. rewrite Hres. now apply is_Some_insert.
    + rewrite Hcalls', Hcalls, <- app_assoc. reflexivity.
    + congruence.
Qed.

Lemma sequential_loop_spec net cb total tasks : forall i st,
  exists st',
    sequential_loop net cb total i tasks st = Ok st' /\
    has_keys (results st') tasks /\
    (forall k, is_Some (results st !! k) -> is_Some (results st' !! k)) /\
    calls_of (events st') = (calls_of (events st) ++ tasks)%list /\
    progress_of (events st') =
      (progress_of (events st) ++ if cb then reports i total (length tasks) else [])%list.
Proof.
  induction tasks as [|t tasks IH]; intros i st.
  - exists st. cbn. rewrite !app_nil_r. destruct cb; rewrite ?app_nil_r;
      repeat split; auto; intros ? [].
  - cbn [sequential_loop].
    destruct (fetch_task_spec net st t) as (st1 & -> & Hres & _ & Hcalls & Hprog).
    cbn [mbind result_bind].
    match goal with
    | |- context [sequential_loop _ _ _ _ _ ?s] => destruct (IH (i + 1) s)
        as (st' & -> & Hkeys & Hmono & Hcalls' & Hprog')
    end.
    exists st'. split; [reflexivity|].
    assert (Hr2 : forall k, is_Some (results st1 !! k) -> is_Some (results st' !! k)).
    { intros k Hk. apply Hmono. now destruct cb. }
    repeat split.
    + intros t' [<- | Hin]; [|auto].
      apply Hr2. rewrite Hres, lookup_insert_eq. eauto.
    + intros k Hk. apply Hr2. rewrite Hres. now apply is_Some_insert.
    + rewrite Hcalls'. destruct cb; cbn [events]; rewrite ?calls_of_app, Hcalls;
        cbn; rewrite <- ?app_assoc; reflexivity.
    + rewrite Hprog'. destruct cb; cbn [events length reports];
        rewrite ?progress_of_app, Hprog; cbn; rewrite <- ?app_assoc; reflexivity.
Qed.

(** *** The sequential path *)

Lemma sequential_spec net start tasks cb :
  exists st,
    _fetch_monitoring_sequential net start tasks cb = Ok st /\
    has_keys (results st) tasks /\
    calls_of (events st) = _reorder_tasks_for_rate_limit tasks /\
    progress_of (events st) =
      if cb then reports 0 (Z.of_nat (length tasks)) (length tasks) else [].
Proof.
  unfold _fetch_monitoring_sequential.
  destruct (sequential_loop_spec net cb (Z.of_nat (length tasks))
              (_reorder_tasks_for_rate_limit tasks) 0 (initial start))
    as (st & Hst & Hkeys & _ & Hcalls & Hprog).
  exists st. split; [exact Hst|]. repeat split.
  - intros t Ht. apply Hkeys.
    eapply Permutation_in; [|exact Ht].
    rewrite InterleaverSpec.reorder_is_interleave.
    apply InterleaverSpec.interleave_spec_perm.
  - exact Hcalls.
  - rewrite Hprog. cbn [initial events progress_of flat_map app].
    replace (length (_reorder_tasks_for_rate_limit tasks)) with (length tasks);
      [reflexivity|].
    apply Permutation_length. rewrite InterleaverSpec.reorder_is_interleave.
    apply InterleaverSpec.interleave_spec_perm.
Qed.

(** *** The parallel path *)

Lemma distribute_from_spec n tasks : forall i (queues : list (list (task Id))) k q,
  queues !! k = Some q ->
  distribute_from n i tasks queues !! k = Some (q ++ strided n k i tasks)%list.
Proof.
  induction tasks as [|t tasks IH]; intros i queues k q Hq.
  - cbn. now rewrite app_nil_r.
  - cbn [distribute_from]. unfold strided. cbn [length seq combine List.filter fst].
    destruct (Nat.eqb_spec (i mod n) k) as [<- | Hne].
    + erewrite IH; [|rewrite list_lookup_alter_eq, Hq; reflexivity].
      cbn [map snd]. now rewrite <- app_assoc.
    + erewrite IH; [reflexivity|]. now rewrite list_lookup_alter_ne.
Qed.

Lemma distribute_from_length n tasks : forall i (queues : list (list (task Id))),
  length (distribute_from n i tasks queues) = length queues.
Proof.
  induction tasks as [|t tasks IH]; intros i queues; [reflexivity|].
  cbn [distribute_from]. now rewrite IH, length_alter.
Qed.

Lemma distribute_spec n tasks :
  (0 < n)%nat ->
  exists queues,
    distribute n tasks = Ok queues /\ length queues = n /\
    forall k, (k < n)%nat -> queues !! k = Some (queue_of n k tasks).
Proof.
  intros Hn. unfold distribute. destruct n as [|n]; [lia|].
  eexists. split; [now destruct tasks|]. split.
  - now rewrite distribute_from_length, length_replicate.
  - intros k Hk.
    rewrite (distribute_from_spec _ _ _ _ k []) by now apply lookup_replicate_2.
    reflexivity.
Qed.

Lemma strided_in n k i0 tasks t : In t (strided n k i0 tasks) -> In t tasks.
Proof.
  unfold strided. rewrite in_map_iff. intros ([i t'] & <- & Hin).
  apply List.filter_In in Hin as [Hin _]. now apply in_combine_r in Hin.
Qed.

Lemma in_strided n tasks : forall i0 t,
  (0 < n)%nat -> In t tasks -> exists k, (k < n)%nat /\ In t (strided n k i0 tasks).
Proof.
  induction tasks as [|t' tasks IH]; intros i0 t Hn [].
  - subst t'. exists (i0 mod n)%nat. split; [apply Nat.mod_upper_bound; lia|].
    unfold strided. cbn [length seq combine List.filter fst].
    rewrite Nat.eqb_refl. now left.
  - destruct (IH (S i0) t Hn H1) as (k & Hk & Hin). exists k. split; [exact Hk|].
    unfold strided in *. cbn [length seq combine List.filter fst].
    destruct (_ =? _)%nat; [right|]; exact Hin.
Qed.

(** Every worker returns, having asked for the tasks of its queue in the
    order of the queue, and without a call of the callback. *)
Lemma worker_spec net start tasks :
  exists st,
    worker net start tasks = Ok st /\
    has_keys (results st) tasks /\
    calls_of (events st) = tasks /\
    progress_of (events st) = [].
Proof.
  unfold worker.
  destruct (worker_loop_spec net tasks (initial start))
    as (st & Hst & Hkeys & _ & Hcalls & Hprog).
  exists st. auto.
Qed.

Lemma merge_keeps (locals : list (result (state (Id := Id)))) (order : list nat) :
  forall (acc : gmap (string * Id) dict) k,
  is_Some (acc !! k) ->
  is_Some (fold_left (fun merged i =>
               match locals !! i with
               | Some (Ok st) => results st ∪ merged
               | _ => merged
               end) order acc !! k).
Proof.
  induction order as [|i order IH]; intros acc k Hk; [exact Hk|].
  cbn [fold_left]. apply IH.
  destruct (locals !! i) as [[st|]|]; try exact Hk.
  apply lookup_union_is_Some. now right.
Qed.

Lemma merge_has_key (locals : list (result (state (Id := Id)))) order i st k :
  In i order -> locals !! i = Some (Ok st) -> is_Some (results st !! k) ->
  is_Some (merge locals order !! k).
Proof.
  unfold merge. generalize (∅ : gmap (string * Id) dict).
  induction order as [|j order IH]; intros acc Hin Hi Hk; [destruct Hin|].
  cbn [fold_left]. destruct Hin as [-> | Hin].
  - rewrite Hi. apply merge_keeps, lookup_union_is_Some. now left.
  - now apply IH.
Qed.

Lemma parallel_spec nets n order start tasks cb :
  (0 < n)%nat ->
  exists r,
    _fetch_monitoring_parallel nets n order start tasks cb = Ok r /\
    length (workers r) = n /\
    (forall k, (k < n)%nat ->
       exists st, workers r !! k = Some (Ok st) /\
                  calls_of (events st) = queue_of n k tasks /\
                  progress_of (events st) = [] /\
                  has_keys (results st) (queue_of n k tasks)) /\
    parallel_progress r = [] /\
    (Permutation order (seq 0 n) -> has_keys (merged r) tasks).
Proof.
  intros Hn. unfold _fetch_monitoring_parallel.
  destruct (distribute_spec n tasks Hn) as (queues & -> & Hlen & Hq).
  cbn [mbind result_bind]. eexists. split; [reflexivity|].
  cbn [workers merged].
  set (locals := imap (fun i q => worker (nets i) start q) queues).
  assert (Hw : forall k, (k < n)%nat ->
    exists st, locals !! k = Some (Ok st) /\
               calls_of (events st) = queue_of n k tasks /\
               progress_of (events st) = [] /\
               has_keys (results st) (queue_of n k tasks)).
  { intros k Hk. unfold locals. rewrite list_lookup_imap, (Hq k Hk). cbn.
    destruct (worker_spec (nets k) start (queue_of n k tasks))
      as (st & -> & Hkeys & Hcalls & Hprog).
    exists st. auto. }
  assert (Hlocals : length locals = n) by (unfold locals; now rewrite length_imap).
  split; [exact Hlocals|]. split; [exact Hw|]. split.
  - unfold parallel_progress. cbn [workers].
    rewrite flat_map_concat_map. apply concat_nil_Forall, Forall_map, Forall_lookup.
    intros k w Hk.
    destruct (Hw k) as (st & Hst & _ & Hprog & _).
    { rewrite <- Hlocals. eapply lookup_lt_Some, Hk. }
    rewrite Hst in Hk. inversion Hk; subst. exact Hprog.
  - intros Hperm t Ht.
    destruct (in_strided n tasks 0 t Hn Ht) as (k & Hk & Hin).
    destruct (Hw k Hk) as (st & Hst & _ & _ & Hkeys).
    eapply merge_has_key; [|exact Hst|apply Hkeys, Hin].
    eapply Permutation_in; [symmetry; exact Hperm|]. apply in_seq. lia.
Qed.

End WithId.


(** The reports of a run, for every batch: one after each task in the
    sequential path, none in the parallel path. *)
Lemma batch_reports {Id : Type} `{Countable Id} (F : FloatOps)
    (nets : nat -> network) (n : nat) (order : list nat) (start : Z)
    (tasks : list (task Id)) :
  exists m,
    fetch_monitoring_batch nets n order start tasks true =
    Ok (m, if (1 <? n)%nat then []
           else reports 0 (Z.of_nat (length tasks)) (length tasks)).
Proof.
  unfold fetch_monitoring_batch. destruct (Nat.ltb_spec 1 n) as [Hn | Hn].
  - destruct (parallel_spec nets n order start tasks true)
      as (r & Hr & _ & _ & Hp & _); [lia|].
    rewrite Hr. cbn [mbind result_bind]. rewrite Hp. eauto.
  - destruct (sequential_spec (nets O) start tasks true) as (st & Hst & _ & _ & Hp).
    rewrite Hst. cbn [mbind result_bind]. rewrite Hp. eauto.
Qed.

(** The workers of a parallel run ask for the tasks of their queue in the
    order of the queue. *)
Lemma parallel_workers_keep_order {Id : Type} `{Countable Id} (F : FloatOps)
    (nets : nat -> network) (n : nat) (order : list nat) (start : Z)
    (tasks : list (task Id)) (progress_callback : bool) (k : nat) :
  (k < n)%nat ->
  exists r st,
    _fetch_monitoring_parallel nets n order start tasks progress_callback = Ok r /\
    workers r !! k = Some (Ok st) /\
    calls_of (events st) = queue_of n k tasks.
Proof.
  intros Hk.
  destruct (parallel_spec nets n order start tasks progress_callback)
    as (r & Hr & _ & Hw & _); [lia|].
  destruct (Hw k Hk) as (st & Hst & Hcalls & _).
  exists r, st. auto.
Qed.

Module Examples.
Import MonitoringParserSpec.

(** Five tasks of three route lists; the vehicle 101 is in three of them. *)
Definition t0 : task Z := mktask "17_25.01.2026" 101 JNull (JStr "Тягач") (JStr "25.01.2026 08:00") (JStr "25.01.2026 19:30").
Definition t1 : task Z := mktask "17_25.01.2026" 102 JNull (JStr "Тягач") (JStr "25.01.2026 08:00") (JStr "25.01.2026 19:30").
Definition t2 : task Z := mktask "18_26.01.2026" 101 JNull (JStr "Тягач") (JStr "26.01.2026 08:00") (JStr "26.01.2026 19:30").
Definition t3 : task Z := mktask "18_26.01.2026" 103 JNull (JStr "Тягач") (JStr "26.01.2026 08:00") (JStr "26.01.2026 19:30").
Definition t4 : task Z := mktask "19_27.01.2026" 104 JNull (JStr "Тягач") (JStr "27.01.2026 08:00") (JStr "27.01.2026 19:30").

(** A server that knows none of the vehicles and answers in a second. *)
Definition not_found : nat -> network := fun _ _ => (Raise NotFoundError, 1).


(** C3: with two tokens the worker of the first token gets the tasks 0, 2
    and 4 and asks for them in that order, the vehicle 101 twice in a row;
    the interleaver would have put the vehicle 104 between them. *)
Theorem parallel_worker_keeps_queue_order :
  exists r st0 st1,
    _fetch_monitoring_parallel (H0 := no_arithmetic) not_found 2 [0; 1]%nat 0
      [t0; t1; t2; t3; t4] false = Ok r /\
    workers r !! 0%nat = Some (Ok st0) /\
    workers r !! 1%nat = Some (Ok st1) /\
    calls_of (events st0) = [t0; t2; t4] /\
    calls_of (events st1) = [t1; t3] /\
    _reorder_tasks_for_rate_limit [t0; t2; t4] = [t0; t4; t2].
Proof.
  destruct (parallel_spec (H0 := no_arithmetic) not_found 2 [0; 1]%nat 0
              [t0; t1; t2; t3; t4] false)
    as (r & Hr & _ & Hw & _); [lia|].
  destruct (Hw 0%nat) as (st0 & Hst0 & Hc0 & _); [lia|].
  destruct (Hw 1%nat) as (st1 & Hst1 & Hc1 & _); [lia|].
  exists r, st0, st1. repeat split; assumption || reflexivity.
Qed.

(** C4: with one token the callback is called after each of the two tasks,
    with two tokens it is not called at all. *)
Theorem progress_callback_ignored_by_parallel_path :
  (exists m,
     fetch_monitoring_batch (H0 := no_arithmetic) not_found 1 [0]%nat 0 [t0; t1] true
       = Ok (m, [(1, 2); (2, 2)])) /\
  (exists m,
     fetch_monitoring_batch (H0 := no_arithmetic) not_found 2 [0; 1]%nat 0 [t0; t1] true
       = Ok (m, [])).
Proof.
  split.
  - exact (batch_reports no_arithmetic not_found 1 [0]%nat 0 [t0; t1]).
  - exact (batch_reports no_arithmetic not_found 2 [0; 1]%nat 0 [t0; t1]).
Qed.

End Examples.

End FetcherSpec.

(* ===================================================================== *)
(** * Further properties of the code *)
(* ===================================================================== *)

(* ===================================================================== *)
(** * Formatting and parsing dates *)
(* ===================================================================== *)

Module FormatFacts.
Import Datetime DatetimeFacts.

(** *** The characters of a formatted date *)

Fixpoint count_char (c : ascii) (s : string) : nat :=
  match s with
  | "" => O
  | String a s' => ((if Ascii.eqb c a then 1 else 0) + count_char c s')%nat
  end.

(** The number of literal [c]s a format asks for. *)
Fixpoint lits (c : ascii) (fmt : list directive) : nat :=
  match fmt with
  | [] => O
  | Lit a :: fmt' => ((if Ascii.eqb c a then 1 else 0) + lits c fmt')%nat
  | _ :: fmt' => lits c fmt'
  end.

(** A date as it is written in a request, the year with four digits,
    and the same followed by a time.  [strftime] prints a date this way
    from the year 1000 on. *)
Definition written_date (dt : datetime) : string :=
  Str.pad2 (day dt) ++ "." ++ Str.pad2 (month dt) ++ "." ++ Str.pad4 (year dt).

Definition written_datetime (dt : datetime) : string :=
  written_date dt ++ " " ++ Str.pad2 (hour dt) ++ ":" ++ Str.pad2 (minute dt).

Lemma strftime_written_date dt : 1000 <= year dt -> strftime_dmY dt = written_date dt.
Proof. intros Hy. unfold strftime_dmY, written_date. now rewrite decimal_four. Qed.

Lemma strftime_written_datetime dt :
  1000 <= year dt -> strftime_dmY_HM dt = written_datetime dt.
Proof.
  intros Hy. unfold strftime_dmY_HM, written_datetime. now rewrite strftime_written_date.
Qed.

Lemma append_assoc (a b c : string) : (a ++ b) ++ c = a ++ b ++ c.
Proof. induction a as [|x a IH]; [reflexivity|]. now rewrite !append_cons, IH. Qed.

Lemma count_char_app c a b :
  count_char c (a ++ b) = (count_char c a + count_char c b)%nat.
Proof.
  induction a as [|x a IH]; [reflexivity|].
  rewrite append_cons. cbn [count_char]. rewrite IH. lia.
Qed.

Lemma digit_plain k :
  0 <= k <= 9 ->
  Str.is_space (Str.digit_char k) = false /\
  Ascii.eqb ":" (Str.digit_char k) = false /\
  Ascii.eqb (Str.digit_char k) "." = false /\
  Ascii.eqb (Str.digit_char k) "_" = false.
Proof. intros Hk. digit_cases k; repeat split; reflexivity || lia. Qed.

Lemma digit_mod_plain n :
  Str.is_space (Str.digit_char (n mod 10)) = false /\
  Ascii.eqb ":" (Str.digit_char (n mod 10)) = false /\
  Ascii.eqb (Str.digit_char (n mod 10)) "." = false /\
  Ascii.eqb (Str.digit_char (n mod 10)) "_" = false.
Proof. apply digit_plain. pose proof (Z.mod_pos_bound n 10 ltac:(lia)). lia. Qed.

Lemma is_space_digit n : Str.is_space (Str.digit_char (n mod 10)) = false.
Proof. apply digit_mod_plain. Qed.

Lemma colon_digit n : Ascii.eqb ":" (Str.digit_char (n mod 10)) = false.
Proof. apply digit_mod_plain. Qed.

Lemma dot_digit n : Ascii.eqb (Str.digit_char (n mod 10)) "." = false.
Proof. apply digit_mod_plain. Qed.

Lemma underscore_digit n : Ascii.eqb (Str.digit_char (n mod 10)) "_" = false.
Proof. apply digit_mod_plain. Qed.

Lemma count_colon_pad2 n : count_char ":" (Str.pad2 n) = O.
Proof. unfold Str.pad2. cbn [count_char]. now rewrite !colon_digit. Qed.

Lemma count_colon_pad4 n : count_char ":" (Str.pad4 n) = O.
Proof.
  unfold Str.pad4. cbn [count_char]. rewrite !colon_digit.
  now rewrite count_colon_pad2.
Qed.

Lemma count_colon_date dt : count_char ":" (written_date dt) = O.
Proof.
  unfold written_date.
  rewrite !count_char_app, !count_colon_pad2, count_colon_pad4. reflexivity.
Qed.

Lemma count_colon_datetime dt : count_char ":" (written_datetime dt) = 1%nat.
Proof.
  unfold written_datetime.
  rewrite !count_char_app, count_colon_date, !count_colon_pad2. reflexivity.
Qed.

(** *** What a match leaves unread is a suffix of the input *)

Lemma match_classes_suffix cls : forall s acc v r,
  In (v, r) (match_classes cls s acc) -> exists p, s = p ++ r.
Proof.
  induction cls as [|q cls IH]; intros s acc v r Hin; cbn [match_classes] in Hin.
  - destruct Hin as [[= _ <-]|[]]. now exists "".
  - destruct s as [|c s]; [destruct Hin|].
    destruct (q c); [|destruct Hin].
    apply IH in Hin as (p & ->). now exists (String c p).
Qed.

Lemma alternatives_suffix alts s v r :
  In (v, r) (alternatives alts s) -> exists p, s = p ++ r.
Proof.
  unfold alternatives. intros (cls & _ & Hin)%in_flat_map.
  eapply match_classes_suffix, Hin.
Qed.

Lemma spaces_star_suffix s : forall r, In r (spaces_star s) -> exists p, s = p ++ r.
Proof.
  induction s as [|c s IH]; intros r Hin; cbn [spaces_star] in Hin.
  - destruct Hin as [<-|[]]. now exists "".
  - destruct (Str.is_space c).
    + apply in_app_or in Hin as [Hin|[<-|[]]].
      * apply IH in Hin as (p & ->). now exists (String c p).
      * now exists "".
    + destruct Hin as [<-|[]]. now exists "".
Qed.

(** A literal reads exactly its character. *)
Lemma match_directive_suffix dv f s f' r :
  In (f', r) (match_directive dv f s) ->
  exists p, s = p ++ r /\
            match dv with Lit c => p = String c "" | _ => True end.
Proof.
  destruct dv; cbn [match_directive];
    try (intros ([v r'] & [= _ <-] & Hin)%in_map_iff;
         apply alternatives_suffix in Hin as (p & ->); now exists p).
  - destruct s as [|c' s]; [intros []|].
    destruct (Ascii.eqb_spec c c') as [<-|]; [|intros []].
    intros [[= _ <-]|[]]. now exists (String c "").
  - intros (r' & [= _ <-] & Hin)%in_map_iff.
    unfold spaces_plus in Hin. destruct s as [|c s]; [destruct Hin|].
    destruct (Str.is_space c); [|destruct Hin].
    apply spaces_star_suffix in Hin as (p & ->). now exists (String c p).
Qed.

(** Every match of a format reads its literals from the input. *)
Lemma match_format_count c fmt : forall f s f' r,
  In (f', r) (match_format fmt f s) ->
  (lits c fmt + count_char c r <= count_char c s)%nat.
Proof.
  induction fmt as [|dv fmt IH]; intros f s f' r Hin; cbn [match_format] in Hin.
  - destruct Hin as [[= _ <-]|[]]. cbn [lits]. lia.
  - apply in_flat_map in Hin as ([f1 r1] & H1 & H2).
    apply IH in H2. apply match_directive_suffix in H1 as (p & -> & Hp).
    rewrite count_char_app.
    destruct dv; cbn [lits]; try lia.
    subst p. cbn [count_char]. lia.
Qed.

Lemma strptime_too_few c s fmt :
  (count_char c s < lits c fmt)%nat -> strptime s fmt = Raise ValueError.
Proof.
  intros Hlt. unfold strptime.
  destruct (match_format fmt fields0 s) as [|[f r] tl] eqn:E; [reflexivity|].
  pose proof (match_format_count c fmt fields0 s f r) as Hc.
  rewrite E in Hc. specialize (Hc (or_introl eq_refl)). lia.
Qed.

(** *** Reading back the time of day *)

Lemma match_hour f h rest :
  0 <= h <= 23 ->
  exists tl, match_directive DH f (Str.pad2 h ++ rest) =
             (mkfields (f_d f) (f_m f) (f_Y f) h (f_M f) (f_S f), rest) :: tl.
Proof.
  intros Hh.
  assert (Hc : exists n : nat, h = Z.of_nat n /\ (n <= 23)%nat)
    by (exists (Z.to_nat h); lia).
  destruct Hc as (n & -> & Hn). unfold Str.pad2. norm_append.
  do 24 (destruct n as [|n]; [eexists; reflexivity|]). lia.
Qed.

Lemma match_minute f mi rest :
  0 <= mi <= 59 ->
  exists tl, match_directive DM f (Str.pad2 mi ++ rest) =
             (mkfields (f_d f) (f_m f) (f_Y f) (f_H f) mi (f_S f), rest) :: tl.
Proof.
  intros Hh.
  assert (Hc : exists n : nat, mi = Z.of_nat n /\ (n <= 59)%nat)
    by (exists (Z.to_nat mi); lia).
  destruct Hc as (n & -> & Hn). unfold Str.pad2. norm_append.
  do 60 (destruct n as [|n]; [eexists; reflexivity|]). lia.
Qed.

Lemma match_blank f n rest :
  match_directive Ws f (String " " (Str.pad2 n ++ rest)) = [(f, Str.pad2 n ++ rest)].
Proof.
  unfold Str.pad2. norm_append. cbn [match_directive spaces_plus].
  change (Str.is_space " ") with true. cbn [spaces_star].
  now rewrite is_space_digit.
Qed.

(** The date part of a format on a written date, followed by more. *)
Lemma match_date_head dt fmt rest f2 r2 :
  valid_date (year dt) (month dt) (day dt) = true ->
  (exists tl2, match_format fmt (mkfields (day dt) (month dt) (year dt) 0 0 0) rest
               = (f2, r2) :: tl2) ->
  exists tl, match_format (fmt_dmY ++ fmt)%list fields0 (written_date dt ++ rest)
             = (f2, r2) :: tl.
Proof.
  intros Hv Hrest. destruct (valid_date_bounds _ _ _ Hv) as (Hy & Hm & Hd & Hd').
  unfold written_date, fmt_dmY. rewrite !append_assoc. cbn [app].
  destruct (match_day fields0 (day dt)
              ("." ++ Str.pad2 (month dt) ++ "." ++ Str.pad4 (year dt) ++ rest))
    as (tl1 & H1); [lia|].
  destruct (match_month (mkfields (day dt) 1 1900 0 0 0) (month dt)
              ("." ++ Str.pad4 (year dt) ++ rest))
    as (tl2 & H2); [lia|].
  pose proof (match_year (mkfields (day dt) (month dt) 1900 0 0 0) (year dt) rest
                ltac:(lia)) as H3.
  cbn [f_d f_m f_Y f_H f_M f_S] in H1, H2, H3.
  eapply match_format_head; [exact H1|].
  norm_append. eapply match_format_head; [reflexivity|].
  eapply match_format_head; [exact H2|].
  norm_append. eapply match_format_head; [reflexivity|].
  eapply match_format_head; [exact H3|].
  exact Hrest.
Qed.

Lemma strptime_written_date dt :
  valid_date (year dt) (month dt) (day dt) = true ->
  strptime (written_date dt) fmt_dmY =
  Ok (mkdt (year dt) (month dt) (day dt) 0 0 0 0).
Proof.
  intros Hv. unfold strptime.
  destruct (match_date_head dt [] "" (mkfields (day dt) (month dt) (year dt) 0 0 0) "" Hv)
    as (tl & Hm); [cbn [match_format]; eauto|].
  rewrite app_nil_r, append_nil_r in Hm. rewrite Hm.
  cbn [f_d f_m f_Y f_H f_M f_S]. unfold valid.
  cbn [year month day hour minute second microsecond].
  rewrite Hv. reflexivity.
Qed.

Lemma strptime_written_datetime dt :
  valid dt = true ->
  strptime (written_datetime dt) fmt_dmY_HM =
  Ok (mkdt (year dt) (month dt) (day dt) (hour dt) (minute dt) 0 0).
Proof.
  intros Hv. pose proof (ShiftsSpec.valid_bounds dt Hv) as Hb.
  pose proof (ShiftsSpec.valid_date_of dt Hv) as Hd.
  unfold strptime, written_datetime, fmt_dmY_HM.
  edestruct (match_date_head dt [Ws; DH; Lit ":"; DM]) as (tl & ->); [exact Hd| |].
  { norm_append. eapply match_format_head; [apply match_blank|].
    destruct (match_hour (mkfields (day dt) (month dt) (year dt) 0 0 0) (hour dt)
                (":" ++ Str.pad2 (minute dt))) as (tl1 & H1); [lia|].
    eapply match_format_head; [exact H1|].
    norm_append. eapply match_format_head; [reflexivity|].
    destruct (match_minute (mkfields (day dt) (month dt) (year dt) (hour dt) 0 0)
                (minute dt) "") as (tl2 & H2); [lia|].
    rewrite append_nil_r in H2.
    eapply match_format_head; [exact H2|].
    cbn [match_format]. eauto. }
  cbn [f_d f_m f_Y f_H f_M f_S].
  rewrite ShiftsSpec.valid_at; [reflexivity|exact Hd|lia|lia].
Qed.

(** The format of a date leaves the time of a written datetime unread. *)
Lemma strptime_date_refuses_time dt :
  valid_date (year dt) (month dt) (day dt) = true ->
  strptime (written_datetime dt) fmt_dmY = Raise ValueError.
Proof.
  intros Hd. unfold strptime, written_datetime.
  destruct (match_date_head dt [] (" " ++ Str.pad2 (hour dt) ++ ":" ++ Str.pad2 (minute dt))
              (mkfields (day dt) (month dt) (year dt) 0 0 0)
              (" " ++ Str.pad2 (hour dt) ++ ":" ++ Str.pad2 (minute dt)) Hd)
    as (tl & Hm).
  { cbn [match_format]. eauto. }
  rewrite app_nil_r in Hm. rewrite Hm. reflexivity.
Qed.

Lemma strptime_HMS_refuses_minutes dt :
  strptime (written_datetime dt) fmt_dmY_HMS = Raise ValueError.
Proof.
  apply (strptime_too_few ":"). rewrite count_colon_datetime. cbn. lia.
Qed.

Lemma strptime_HMS_refuses_date dt :
  strptime (written_date dt) fmt_dmY_HMS = Raise ValueError.
Proof.
  apply (strptime_too_few ":"). rewrite count_colon_date. cbn. lia.
Qed.

Lemma strptime_HM_refuses_date dt :
  strptime (written_date dt) fmt_dmY_HM = Raise ValueError.
Proof.
  apply (strptime_too_few ":"). rewrite count_colon_date. cbn. lia.
Qed.

(** *** A year before 1000 is printed too short for every format *)

Lemma short_date_unread dt fmt :
  valid_date (year dt) (month dt) (day dt) = true -> year dt < 1000 ->
  strptime (strftime_dmY dt) (fmt_dmY ++ fmt)%list = Raise ValueError.
Proof.
  intros Hv Hy. rewrite <- (append_nil_r (strftime_dmY dt)).
  now apply strptime_short_year.
Qed.

Lemma short_datetime_unread dt fmt :
  valid_date (year dt) (month dt) (day dt) = true -> year dt < 1000 ->
  strptime (strftime_dmY_HM dt) (fmt_dmY ++ fmt)%list = Raise ValueError.
Proof. intros Hv Hy. now apply strptime_short_year. Qed.

(** *** [strip] leaves a date alone *)

Lemma strip_date dt : Str.strip (written_date dt) = written_date dt.
Proof.
  unfold written_date, Str.pad4, Str.pad2. norm_append.
  unfold Str.strip. cbn [Str.lstrip]. rewrite is_space_digit.
  cbn [Str.rev_str Str.lstrip]. rewrite is_space_digit. reflexivity.
Qed.

Lemma strip_datetime dt : Str.strip (written_datetime dt) = written_datetime dt.
Proof.
  unfold written_datetime, written_date, Str.pad4, Str.pad2.
  repeat (progress norm_append). unfold Str.strip. cbn [Str.lstrip]. rewrite is_space_digit.
  cbn [Str.rev_str Str.lstrip]. rewrite is_space_digit. reflexivity.
Qed.

Lemma strip_short_date dt :
  0 <= year dt < 1000 -> Str.strip (strftime_dmY dt) = strftime_dmY dt.
Proof.
  intros Hy. unfold strftime_dmY, Str.pad2.
  destruct (decimal_short _ Hy) as (a & Ha & [->|(b & Hb & [->|(c & Hc & ->)])]);
    norm_append; unfold Str.strip; cbn [Str.lstrip]; rewrite is_space_digit;
    cbn [Str.rev_str Str.lstrip];
    [destruct (digit_plain a Ha) as (-> & _)
    |destruct (digit_plain b Hb) as (-> & _)
    |destruct (digit_plain c Hc) as (-> & _)]; reflexivity.
Qed.

Lemma strip_short_datetime dt :
  0 <= year dt < 1000 -> Str.strip (strftime_dmY_HM dt) = strftime_dmY_HM dt.
Proof.
  intros Hy. unfold strftime_dmY_HM, strftime_dmY, Str.pad2.
  destruct (decimal_short _ Hy) as (a & Ha & [->|(b & Hb & [->|(c & Hc & ->)])]);
    repeat (progress norm_append); unfold Str.strip; cbn [Str.lstrip];
    rewrite is_space_digit; cbn [Str.rev_str Str.lstrip]; rewrite is_space_digit;
    reflexivity.
Qed.

Lemma date_nonempty dt : String.eqb (strftime_dmY dt) "" = false.
Proof. unfold strftime_dmY, Str.pad2. now norm_append. Qed.

Lemma datetime_nonempty dt : String.eqb (strftime_dmY_HM dt) "" = false.
Proof.
  unfold strftime_dmY_HM, strftime_dmY, Str.pad2. now repeat (progress norm_append).
Qed.

Lemma written_date_nonempty dt : String.eqb (written_date dt) "" = false.
Proof. unfold written_date, Str.pad2. now norm_append. Qed.

Lemma written_datetime_nonempty dt : String.eqb (written_datetime dt) "" = false.
Proof.
  unfold written_datetime, written_date, Str.pad2. now repeat (progress norm_append).
Qed.

End FormatFacts.

Module ShiftsRoundTrip.
Import Datetime Shifts DatetimeFacts FormatFacts ShiftsSpec.

(** The datetime [parse_datetime] reads from a string without seconds. *)
Definition to_minute (dt : datetime) : datetime :=
  mkdt (year dt) (month dt) (day dt) (hour dt) (minute dt) 0 0.

Definition midnight (dt : datetime) : datetime :=
  mkdt (year dt) (month dt) (day dt) 0 0 0 0.

Lemma parse_datetime_formatted s dt :
  String.eqb s "" = false -> Str.strip s = s ->
  strptime s fmt_dmY_HMS = Raise ValueError ->
  strptime s fmt_dmY_HM = Ok dt ->
  parse_datetime s = Some dt.
Proof.
  intros Hne Hs H1 H2. unfold parse_datetime. rewrite Hne, Hs, H1, H2. reflexivity.
Qed.

Lemma parse_datetime_date s dt :
  String.eqb s "" = false -> Str.strip s = s ->
  strptime s fmt_dmY_HMS = Raise ValueError ->
  strptime s fmt_dmY_HM = Raise ValueError ->
  strptime s fmt_dmY = Ok dt ->
  parse_datetime s = Some dt.
Proof.
  intros Hne Hs H1 H2 H3. unfold parse_datetime. rewrite Hne, Hs, H1, H2, H3. reflexivity.
Qed.

(** The three formats start with the date. *)
Lemma parse_datetime_unread s :
  Str.strip s = s ->
  (forall fmt, strptime s (fmt_dmY ++ fmt)%list = Raise ValueError) ->
  parse_datetime s = None.
Proof.
  intros Hs Hall. unfold parse_datetime.
  destruct (String.eqb s ""); [reflexivity|]. rewrite Hs.
  pose proof (Hall [Ws; DH; Lit ":"; DM; Lit ":"; DS]) as H1.
  pose proof (Hall [Ws; DH; Lit ":"; DM]) as H2.
  pose proof (Hall []) as H3. rewrite app_nil_r in H3.
  change (fmt_dmY ++ [Ws; DH; Lit ":"; DM; Lit ":"; DS])%list with fmt_dmY_HMS in H1.
  change (fmt_dmY ++ [Ws; DH; Lit ":"; DM])%list with fmt_dmY_HM in H2.
  now rewrite H1, H2, H3.
Qed.

Lemma parse_written_datetime dt :
  valid dt = true -> parse_datetime (written_datetime dt) = Some (to_minute dt).
Proof.
  intros Hv. apply parse_datetime_formatted.
  - apply written_datetime_nonempty.
  - apply strip_datetime.
  - apply strptime_HMS_refuses_minutes.
  - now apply strptime_written_datetime.
Qed.

Lemma parse_written_date dt :
  valid_date (year dt) (month dt) (day dt) = true ->
  parse_datetime (written_date dt) = Some (midnight dt).
Proof.
  intros Hv. apply parse_datetime_date.
  - apply written_date_nonempty.
  - apply strip_date.
  - apply strptime_HMS_refuses_date.
  - apply strptime_HM_refuses_date.
  - now apply strptime_written_date.
Qed.

Lemma parse_datetime_minutes dt :
  valid dt = true -> 1000 <= year dt ->
  parse_datetime (strftime_dmY_HM dt) = Some (to_minute dt).
Proof.
  intros Hv Hy. rewrite strftime_written_datetime by assumption.
  now apply parse_written_datetime.
Qed.

Lemma parse_datetime_day dt :
  valid_date (year dt) (month dt) (day dt) = true -> 1000 <= year dt ->
  parse_datetime (strftime_dmY dt) = Some (midnight dt).
Proof.
  intros Hv Hy. rewrite strftime_written_date by assumption.
  now apply parse_written_date.
Qed.

Lemma parse_short_datetime dt :
  valid_date (year dt) (month dt) (day dt) = true -> year dt < 1000 ->
  parse_datetime (strftime_dmY_HM dt) = None.
Proof.
  intros Hv Hy. pose proof (valid_date_bounds _ _ _ Hv) as (Hy' & _).
  apply parse_datetime_unread.
  - apply strip_short_datetime. lia.
  - intros fmt. now apply short_datetime_unread.
Qed.

Lemma parse_short_date dt :
  valid_date (year dt) (month dt) (day dt) = true -> year dt < 1000 ->
  parse_datetime (strftime_dmY dt) = None.
Proof.
  intros Hv Hy. pose proof (valid_date_bounds _ _ _ Hv) as (Hy' & _).
  apply parse_datetime_unread.
  - apply strip_short_date. lia.
  - intros fmt. now apply short_date_unread.
Qed.

(** X1.  [parse_datetime] reads a date and time written with a year of four
    digits, up to the minute.  From the year 1000 on [format_datetime]
    prints exactly that, so [parse_datetime] reads back what it printed,
    up to the seconds, which the format drops; before the year 1000 the
    year is printed with fewer digits and [parse_datetime] reads nothing
    from it.  Printing the datetime cut to the minute gives the same
    string. *)
Theorem parse_format_datetime (dt : datetime) :
  valid dt = true ->
  parse_datetime (written_datetime dt) = Some (to_minute dt) /\
  (1000 <= year dt ->
     format_datetime dt = written_datetime dt /\
     parse_datetime (format_datetime dt) = Some (to_minute dt)) /\
  (year dt < 1000 -> parse_datetime (format_datetime dt) = None) /\
  valid (to_minute dt) = true /\
  format_datetime (to_minute dt) = format_datetime dt.
Proof.
  intros Hv. pose proof (valid_date_of dt Hv) as Hd.
  split; [now apply parse_written_datetime|].
  split; [intros Hy; split;
            [now apply strftime_written_datetime|now apply parse_datetime_minutes]|].
  split; [intros Hy; now apply parse_short_datetime|].
  split; [|reflexivity].
  pose proof (valid_bounds dt Hv). apply valid_at; [assumption|lia..].
Qed.

Lemma parse_format_datetime_witness :
  parse_datetime (format_datetime (mkdt 2026 1 25 8 5 59 7)) =
    Some (mkdt 2026 1 25 8 5 0 0) /\
  parse_datetime (format_datetime (mkdt 987 6 5 8 5 59 7)) = None.
Proof.
  split.
  - apply (parse_format_datetime (mkdt 2026 1 25 8 5 59 7)); [reflexivity|]. cbn. lia.
  - apply (parse_format_datetime (mkdt 987 6 5 8 5 59 7)); [reflexivity|]. cbn. lia.
Defined.

(** X2.  A date written with a year of four digits is read by
    [parse_datetime] as the midnight of that day: the two formats with a
    time refuse it, the third accepts it.  [format_date] prints a date
    this way from the year 1000 on; the date it prints for a year before
    1000 is not read. *)
Theorem parse_format_date (dt : datetime) :
  valid_date (year dt) (month dt) (day dt) = true ->
  strptime (written_date dt) fmt_dmY_HMS = Raise ValueError /\
  strptime (written_date dt) fmt_dmY_HM = Raise ValueError /\
  parse_datetime (written_date dt) = Some (midnight dt) /\
  (1000 <= year dt ->
     format_date dt = written_date dt /\
     parse_datetime (format_date dt) = Some (midnight dt)) /\
  (year dt < 1000 -> parse_datetime (format_date dt) = None).
Proof.
  intros Hv. unfold format_date.
  split; [apply strptime_HMS_refuses_date|].
  split; [apply strptime_HM_refuses_date|].
  split; [now apply parse_written_date|].
  split; [intros Hy; split;
            [now apply strftime_written_date|now apply parse_datetime_day]|].
  intros Hy. now apply parse_short_date.
Qed.

Lemma parse_format_date_witness :
  parse_datetime (format_date (mkdt 2024 2 29 13 0 0 0)) = Some (mkdt 2024 2 29 0 0 0 0) /\
  parse_datetime (format_date (mkdt 987 6 5 13 0 0 0)) = None.
Proof.
  split.
  - apply (parse_format_date (mkdt 2024 2 29 13 0 0 0)); [reflexivity|]. cbn. lia.
  - apply (parse_format_date (mkdt 987 6 5 13 0 0 0)); [reflexivity|]. cbn. lia.
Defined.

Lemma key_of_moment c :
  valid c = true -> stamp FIRST <= stamp c ->
  exists shift_key, get_shift_key c (get_shift_type c) = Ok shift_key.
Proof.
  intros Hv Hlo. pose proof (valid_bounds c Hv) as Hb.
  rewrite (stamp_eq c) in Hlo. unfold day_stamp in Hlo. rewrite stamp_FIRST in Hlo.
  unfold get_shift_key, get_shift_type, MORNING_START, MORNING_END. cbn [fst snd].
  destruct (_ && _); [eexists; reflexivity|].
  change ("evening" =? "evening")%string with true. cbv iota.
  destruct ((hour c <? 7) || (hour c =? 7) && (minute c <? 30)) eqn:He;
    [|eexists; reflexivity].
  unfold sub_day, prev_date, MINYEAR.
  destruct (Z.ltb_spec 1 (day c)); [|destruct (Z.ltb_spec 1 (month c))].
  - destruct (Z.leb_spec 1 (year c)); [eexists; reflexivity|lia].
  - destruct (Z.leb_spec 1 (year c)); [eexists; reflexivity|lia].
  - destruct (Z.leb_spec 1 (year c - 1)); [eexists; reflexivity|].
    exfalso. assert (year c = 1) by lia. assert (month c = 1) by lia.
    assert (day c = 1) by lia.
    unfold time_val in Hlo. assert (hour c * 60 + minute c < 450); [|nia].
    apply orb_true_iff in He as [He|He].
    + apply Z.ltb_lt in He. lia.
    + apply andb_true_iff in He as (H7%Z.eqb_eq & H30%Z.ltb_lt). lia.
Qed.

(** X3.  Every moment from [FIRST] on and before [LAST] has a shift key.
    From [FIRST_KEYED] on the key is read back and the shift it
    describes contains the moment; before it the day of the shift lies
    in a year before 1000 and [get_shift_boundaries] refuses the key. *)
Theorem shift_contains_its_moment (c : datetime) :
  valid c = true -> leb FIRST c = true -> ltb c LAST = true ->
  exists shift_key,
    get_shift_key c (get_shift_type c) = Ok shift_key /\
    if ltb c FIRST_KEYED
    then get_shift_boundaries shift_key = Raise ValueError
    else exists shift_start shift_end,
           get_shift_boundaries shift_key = Ok (shift_start, shift_end) /\
           leb shift_start c = true /\ ltb c shift_end = true.
Proof.
  intros Hv Hf Hl.
  assert (HvF : valid FIRST = true) by reflexivity.
  assert (HvK : valid FIRST_KEYED = true) by reflexivity.
  assert (HvL : valid LAST = true) by reflexivity.
  rewrite leb_stamp in Hf by assumption. rewrite ltb_stamp in Hl by assumption.
  apply Z.leb_le in Hf. apply Z.ltb_lt in Hl.
  destruct (key_of_moment c Hv Hf) as (k & Hk). exists k. split; [exact Hk|].
  pose proof (shift_of_spec c Hv) as Hs. rewrite Hk in Hs. cbn [mbind result_bind] in Hs.
  rewrite ltb_stamp by assumption.
  destruct (Z.ltb_spec (stamp c) (stamp FIRST_KEYED)) as [Hshort|Hkeyed].
  - rewrite (shift_of_unkeyed c Hv Hf Hshort) in Hs.
    destruct (get_shift_boundaries k) as [[s e]|err]; [discriminate|].
    cbn [mbind result_bind] in Hs. congruence.
  - destruct (shift_of_in_range c Hv Hkeyed Hl) as (k' & s & e & Hs').
    destruct (shift_of_ok c k' s e Hv Hs') as (Hvs & Hve & Hin & _).
    rewrite Hs' in Hs.
    destruct (get_shift_boundaries k) as [[s' e']|err]; [|discriminate].
    cbn [mbind result_bind] in Hs. injection Hs as <- <- <-.
    exists s', e'. split; [reflexivity|].
    rewrite leb_stamp, ltb_stamp, Z.leb_le, Z.ltb_lt by assumption. lia.
Qed.

Lemma shift_contains_its_moment_witness :
  exists shift_key,
    get_shift_key (mkdt 2026 1 26 3 0 0 0) (get_shift_type (mkdt 2026 1 26 3 0 0 0))
      = Ok shift_key /\
    exists shift_start shift_end,
      get_shift_boundaries shift_key = Ok (shift_start, shift_end) /\
      leb shift_start (mkdt 2026 1 26 3 0 0 0) = true /\
      ltb (mkdt 2026 1 26 3 0 0 0) shift_end = true.
Proof.
  apply (shift_contains_its_moment (mkdt 2026 1 26 3 0 0 0)); reflexivity.
Defined.

(** X4.  A period that is empty or reversed gives no shift.  Otherwise what
    the call does is decided by where the period lies: it raises
    [OverflowError] exactly when the period starts before [FIRST], or
    starts from [FIRST_KEYED] on and ends after [LAST]; it raises
    [ValueError] exactly when the period starts from [FIRST] on and
    before [FIRST_KEYED]; it returns shifts exactly when the period
    lies between [FIRST_KEYED] and [LAST]. *)
Theorem split_outside_calendar_raises (from_dt to_dt : datetime) :
  valid from_dt = true -> valid to_dt = true ->
  (ltb from_dt to_dt = false ->
     split_period_into_shifts from_dt to_dt = Some (Ok [])) /\
  (ltb from_dt to_dt = true ->
     (split_period_into_shifts from_dt to_dt = Some (Raise OverflowError) <->
      ltb from_dt FIRST = true \/
      (leb FIRST_KEYED from_dt = true /\ ltb LAST to_dt = true)) /\
     (split_period_into_shifts from_dt to_dt = Some (Raise ValueError) <->
      leb FIRST from_dt = true /\ ltb from_dt FIRST_KEYED = true) /\
     ((exists shifts, split_period_into_shifts from_dt to_dt = Some (Ok shifts)) <->
      leb FIRST_KEYED from_dt = true /\ leb to_dt LAST = true)).
Proof.
  intros Hf Ht. split.
  - intros Hlt. unfold split_period_into_shifts.
    destruct (loop_bound from_dt to_dt); cbn [split_loop]; now rewrite Hlt.
  - intros Hlt.
    assert (Hvf : valid FIRST = true) by reflexivity.
    assert (Hvk : valid FIRST_KEYED = true) by reflexivity.
    assert (Hvl : valid LAST = true) by reflexivity.
    rewrite !leb_stamp, !ltb_stamp, !Z.leb_le, !Z.ltb_lt in * by assumption.
    assert (Hfk : stamp FIRST < stamp FIRST_KEYED)
      by (rewrite stamp_FIRST, stamp_FIRST_KEYED; lia).
    destruct (split_outcomes from_dt to_dt Hf Ht Hlt)
      as [Hb Hrun|Hlo Hhi Hrun|Hlo Hhi Hrun|shifts Hlo Hhi Hrun Htile];
      rewrite Hrun; (split; [|split]);
      (split;
       [intros H; first [discriminate H | destruct H as (? & H); discriminate H | lia]
       |intros H; first [reflexivity | eexists; reflexivity | exfalso; lia]]).
Qed.

Lemma split_outside_calendar_raises_witness :
  split_period_into_shifts (mkdt 9999 12 30 8 0 0 0) (mkdt 9999 12 31 19 31 0 0)
    = Some (Raise OverflowError) /\
  split_period_into_shifts (mkdt 987 6 5 8 0 0 0) (mkdt 2026 1 25 8 0 0 0)
    = Some (Raise ValueError) /\
  split_period_into_shifts (mkdt 2026 1 26 8 0 0 0) (mkdt 2026 1 25 8 0 0 0)
    = Some (Ok []).
Proof.
  split; [|split].
  - apply (split_outside_calendar_raises
             (mkdt 9999 12 30 8 0 0 0) (mkdt 9999 12 31 19 31 0 0)); try reflexivity.
    right. split; reflexivity.
  - apply (split_outside_calendar_raises
             (mkdt 987 6 5 8 0 0 0) (mkdt 2026 1 25 8 0 0 0)); try reflexivity.
    split; reflexivity.
  - apply (split_outside_calendar_raises
             (mkdt 2026 1 26 8 0 0 0) (mkdt 2026 1 25 8 0 0 0)); reflexivity.
Defined.

(** *** Labels *)

Lemma split_date_parts dt :
  exists rest, Str.split "." (strftime_dmY dt) =
               Str.pad2 (day dt) :: Str.pad2 (month dt) :: rest.
Proof.
  unfold strftime_dmY, Str.pad2. repeat (progress norm_append).
  cbn [Str.split]. rewrite !dot_digit.
  change (Ascii.eqb "." ".") with true. cbv iota. eauto.
Qed.

Definition label_prefix (shift_type : string) : string :=
  if String.eqb shift_type "morning" then "Утро " else "Вечер ".

Lemma label_of_key dt shift_type :
  Str.rsplit1 "_" shift_type = (shift_type, None) ->
  get_shift_label (format_date dt ++ "_" ++ shift_type) =
  label_prefix shift_type ++ Str.pad2 (day dt) ++ "." ++ Str.pad2 (month dt).
Proof.
  intros Hty. unfold get_shift_label, format_date, label_prefix.
  change ("_" ++ shift_type) with (String "_" shift_type).
  rewrite rsplit1_suffix by assumption.
  destruct (split_date_parts dt) as (rest & ->).
  now destruct (String.eqb shift_type "morning").
Qed.



(** *** A period given by dates only *)

Lemma morning_only y m d :
  valid_date y m d = true -> 1000 <= y ->
  split_period_into_shifts (mkdt y m d 7 30 0 0) (mkdt y m d 19 30 0 0) =
  Some (Ok [mkshift (strftime_dmY (mkdt y m d 0 0 0 0) ++ "_morning")
              (get_shift_label (strftime_dmY (mkdt y m d 0 0 0 0) ++ "_morning"))
              (mkdt y m d 7 30 0 0) (mkdt y m d 19 30 0 0)
              (mkdt y m d 7 30 0 0) (mkdt y m d 19 30 0 0)]).
Proof.
  intros Hd Hy.
  assert (Hv1 : valid (mkdt y m d 7 30 0 0) = true) by (apply valid_at; [assumption|lia..]).
  assert (Hv2 : valid (mkdt y m d 19 30 0 0) = true) by (apply valid_at; [assumption|lia..]).
  assert (Hlt : ltb (mkdt y m d 7 30 0 0) (mkdt y m d 19 30 0 0) = true).
  { rewrite ltb_stamp by assumption. apply Z.ltb_lt. unfold stamp. cbn. lia. }
  assert (Hirr : forall a, ltb a a = false).
  { intros a. unfold ltb, compare. now rewrite !Z.compare_refl. }
  unfold split_period_into_shifts, loop_bound.
  assert (Hb : Z.to_nat (slot (mkdt y m d 19 30 0 0) - slot (mkdt y m d 7 30 0 0) + 2) = 3%nat).
  { rewrite !slot_eq. cbn [year month day]. rewrite !time_val_mk. norm_times. lia. }
  rewrite Hb. cbn [split_loop]. rewrite Hlt. cbn [negb].
  rewrite shift_of_spec by assumption.
  unfold shift_of. rewrite time_val_mk.
  change ((450 <=? 7 * 60 + 30) && (7 * 60 + 30 <? 1170)) with true. cbv iota.
  cbn [year]. destruct (Z.ltb_spec y 1000); [lia|].
  unfold at_time. cbn [year month day].
  change (strftime_dmY (mkdt y m d 7 30 0 0)) with (strftime_dmY (mkdt y m d 0 0 0 0)).
  unfold max, min. rewrite !Hirr. rewrite Hlt. cbn [negb app]. reflexivity.
Qed.

Lemma morning_unkeyed y m d :
  valid_date y m d = true -> y < 1000 ->
  split_period_into_shifts (mkdt y m d 7 30 0 0) (mkdt y m d 19 30 0 0) =
  Some (Raise ValueError).
Proof.
  intros Hd Hy.
  assert (Hv1 : valid (mkdt y m d 7 30 0 0) = true) by (apply valid_at; [assumption|lia..]).
  assert (Hv2 : valid (mkdt y m d 19 30 0 0) = true) by (apply valid_at; [assumption|lia..]).
  apply split_first_shift_raises; try assumption.
  - unfold stamp. cbn. lia.
  - unfold shift_of. rewrite time_val_mk.
    change ((450 <=? 7 * 60 + 30) && (7 * 60 + 30 <? 1170)) with true. cbv iota.
    cbn [year]. destruct (Z.ltb_spec y 1000); [reflexivity|lia].
Qed.

(** X6.  A period given by one date, written with a year of four digits, or
    by that date at 00:00 on both ends, is the morning shift of that
    day, 07:30 to 19:30, and nothing else, from the year 1000 on.  For a
    date of a year before 1000 the call raises [ValueError]: the bounds
    are read, but the key of the shift is not read back. *)
Theorem one_date_is_the_morning_shift (y m d : Z) :
  valid_date y m d = true ->
  let date := mkdt y m d 0 0 0 0 in
  let morning :=
    [mkshift_str (written_date date ++ "_morning")
                 ("Утро " ++ Str.pad2 d ++ "." ++ Str.pad2 m)
                 (written_date date ++ " 07:30") (written_date date ++ " 19:30")] in
  (1000 <= y ->
     split_period_into_shifts_str (written_date date) (written_date date)
       = Some (Ok morning) /\
     split_period_into_shifts_str (written_datetime date) (written_datetime date)
       = Some (Ok morning)) /\
  (y < 1000 ->
     split_period_into_shifts_str (written_date date) (written_date date)
       = Some (Raise ValueError) /\
     split_period_into_shifts_str (written_datetime date) (written_datetime date)
       = Some (Raise ValueError)).
Proof.
  intros Hd date morning.
  assert (Hv : valid date = true) by (apply valid_at; [assumption|lia..]).
  assert (Hbounds : forall a b,
            parse_datetime a = Some date -> parse_datetime b = Some date ->
            split_period_into_shifts_str a b =
            match split_period_into_shifts (mkdt y m d 7 30 0 0) (mkdt y m d 19 30 0 0) with
            | Some (Ok shifts) =>
                Some (Ok (map (fun s => mkshift_str (key s) (label s)
                                          (format_datetime (actual_from s))
                                          (format_datetime (actual_to s))) shifts))
            | Some (Raise e) => Some (Raise e)
            | None => None
            end).
  { intros a b Ha Hb. unfold split_period_into_shifts_str. rewrite Ha, Hb.
    subst date. cbn [hour minute]. change ((0 =? 0) && (0 =? 0)) with true.
    cbv iota. unfold replace_hm, MORNING_START, MORNING_END. cbn [fst snd].
    cbn [year month day second microsecond].
    rewrite !valid_at by (assumption || lia). reflexivity. }
  assert (Hdate : parse_datetime (written_date date) = Some date)
    by (now apply parse_written_date).
  assert (Htime : parse_datetime (written_datetime date) = Some date)
    by (now apply (parse_written_datetime date)).
  split; intros Hy.
  - assert (Hrun : forall a b,
              parse_datetime a = Some date -> parse_datetime b = Some date ->
              split_period_into_shifts_str a b = Some (Ok morning)).
    { intros a b Ha Hb. rewrite (Hbounds a b Ha Hb).
      rewrite morning_only by assumption. cbn [map key label actual_from actual_to].
      change (strftime_dmY (mkdt y m d 0 0 0 0) ++ "_morning")
        with (format_date (mkdt y m d 0 0 0 0) ++ "_" ++ "morning").
      rewrite label_of_key by reflexivity.
      unfold format_date, format_datetime.
      rewrite !strftime_written_datetime, !strftime_written_date by (cbn [year]; lia).
      reflexivity. }
    split; now apply Hrun.
  - split; rewrite Hbounds by assumption; now rewrite morning_unkeyed.
Qed.

Lemma one_date_is_the_morning_shift_witness :
  split_period_into_shifts_str "25.01.2026" "25.01.2026" =
    Some (Ok [mkshift_str "25.01.2026_morning" "Утро 25.01"
                          "25.01.2026 07:30" "25.01.2026 19:30"]) /\
  split_period_into_shifts_str "05.06.0987" "05.06.0987" = Some (Raise ValueError).
Proof.
  split.
  - apply (one_date_is_the_morning_shift 2026 1 25); [reflexivity|lia].
  - apply (one_date_is_the_morning_shift 987 6 5); [reflexivity|lia].
Defined.

End ShiftsRoundTrip.

Module ShiftLength.
Import Datetime Shifts DatetimeFacts FormatFacts ShiftsSpec.

(** The ordinal of a date. *)
Definition ordinal (y m d : Z) : Z :=
  days_before_year y + days_before_month y m + d.

Lemma days_before_month_next y m :
  1 <= m -> days_before_month y (m + 1) = days_before_month y m + days_in_month y m.
Proof.
  intros Hm. unfold days_before_month.
  replace (Z.to_nat (m + 1 - 1)) with (S (Z.to_nat (m - 1))) by lia.
  cbn [days_before_month_nat]. do 2 f_equal. lia.
Qed.

Lemma days_before_december y :
  days_before_month y 12 = 334 + (if is_leap y then 1 else 0).
Proof.
  unfold days_before_month. change (Z.to_nat (12 - 1)) with 11%nat.
  cbn [days_before_month_nat]. unfold days_in_month.
  change (Z.of_nat 1) with 1. change (Z.of_nat 2) with 2. change (Z.of_nat 3) with 3.
  change (Z.of_nat 4) with 4. change (Z.of_nat 5) with 5. change (Z.of_nat 6) with 6.
  change (Z.of_nat 7) with 7. change (Z.of_nat 8) with 8. change (Z.of_nat 9) with 9.
  change (Z.of_nat 10) with 10. change (Z.of_nat 11) with 11.
  cbn [Z.eqb Pos.eqb orb]. destruct (is_leap y); lia.
Qed.

Lemma year_length y :
  days_before_year (y + 1) = days_before_year y + 365 + (if is_leap y then 1 else 0).
Proof.
  unfold days_before_year, is_leap. replace (y + 1 - 1) with y by lia.
  destruct (Z.eqb_spec (y mod 4) 0); destruct (Z.eqb_spec (y mod 100) 0);
    destruct (Z.eqb_spec (y mod 400) 0); cbn [negb andb orb];
    Z.to_euclidean_division_equations; lia.
Qed.

Lemma ordinal_next_date y m d :
  valid_date y m d = true ->
  let '(y', m', d') := next_date y m d in ordinal y' m' d' = ordinal y m d + 1.
Proof.
  intros Hv. destruct (valid_date_bounds _ _ _ Hv) as (Hy & Hm & Hd & _).
  unfold next_date, ordinal.
  destruct (Z.ltb_spec d (days_in_month y m)); [lia|].
  destruct (Z.ltb_spec m 12).
  - rewrite days_before_month_next by lia. lia.
  - assert (m = 12) by lia. subst m.
    rewrite year_length, days_before_december.
    change (days_before_month (y + 1) 1) with 0.
    change (days_in_month y 12) with 31 in *. lia.
Qed.

(** The directives of a date leave the time of day at its default. *)
Definition sets_time (dv : directive) : bool :=
  match dv with DH | DM | DS => true | _ => false end.

Lemma match_directive_keeps_time dv f s f' r :
  sets_time dv = false -> In (f', r) (match_directive dv f s) ->
  f_H f' = f_H f /\ f_M f' = f_M f /\ f_S f' = f_S f.
Proof.
  destruct dv; try discriminate; intros _; cbn [match_directive].
  - intros ([v r'] & [= <- _] & _)%in_map_iff. auto.
  - intros ([v r'] & [= <- _] & _)%in_map_iff. auto.
  - intros ([v r'] & [= <- _] & _)%in_map_iff. auto.
  - destruct s as [|c' s]; [intros []|].
    destruct (Ascii.eqb c c'); [|intros []]. intros [[= <- _]|[]]. auto.
  - intros (r' & [= <- _] & _)%in_map_iff. auto.
Qed.

Lemma match_format_keeps_time fmt : forall f s f' r,
  forallb (fun dv => negb (sets_time dv)) fmt = true ->
  In (f', r) (match_format fmt f s) ->
  f_H f' = f_H f /\ f_M f' = f_M f /\ f_S f' = f_S f.
Proof.
  induction fmt as [|dv fmt IH]; intros f s f' r Hfmt Hin; cbn [match_format] in Hin.
  - destruct Hin as [[= <- _]|[]]. auto.
  - cbn [forallb] in Hfmt. apply andb_true_iff in Hfmt as (Hdv & Hfmt).
    apply negb_true_iff in Hdv.
    apply in_flat_map in Hin as ([f1 r1] & H1 & H2).
    apply (match_directive_keeps_time _ _ _ _ _ Hdv) in H1 as (<- & <- & <-).
    apply (IH _ _ _ _ Hfmt) in H2. exact H2.
Qed.

Lemma strptime_date_fields s dt :
  strptime s fmt_dmY = Ok dt ->
  valid_date (year dt) (month dt) (day dt) = true /\
  hour dt = 0 /\ minute dt = 0 /\ second dt = 0 /\ microsecond dt = 0.
Proof.
  unfold strptime. destruct (match_format fmt_dmY fields0 s) as [|[f r] tl] eqn:E;
    [discriminate|].
  destruct r; [|discriminate].
  destruct (match_format_keeps_time fmt_dmY fields0 s f "" eq_refl) as (Hh & Hm & Hs).
  { rewrite E. now left. }
  rewrite Hh, Hm, Hs. cbn [fields0 f_H f_M f_S].
  destruct (valid _) eqn:Hv; [|discriminate]. intros [= <-].
  cbn [year month day hour minute second microsecond].
  split; [|auto]. now apply valid_date_of in Hv.
Qed.

Lemma timedelta_parts a b :
  timedelta_us a b =
  ((ordinal (year a) (month a) (day a) - ordinal (year b) (month b) (day b)) * 86400 +
   ((hour a - hour b) * 60 + (minute a - minute b)) * 60 +
   (second a - second b)) * 1000000 + (microsecond a - microsecond b).
Proof. reflexivity. Qed.

(** X7.  Whatever key [get_shift_boundaries] accepts, the shift it describes
    lasts twelve hours and starts at 07:30 or at 19:30. *)
Theorem shifts_last_twelve_hours (shift_key : string) (shift_start shift_end : datetime) :
  get_shift_boundaries shift_key = Ok (shift_start, shift_end) ->
  timedelta_us shift_end shift_start = 12 * 3600 * 1000000 /\
  valid shift_start = true /\ valid shift_end = true /\
  ((hour shift_start, minute shift_start) = MORNING_START \/
   (hour shift_start, minute shift_start) = EVENING_START).
Proof.
  unfold get_shift_boundaries.
  destruct (Str.rsplit1 "_" shift_key) as [date_str [shift_type|]]; [|discriminate].
  unfold mbind, result_bind.
  destruct (strptime date_str fmt_dmY) as [date|] eqn:Hp; [|discriminate].
  apply strptime_date_fields in Hp as (Hd & Hh & Hmi & Hs & Hus).
  destruct date as [y m d h mi s us]. cbn [year month day hour minute second microsecond] in *.
  subst h mi s us. unfold replace_hm, add_day, MORNING_START, MORNING_END,
    EVENING_START, EVENING_END.
  cbn [fst snd year month day hour minute second microsecond].
  rewrite !valid_at by (assumption || lia).
  destruct (String.eqb shift_type "morning").
  - intros [= <- <-]. rewrite timedelta_parts.
    cbn [year month day hour minute second microsecond].
    rewrite !valid_at by (assumption || lia). repeat split; [lia|now left].
  - pose proof (next_date_valid _ _ _ Hd) as Hn.
    pose proof (ordinal_next_date _ _ _ Hd) as Ho.
    destruct (next_date y m d) as [[y' m'] d'].
    destruct (Z.leb_spec y' MAXYEAR); [|discriminate].
    cbn [year month day hour minute second microsecond].
    rewrite !valid_at by (auto || lia).
    intros [= <- <-]. rewrite timedelta_parts.
    cbn [year month day hour minute second microsecond].
    rewrite !valid_at by (auto || lia). repeat split; [lia|now right].
Qed.

Lemma shifts_last_twelve_hours_witness :
  timedelta_us (mkdt 2025 1 1 7 30 0 0) (mkdt 2024 12 31 19 30 0 0)
    = 12 * 3600 * 1000000.
Proof.
  apply (shifts_last_twelve_hours "31.12.2024_evening"). reflexivity.
Defined.

End ShiftLength.

Module ConfigSpec.
Import Py Datetime DatetimeFacts FormatFacts Config.

(** A token the fetcher will use: a string that is not empty and is not
    one of the placeholders of the configuration template. *)
Definition usable (t : json) : Prop :=
  exists s, t = JStr s /\ s <> "" /\
            Str.startswith "SECOND" s = false /\ Str.startswith "THIRD" s = false.

Lemma keep_token_usable t : keep_token t = Ok true -> usable t.
Proof.
  unfold keep_token. destruct (truthy t) eqn:Ht; cbn [negb]; [|discriminate].
  destruct t; try discriminate. intros [= Hk].
  apply andb_true_iff in Hk as (H1%negb_true_iff & H2%negb_true_iff).
  exists s. repeat split; try assumption.
  intros ->. discriminate.
Qed.

Lemma filter_tokens_usable tokens : forall kept,
  filter_tokens tokens = Ok kept ->
  Forall usable kept /\ sublist kept tokens.
Proof.
  induction tokens as [|t tokens IH]; intros kept Hf; cbn [filter_tokens] in Hf.
  - injection Hf as <-. split; [constructor|reflexivity].
  - unfold mbind, result_bind in Hf.
    destruct (keep_token t) as [[|]|] eqn:Hk; try discriminate;
      destruct (filter_tokens tokens) as [rest|]; try discriminate;
      injection Hf as <-; destruct (IH rest eq_refl) as (IH1 & IH2).
    + split; [constructor; [now apply keep_token_usable|assumption]|].
      now apply sublist_skip.
    + split; [assumption|]. now apply sublist_cons.
Qed.

(** X8.  The tokens [_load_tokens] returns are non-empty strings other than
    the placeholders [SECOND...] and [THIRD...]; when the configuration
    has no list under [tokens], there is at most one, the one under
    [token]. *)
Theorem load_tokens_are_usable (config : json) (tokens : list json) :
  _load_tokens config = Ok tokens ->
  Forall usable tokens /\
  (forall c api, config = JDict c -> get_default c "api" (JDict []) = JDict api ->
     truthy (get_default api "tokens" (JList [])) = false ->
     tokens = [] \/ tokens = [get_default api "token" (JStr "")]).
Proof.
  unfold _load_tokens, mbind, result_bind.
  destruct config as [| | | | | |c]; try discriminate. cbn [as_dict].
  destruct (get_default c "api" (JDict [])) as [| | | | | |api] eqn:Hapi;
    try discriminate.
  cbn [as_dict].
  assert (Hsame : forall c' api', JDict c = JDict c' ->
            get_default c' "api" (JDict []) = JDict api' -> api' = api).
  { intros c' api' [= <-] Hapi'. rewrite Hapi in Hapi'. now injection Hapi'. }
  destruct (truthy (get_default api "tokens" (JList []))) eqn:Ht; cbn [negb].
  - destruct (iterate _) as [l|]; [|discriminate]. intros Hf.
    split; [now apply filter_tokens_usable in Hf|].
    intros c' api' Hc Ha. rewrite (Hsame _ _ Hc Ha), Ht. discriminate.
  - destruct (truthy (get_default api "token" (JStr ""))) eqn:Hs.
    + cbn [iterate]. intros Hf. pose proof (filter_tokens_usable _ _ Hf) as (Hu & Hsub).
      split; [assumption|]. intros c' api' Hc Ha _. rewrite (Hsame _ _ Hc Ha).
      apply sublist_length in Hsub as Hlen. cbn [length] in Hlen.
      destruct tokens as [|t [|t' tokens]]; cbn [length] in Hlen; try lia; [now left|].
      right. apply sublist_cons_r in Hsub as [Hsub|(l' & [= -> ->] & _)]; [|reflexivity].
      apply sublist_nil_r in Hsub. discriminate.
    + destruct (iterate _) as [l|] eqn:Hi; [|discriminate]. intros Hf.
      pose proof (filter_tokens_usable _ _ Hf) as (Hu & Hsub).
      split; [assumption|]. intros c' api' _ _ _. left.
      destruct (get_default api "tokens" (JList [])) as [| | | |s|l'|d];
        try discriminate; cbn [iterate] in Hi; injection Hi as <-.
      * cbn [truthy] in Ht. apply negb_false_iff, String.eqb_eq in Ht. subst s.
        cbn in Hsub. now apply sublist_nil_r in Hsub.
      * destruct l'; [|discriminate]. now apply sublist_nil_r in Hsub.
      * destruct d; [|discriminate]. now apply sublist_nil_r in Hsub.
Qed.

Lemma load_tokens_are_usable_witness :
  Forall usable [JStr "k-1"].
Proof.
  apply (load_tokens_are_usable
           (JDict [("api", JDict [("token", JStr "k-0");
                                  ("tokens", JList [JStr ""; JStr "k-1";
                                                    JStr "SECOND_TOKEN_HERE"])])])).
  reflexivity.
Defined.

(** X9.  [_validate_date] accepts a date written with a year of four digits
    and refuses the same date followed by a time, and the empty string.
    Of what [format_date] prints it accepts the dates from the year 1000
    on, which are written this way, and refuses the earlier ones; it
    refuses whatever [format_datetime] prints. *)
Theorem validate_date_accepts_dates_only (dt : datetime) :
  valid dt = true ->
  _validate_date (written_date dt) = true /\
  _validate_date (written_datetime dt) = false /\
  _validate_date (Shifts.format_date dt) = (1000 <=? year dt) /\
  _validate_date (Shifts.format_datetime dt) = false /\
  _validate_date "" = false.
Proof.
  intros Hv. pose proof (ShiftsSpec.valid_date_of dt Hv) as Hd.
  unfold _validate_date, Shifts.format_date, Shifts.format_datetime.
  split; [now rewrite strptime_written_date|].
  split; [now rewrite strptime_date_refuses_time|].
  split; [|split; [|reflexivity]]; destruct (Z.leb_spec 1000 (year dt)) as [Hy|Hy].
  - rewrite strftime_written_date by assumption. now rewrite strptime_written_date.
  - pose proof (short_date_unread dt [] Hd Hy) as Hs. rewrite app_nil_r in Hs.
    now rewrite Hs.
  - rewrite strftime_written_datetime by assumption.
    now rewrite strptime_date_refuses_time.
  - pose proof (short_datetime_unread dt [] Hd Hy) as Hs. rewrite app_nil_r in Hs.
    now rewrite Hs.
Qed.

Lemma validate_date_accepts_dates_only_witness :
  _validate_date "29.02.2024" = true /\ _validate_date "29.02.2024 08:00" = false /\
  _validate_date (Shifts.format_date (mkdt 987 6 5 8 0 0 0)) = false.
Proof.
  destruct (validate_date_accepts_dates_only (mkdt 2024 2 29 8 0 0 0) eq_refl)
    as (H1 & H2 & _).
  destruct (validate_date_accepts_dates_only (mkdt 987 6 5 8 0 0 0) eq_refl)
    as (_ & _ & H3 & _).
  split; [exact H1|split; [exact H2|exact H3]].
Defined.

End ConfigSpec.

Module ShiftFetcherSpec.
Import Py Datetime Shifts MonitoringParser ShiftFetcher DatetimeFacts FormatFacts.

Section WithClient.
Context {Id : Type} `{FloatOps}.
Implicit Types (client : nat -> Id -> string -> string -> result json).
Implicit Types (get : Id -> string -> string -> result json).

(** What is kept of a response: the parsed body, or the empty record
    when the request or the parser raised. *)
Definition kept (response : result json) : dict :=
  match (raw_data ← response; parse_monitoring raw_data) with
  | Ok parsed => parsed
  | Raise _ => _empty_monitoring
  end.

(** The entry [fetch_all_shifts] builds for the [i]-th shift. *)
Definition entry client (ts_id_mo : Id) (i : nat) (s : shift_str) : shift_data :=
  mkshift_data (s_key s) (s_label s) (s_from s) (s_to s)
    (kept (client i ts_id_mo (s_from s) (s_to s))).

Lemma fetch_with_window get ts_id_mo shift_key from_date to_date :
  String.eqb from_date "" = false -> String.eqb to_date "" = false ->
  fetch_shift_monitoring get ts_id_mo shift_key (Some from_date) (Some to_date) =
  Ok (kept (get ts_id_mo from_date to_date)).
Proof.
  intros Hf Ht. unfold fetch_shift_monitoring, not_given, kept. rewrite Hf, Ht.
  cbn [orb mbind result_bind given].
  destruct (get ts_id_mo from_date to_date) as [raw|e]; cbn [mbind result_bind].
  - destruct (parse_monitoring raw) as [parsed|e]; [reflexivity|].
    now destruct e.
  - now destruct e.
Qed.

Lemma fetch_shifts_loop_spec client ts_id_mo shifts : forall n results,
  Forall (fun s => String.eqb (s_from s) "" = false /\ String.eqb (s_to s) "" = false)
         shifts ->
  fetch_shifts_loop client n ts_id_mo shifts results =
  Ok (results ++ imap (fun i => entry client ts_id_mo (n + i)) shifts)%list.
Proof.
  induction shifts as [|s shifts IH]; intros n results Hne; cbn [fetch_shifts_loop].
  - cbn [imap]. now rewrite app_nil_r.
  - inversion Hne as [|? ? (Hf & Ht) Hne']; subst.
    rewrite fetch_with_window by assumption. cbn [mbind result_bind].
    rewrite IH by assumption. cbn [imap]. rewrite <- app_assoc. cbn [app].
    unfold entry at 2. rewrite Nat.add_0_r. do 3 f_equal.
    apply imap_ext. intros i x _. cbn. f_equal. lia.
Qed.

Lemma split_str_windows from_date to_date shifts :
  split_period_into_shifts_str from_date to_date = Some (Ok shifts) ->
  Forall (fun s => String.eqb (s_from s) "" = false /\ String.eqb (s_to s) "" = false)
         shifts.
Proof.
  unfold split_period_into_shifts_str.
  destruct (parse_datetime from_date) as [f|]; [|intros [= <-]; constructor].
  destruct (parse_datetime to_date) as [t|]; [|intros [= <-]; constructor].
  match goal with
  | |- context [match ?r with Ok _ => _ | Raise _ => _ end] => destruct r as [[f' t']|]
  end; [|discriminate].
  destruct (split_period_into_shifts f' t') as [[l|]|]; try discriminate.
  intros [= <-]. apply List.Forall_forall. intros s (x & <- & _)%in_map_iff.
  cbn [s_from s_to]. unfold format_datetime. split; apply datetime_nonempty.
Qed.

End WithClient.

(** X10.  [fetch_all_shifts] returns one entry for every shift of the period,
    in order; the [i]-th request asks for the clipped window of the
    [i]-th shift, and a request or a parse that fails leaves the empty
    record in its entry.  Only splitting the period can raise. *)
Theorem fetch_all_shifts_one_entry_per_shift {Id : Type} (F : FloatOps)
    (client : nat -> Id -> string -> string -> result json)
    (ts_id_mo : Id) (from_date to_date : string) :
  match split_period_into_shifts_str from_date to_date with
  | Some (Ok shifts) =>
      fetch_all_shifts client ts_id_mo from_date to_date =
      Some (Ok (imap (entry client ts_id_mo) shifts))
  | Some (Raise e) => fetch_all_shifts client ts_id_mo from_date to_date = Some (Raise e)
  | None => fetch_all_shifts client ts_id_mo from_date to_date = None
  end.
Proof.
  unfold fetch_all_shifts.
  destruct (split_period_into_shifts_str from_date to_date) as [[shifts|e]|] eqn:Hs;
    try reflexivity.
  rewrite fetch_shifts_loop_spec by (eapply split_str_windows, Hs).
  reflexivity.
Qed.

(** X11.  Without both bounds [fetch_shift_monitoring] asks for the whole
    shift of the key, so a key [get_shift_boundaries] refuses raises, and
    one bound given alone is ignored; with both bounds the key is not
    looked at. *)
Theorem fetch_shift_monitoring_window {Id : Type} (F : FloatOps)
    (get : Id -> string -> string -> result json) (ts_id_mo : Id)
    (shift_key : string) (from_date to_date : option string) :
  (not_given from_date || not_given to_date = true ->
     fetch_shift_monitoring get ts_id_mo shift_key from_date to_date =
     match get_shift_boundaries shift_key with
     | Ok (shift_start, shift_end) =>
         Ok (kept (get ts_id_mo (format_datetime shift_start) (format_datetime shift_end)))
     | Raise e => Raise e
     end) /\
  (not_given from_date || not_given to_date = false ->
     forall other_key,
       fetch_shift_monitoring get ts_id_mo shift_key from_date to_date =
       fetch_shift_monitoring get ts_id_mo other_key from_date to_date).
Proof.
  split; intros Hg; unfold fetch_shift_monitoring; rewrite Hg; [|reflexivity].
  cbn [mbind result_bind].
  destruct (get_shift_boundaries shift_key) as [[s e]|err]; [|reflexivity].
  unfold kept. cbn [mbind result_bind].
  destruct (get ts_id_mo _ _) as [raw|e']; cbn [mbind result_bind].
  - destruct (parse_monitoring raw) as [parsed|e']; [reflexivity|]. now destruct e'.
  - now destruct e'.
Qed.

End ShiftFetcherSpec.

Module ClientRetry.
Import Py Client ClientSpec.

(** The text [last_error] takes from a response that uses up an attempt:
    an HTTP error other than 404 and 429, a timeout, a request error. *)
Definition failure (r : response) : option string :=
  match r with
  | HTTPError status_code msg =>
      if (status_code =? 404) || (status_code =? 429) then None else Some msg
  | Timeout => Some "Request timeout"
  | RequestException msg => Some msg
  | _ => None
  end.

Definition rate_limit (r : response) : bool :=
  match r with
  | HTTPError status_code _ => status_code =? 429
  | _ => false
  end.

(** What the server answers for good: a decoded body is returned, a 404
    raises [NotFoundError]. *)
Definition answer (r : response) : option (result json) :=
  match r with
  | Json data => Some (Ok data)
  | HTTPError status_code _ =>
      if status_code =? 404 then Some (Raise NotFoundError) else None
  | _ => None
  end.

(** A response after which the client asks again: one that uses up an
    attempt, or a rate limit. *)
Definition retried (r : response) : bool :=
  match failure r with
  | Some _ => true
  | None => rate_limit r
  end.

Definition failures (rs : list response) : nat :=
  length (List.filter (fun r => match failure r with Some _ => true | None => false end) rs).

Definition rate_limits (rs : list response) : nat :=
  length (List.filter rate_limit rs).



Lemma requests_snoc_request tr n : requests (tr ++ [Request n]) = S (requests tr).
Proof. rewrite requests_app. cbn. lia. Qed.

Lemma requests_snoc_sleep tr s : requests (tr ++ [Sleep s]) = requests tr.
Proof. rewrite requests_app. cbn. lia. Qed.

(** One iteration on a response that uses up an attempt. *)
Lemma request_loop_failure rc cmd r e rs a n le tr :
  a < rc -> failure r = Some e ->
  request_loop rc cmd (r :: rs) a n le tr =
  request_loop rc cmd rs (a + 1) n (Some e)
    (if a + 1 <? rc then (tr ++ [Request (a + 1)]) ++ [Sleep (2 ^ (a + 1 - 1))]
     else tr ++ [Request (a + 1)])%list.
Proof.
  intros Ha Hf. cbn [request_loop].
  destruct (Z.ltb_spec a rc); [|lia]. cbn [negb].
  destruct r as [data|code msg| |msg|msg]; cbn [failure] in Hf; try discriminate.
  - destruct (code =? 404); [discriminate|]. destruct (code =? 429); [discriminate|].
    cbn [orb] in Hf. now injection Hf as ->.
  - now injection Hf as <-.
  - now injection Hf as ->.
Qed.

Lemma request_loop_rate_limit rc cmd r rs a n le tr :
  a < rc -> n < max_rate_limit_retries -> rate_limit r = true ->
  request_loop rc cmd (r :: rs) a n le tr =
  request_loop rc cmd rs a (n + 1) le (tr ++ [Request (a + 1); Sleep (10 * (n + 1))])%list.
Proof.
  intros Ha Hn Hr. destruct r as [data|code msg| |msg|msg]; try discriminate.
  cbn [rate_limit] in Hr. apply Z.eqb_eq in Hr. subst code.
  now apply rate_limited_retry.
Qed.

Lemma retried_cases r :
  retried r = true ->
  (exists e, failure r = Some e /\ rate_limit r = false) \/
  (failure r = None /\ rate_limit r = true).
Proof.
  unfold retried. destruct r as [data|code msg| |msg|msg]; cbn [failure rate_limit];
    try discriminate; eauto.
  destruct (code =? 404); cbn [orb]; [destruct (code =? 429); [auto|discriminate]|].
  destruct (code =? 429); eauto.
Qed.

Lemma first_answer rc cmd r out rest : forall pre a n le tr,
  Forall (fun x => retried x = true) pre ->
  answer r = Some out ->
  0 <= n -> a + Z.of_nat (failures pre) < rc ->
  n + Z.of_nat (rate_limits pre) <= max_rate_limit_retries ->
  let run := request_loop rc cmd (pre ++ r :: rest) a n le tr in
  outcome run = Some out /\ pending run = rest /\
  requests (trace run) = (requests tr + S (length pre))%nat.
Proof.
  induction pre as [|x pre IH]; intros a n le tr Hpre Hr Hn Ha Hrl.
  - cbn [app failures rate_limits List.filter length] in *.
    cbn [request_loop]. destruct (Z.ltb_spec a rc); [|lia]. cbn [negb].
    destruct r as [data|code msg| |msg|msg]; cbn [answer] in Hr; try discriminate.
    + injection Hr as <-. cbn [outcome pending trace].
      rewrite requests_snoc_request. repeat split; lia.
    + destruct (code =? 404); [|discriminate]. injection Hr as <-.
      cbn [outcome pending trace]. rewrite requests_snoc_request. repeat split; lia.
  - inversion Hpre as [|? ? Hx Hpre']; subst.
    unfold failures, rate_limits in Ha, Hrl. cbn [List.filter] in Ha, Hrl.
    cbn [app]. destruct (retried_cases x Hx) as [(e & Hf & Hnr)|(Hf & Hrate)];
      rewrite Hf in Ha; rewrite ?Hnr, ?Hrate in Hrl; cbn [length] in Ha, Hrl.
    + rewrite (request_loop_failure rc cmd x e) by (assumption || lia).
      fold (failures pre) in Ha. fold (rate_limits pre) in Hrl.
      destruct (IH (a + 1) n (Some e)
                  (if a + 1 <? rc then (tr ++ [Request (a + 1)]) ++ [Sleep (2 ^ (a + 1 - 1))]
                   else tr ++ [Request (a + 1)])%list Hpre' Hr Hn ltac:(lia) ltac:(lia))
        as (H1 & H2 & H3).
      cbv zeta. rewrite H1, H2, H3. repeat split.
      destruct (a + 1 <? rc);
        rewrite ?requests_snoc_sleep, requests_snoc_request; cbn [length]; lia.
    + fold (failures pre) in Ha. fold (rate_limits pre) in Hrl.
      rewrite (request_loop_rate_limit rc cmd x) by (assumption || lia).
      destruct (IH a (n + 1) le (tr ++ [Request (a + 1); Sleep (10 * (n + 1))])%list
                  Hpre' Hr ltac:(lia) ltac:(lia) ltac:(lia)) as (H1 & H2 & H3).
      cbv zeta. rewrite H1, H2, H3. repeat split.
      rewrite requests_app. cbn. lia.
Qed.

(** X12.  When every response before the first answer of the server is one
    the client retries (a timeout, a request error, an HTTP error other
    than 404, which includes the rate limit 429), with fewer than
    [retry_count] of them using up an attempt and at most five rate
    limits, that answer decides the call: a decoded body is returned and
    a 404 raises [NotFoundError].  One request is made per response up
    to the answer, and the responses after it are not asked for. *)
Theorem first_conclusive_response_decides (retry_count : Z) (command : string)
    (before : list response) (r : response) (out : result json)
    (rest : list response) :
  Forall (fun x => retried x = true) before ->
  answer r = Some out ->
  Z.of_nat (failures before) < retry_count ->
  (rate_limits before <= 5)%nat ->
  let run := _make_request retry_count command (before ++ r :: rest) in
  outcome run = Some out /\ pending run = rest /\
  requests (trace run) = S (length before) /\
  (out = Raise NotFoundError \/ exists data, out = Ok data).
Proof.
  intros Hb Hr Hf Hrl. unfold _make_request.
  assert (Hout : out = Raise NotFoundError \/ exists data, out = Ok data).
  { destruct r as [data|code msg| |msg|msg]; cbn [answer] in Hr; try discriminate.
    - injection Hr as <-. eauto.
    - destruct (code =? 404); [|discriminate]. injection Hr as <-. now left. }
  destruct (first_answer retry_count command r out rest before 0 0 None [])
    as (H1 & H2 & H3).
  - exact Hb.
  - exact Hr.
  - lia.
  - lia.
  - unfold max_rate_limit_retries. lia.
  - cbv zeta. rewrite H1, H2, H3. auto.
Qed.

Lemma first_conclusive_response_decides_witness :
  let run := _make_request 3 "getMonitoringStats"
               [Timeout; HTTPError 429 "Too Many Requests";
                RequestException "Expecting value: line 1 column 1 (char 0)";
                HTTPError 404 "Not Found"; Json JNull] in
  outcome run = Some (Raise NotFoundError) /\ pending run = [Json JNull] /\
  requests (trace run) = 4%nat.
Proof.
  destruct (first_conclusive_response_decides 3 "getMonitoringStats"
              [Timeout; HTTPError 429 "Too Many Requests";
               RequestException "Expecting value: line 1 column 1 (char 0)"]
              (HTTPError 404 "Not Found") (Raise NotFoundError) [Json JNull])
    as (H1 & H2 & H3 & _).
  - repeat constructor.
  - reflexivity.
  - cbn. lia.
  - cbn. lia.
  - split; [exact H1|split; [exact H2|exact H3]].
Defined.







Lemma request_loop_decides rc cmd : forall rs a n le tr,
  0 <= n <= max_rate_limit_retries ->
  (rc - a) + (max_rate_limit_retries - n) <= Z.of_nat (length rs) ->
  exists out, outcome (request_loop rc cmd rs a n le tr) = Some out.
Proof.
  unfold max_rate_limit_retries.
  induction rs as [|r rs IH]; intros a n le tr Hn Hlen; cbn [request_loop].
  - destruct (Z.ltb_spec a rc); cbn [negb outcome]; [cbn [length] in Hlen; lia|eauto].
  - destruct (Z.ltb_spec a rc); cbn [negb outcome]; [|eauto].
    cbn [length] in Hlen.
    destruct r as [data|code msg| |msg|msg]; cbn [outcome]; eauto;
      try (apply IH; lia).
    destruct (code =? 404); cbn [outcome]; [eauto|].
    destruct (code =? 429); [|apply IH; lia].
    unfold max_rate_limit_retries.
    destruct (Z.gtb_spec (n + 1) 5); cbn [outcome]; [eauto|].
    apply IH; lia.
Qed.

(** X14.  A call ends after at most [retry_count + 5] responses: whatever the
    server answers, that many are enough for [_make_request] to return or
    raise. *)
Theorem make_request_decides (retry_count : Z) (command : string)
    (responses : list response) :
  retry_count + max_rate_limit_retries <= Z.of_nat (length responses) ->
  exists out, outcome (_make_request retry_count command responses) = Some out.
Proof.
  intros Hlen. apply request_loop_decides; unfold max_rate_limit_retries in *; lia.
Qed.

Lemma make_request_decides_witness :
  exists out,
    outcome (_make_request 1 "getRequests"
               (rate_limited ["a"; "b"; "c"; "d"; "e"] ++ [Timeout])) = Some out.
Proof.
  apply (make_request_decides 1 "getRequests").
  unfold max_rate_limit_retries. cbn. lia.
Defined.

End ClientRetry.

Module FetcherInvariants.
Import Py MonitoringParser Interleaver Fetcher FetcherSpec.

Section WithId.
Context {Id : Type} `{Countable Id} `{FloatOps}.
Implicit Types (t : task Id) (tasks : list (task Id)) (net : network).
Implicit Types (st : state (Id := Id)).

(** *** The keys of the dictionary *)

(** Every key of [m] is the key of a task. *)
Definition only_keys (m : gmap (string * Id) dict) tasks : Prop :=
  forall k, is_Some (m !! k) -> exists t, In t tasks /\ key_of t = k.

Lemma is_Some_insert_inv (m : gmap (string * Id) dict) k k' v :
  is_Some (<[k := v]> m !! k') -> k = k' \/ is_Some (m !! k').
Proof.
  destruct (decide (k = k')) as [->|Hne]; [now left|].
  rewrite lookup_insert_ne by assumption. now right.
Qed.

Lemma worker_loop_keys net tasks : forall st st',
  worker_loop net tasks st = Ok st' ->
  forall k, is_Some (results st' !! k) ->
    is_Some (results st !! k) \/ exists t, In t tasks /\ key_of t = k.
Proof.
  induction tasks as [|t tasks IH]; intros st st' Hw k Hk.
  - injection Hw as <-. now left.
  - cbn [worker_loop] in Hw.
    destruct (fetch_task_spec net st t) as (st1 & Hst1 & Hres & _).
    rewrite Hst1 in Hw. cbn [mbind result_bind] in Hw.
    destruct (IH _ _ Hw k Hk) as [Hk1|(t' & Hin & Heq)].
    + rewrite Hres in Hk1. apply is_Some_insert_inv in Hk1 as [<-|Hk1]; [|now left].
      right. exists t. split; [now left|reflexivity].
    + right. exists t'. split; [now right|assumption].
Qed.

Lemma sequential_loop_keys net cb total tasks : forall i st st',
  sequential_loop net cb total i tasks st = Ok st' ->
  forall k, is_Some (results st' !! k) ->
    is_Some (results st !! k) \/ exists t, In t tasks /\ key_of t = k.
Proof.
  induction tasks as [|t tasks IH]; intros i st st' Hw k Hk.
  - injection Hw as <-. now left.
  - cbn [sequential_loop] in Hw.
    destruct (fetch_task_spec net st t) as (st1 & Hst1 & Hres & _).
    rewrite Hst1 in Hw. cbn [mbind result_bind] in Hw.
    destruct (IH _ _ _ Hw k Hk) as [Hk1|(t' & Hin & Heq)].
    + assert (Hk2 : is_Some (results st1 !! k)) by (now destruct cb).
      rewrite Hres in Hk2. apply is_Some_insert_inv in Hk2 as [<-|Hk2]; [|now left].
      right. exists t. split; [now left|reflexivity].
    + right. exists t'. split; [now right|assumption].
Qed.

Lemma merge_only (locals : list (result (state (Id := Id)))) (order : list nat) :
  forall (acc : gmap (string * Id) dict) k,
  is_Some (fold_left (fun merged i =>
               match locals !! i with
               | Some (Ok st) => results st ∪ merged
               | _ => merged
               end) order acc !! k) ->
  is_Some (acc !! k) \/
  exists i st, In i order /\ locals !! i = Some (Ok st) /\ is_Some (results st !! k).
Proof.
  induction order as [|i order IH]; intros acc k Hk; [now left|].
  cbn [fold_left] in Hk. apply IH in Hk as [Hk|(j & st & Hj & Hl & Hs)].
  - destruct (locals !! i) as [[st|]|] eqn:Hi; try (now left).
    apply lookup_union_is_Some in Hk as [Hk|Hk]; [|now left].
    right. exists i, st. split; [now left|auto].
  - right. exists j, st. split; [now right|auto].
Qed.

Lemma sequential_only_keys net start tasks cb st :
  _fetch_monitoring_sequential net start tasks cb = Ok st ->
  only_keys (results st) tasks.
Proof.
  unfold _fetch_monitoring_sequential. intros Hs k Hk.
  destruct (sequential_loop_keys _ _ _ _ _ _ _ Hs k Hk) as [Hk0|(t & Hin & Heq)].
  - cbn [initial results] in Hk0. rewrite lookup_empty in Hk0. now destruct Hk0.
  - exists t. split; [|assumption].
    eapply Permutation_in; [|exact Hin].
    rewrite InterleaverSpec.reorder_is_interleave. symmetry.
    apply InterleaverSpec.interleave_spec_perm.
Qed.

Lemma parallel_only_keys nets n order start tasks cb r :
  _fetch_monitoring_parallel nets n order start tasks cb = Ok r ->
  only_keys (merged r) tasks.
Proof.
  unfold _fetch_monitoring_parallel, mbind, result_bind.
  destruct (distribute n tasks) as [queues|] eqn:Hd; [|discriminate].
  intros [= <-] k Hk. cbn [merged] in Hk. unfold merge in Hk.
  apply merge_only in Hk as [Hk|(i & st & _ & Hl & Hs)].
  { rewrite lookup_empty in Hk. now destruct Hk. }
  rewrite list_lookup_imap in Hl.
  destruct (queues !! i) as [q|] eqn:Hq; [|discriminate]. cbn in Hl.
  injection Hl as Hl. unfold worker in Hl.
  destruct (worker_loop_keys _ _ _ _ Hl k Hs) as [Hk0|(t & Hin & Heq)].
  { cbn [initial results] in Hk0. rewrite lookup_empty in Hk0. now destruct Hk0. }
  exists t. split; [|assumption].
  destruct n as [|n].
  - unfold distribute in Hd. destruct tasks; [|discriminate].
    injection Hd as <-. cbn in Hq. discriminate.
  - destruct (distribute_spec (S n) tasks ltac:(lia)) as (queues' & Hd' & Hlen & Hqs).
    rewrite Hd in Hd'. injection Hd' as <-.
    assert (Hi : (i < S n)%nat) by (rewrite <- Hlen; eapply lookup_lt_Some, Hq).
    rewrite (Hqs i Hi) in Hq. injection Hq as <-.
    eapply strided_in, Hin.
Qed.

(** *** No task is lost or asked for twice *)

Lemma strided_snoc n k i0 tasks t :
  strided n k i0 (tasks ++ [t]) =
  (strided n k i0 tasks ++
   if ((i0 + length tasks) mod n =? k)%nat then [t] else [])%list.
Proof.
  revert i0. induction tasks as [|t' tasks IH]; intros i0.
  - unfold strided. cbn [app length seq combine List.filter fst map snd].
    rewrite Nat.add_0_r. now destruct (_ =? _)%nat.
  - unfold strided in *. cbn [app length seq combine List.filter fst].
    replace (i0 + S (length tasks))%nat with (S i0 + length tasks)%nat by lia.
    destruct (_ =? _)%nat; cbn [map snd app]; now rewrite IH.
Qed.

Lemma queues_snoc n tasks t : forall ks,
  List.NoDup ks -> In (length tasks mod n)%nat ks ->
  Permutation (concat (map (fun k => queue_of n k (tasks ++ [t])) ks))
              (t :: concat (map (fun k => queue_of n k tasks) ks)).
Proof.
  unfold queue_of.
  induction ks as [|k ks IH]; intros Hnd Hin; [destruct Hin|].
  inversion Hnd as [|? ? Hnotin Hnd']; subst. cbn [map concat].
  rewrite strided_snoc. cbn [Nat.add].
  destruct (Nat.eqb_spec (length tasks mod n) k) as [Heq|Hne].
  - assert (Hrest : map (fun k0 => strided n k0 0 (tasks ++ [t])) ks =
                    map (fun k0 => strided n k0 0 tasks) ks).
    { apply map_ext_in. intros k' Hk'. rewrite strided_snoc. cbn [Nat.add].
      destruct (Nat.eqb_spec (length tasks mod n) k'); [|now rewrite app_nil_r].
      congruence. }
    rewrite Hrest, <- app_assoc. cbn [app].
    symmetry. apply Permutation_middle.
  - destruct Hin as [Heq|Hin]; [congruence|].
    rewrite app_nil_r. rewrite (IH Hnd' Hin).
    symmetry. apply Permutation_middle.
Qed.

Lemma queues_perm n tasks :
  (0 < n)%nat ->
  Permutation tasks (concat (map (fun k => queue_of n k tasks) (seq 0 n))).
Proof.
  intros Hn. induction tasks as [|t tasks IH] using rev_ind.
  - unfold queue_of, strided. cbn [length seq combine List.filter map].
    induction (seq 0 n) as [|k ks IHk]; [constructor|exact IHk].
  - rewrite queues_snoc.
    + rewrite <- IH. symmetry. apply Permutation_cons_append.
    + apply seq_NoDup.
    + apply in_seq. pose proof (Nat.mod_upper_bound (length tasks) n). lia.
Qed.

(** *** The clock and the rate limit *)

(** The clock has not run backwards: no recorded request time is later
    than the current time. *)
Definition clock_ok st : Prop :=
  forall vid last, last_request_time st !! vid = Some last -> last <= now st.

(** The seconds of the sleeps of a run. *)
Definition sleeps (evs : list (effect (Id := Id))) : list Z :=
  flat_map (fun e => match e with Slept s => [s] | _ => [] end) evs.

Lemma sleeps_app (e1 e2 : list (effect (Id := Id))) :
  sleeps (e1 ++ e2) = (sleeps e1 ++ sleeps e2)%list.
Proof. unfold sleeps. now rewrite flat_map_app. Qed.

Definition short (s : Z) : Prop := 0 < s <= RATE_LIMIT_SECONDS.

(** What one task does to the clock. *)
Lemma fetch_task_clock net st t :
  exists st',
    fetch_task net st t = Ok st' /\
    let duration := snd (net (calls st)) in
    let issued := now st' - duration in
    last_request_time st' = <[ts_id_mo t := now st']> (last_request_time st) /\
    now st <= issued /\
    calls st' = S (calls st) /\
    match last_request_time st !! ts_id_mo t with
    | Some last =>
        last + RATE_LIMIT_SECONDS <= issued /\
        (issued = now st \/ issued = last + RATE_LIMIT_SECONDS) /\
        sleeps (events st') =
          (sleeps (events st) ++
           if now st - last <? RATE_LIMIT_SECONDS
           then [RATE_LIMIT_SECONDS - (now st - last)] else [])%list
    | None => issued = now st /\ sleeps (events st') = sleeps (events st)
    end.
Proof.
  unfold fetch_task.
  set (w := wait_for_vehicle (ts_id_mo t) st).
  assert (Hw : last_request_time w = last_request_time st /\ calls w = calls st /\
               match last_request_time st !! ts_id_mo t with
               | Some last =>
                   now w = (if now st - last <? RATE_LIMIT_SECONDS
                            then last + RATE_LIMIT_SECONDS else now st) /\
                   sleeps (events w) =
                     (sleeps (events st) ++
                      if now st - last <? RATE_LIMIT_SECONDS
                      then [RATE_LIMIT_SECONDS - (now st - last)] else [])%list
               | None => now w = now st /\ sleeps (events w) = sleeps (events st)
               end).
  { subst w. unfold wait_for_vehicle.
    destruct (last_request_time st !! ts_id_mo t) as [last|]; [|auto].
    destruct (Z.ltb_spec (now st - last) RATE_LIMIT_SECONDS);
      cbn [last_request_time calls now events].
    - rewrite sleeps_app. repeat split. lia.
    - rewrite app_nil_r. auto. }
  destruct Hw as (Hl & Hc & Hnow). rewrite Hc.
  destruct (net (calls st)) as [response duration]. cbn [snd].
  assert (Hst : forall parsed,
    let st' := record (pl_id t, ts_id_mo t) (ts_id_mo t) parsed
                 (mkstate (results w) (last_request_time w) (now w + duration)
                          (S (calls st)) (events w ++ [Called t])) in
    last_request_time st' = <[ts_id_mo t := now st']> (last_request_time st) /\
    now st <= now st' - duration /\
    calls st' = S (calls st) /\
    match last_request_time st !! ts_id_mo t with
    | Some last =>
        last + RATE_LIMIT_SECONDS <= now st' - duration /\
        (now st' - duration = now st \/ now st' - duration = last + RATE_LIMIT_SECONDS) /\
        sleeps (events st') =
          (sleeps (events st) ++
           if now st - last <? RATE_LIMIT_SECONDS
           then [RATE_LIMIT_SECONDS - (now st - last)] else [])%list
    | None => now st' - duration = now st /\ sleeps (events st') = sleeps (events st)
    end).
  { intros parsed. cbn [record last_request_time now calls events].
    rewrite Hl, sleeps_app. cbn [sleeps flat_map app]. rewrite app_nil_r.
    split; [reflexivity|].
    destruct (last_request_time st !! ts_id_mo t) as [last|].
    - destruct Hnow as (Hn & Hs). rewrite Hn, Hs.
      destruct (Z.ltb_spec (now st - last) RATE_LIMIT_SECONDS); repeat split; lia.
    - destruct Hnow as (Hn & Hs). rewrite Hn, Hs. repeat split; lia. }
  set (body := response ≫= _).
  destruct body as [parsed|e].
  - eexists. split; [reflexivity|apply Hst].
  - destruct e; (eexists; split; [reflexivity|apply Hst]).
Qed.

Lemma fetch_task_short net st t st' :
  0 <= snd (net (calls st)) -> clock_ok st -> Forall short (sleeps (events st)) ->
  fetch_task net st t = Ok st' ->
  clock_ok st' /\ Forall short (sleeps (events st')) /\ calls st' = S (calls st).
Proof.
  intros Hd Hok Hsh Hf.
  destruct (fetch_task_clock net st t) as (st1 & Hst1 & Hlast & Hnow & Hcalls & Hcase).
  rewrite Hf in Hst1. injection Hst1 as <-. cbv zeta in *.
  split; [|split; [|exact Hcalls]].
  - intros vid last. rewrite Hlast.
    destruct (decide (ts_id_mo t = vid)) as [<-|Hne].
    + rewrite lookup_insert_eq. intros [= <-]. lia.
    + rewrite lookup_insert_ne by assumption. intros Hv%Hok. lia.
  - destruct (last_request_time st !! ts_id_mo t) as [last|] eqn:Hl.
    + destruct Hcase as (_ & _ & ->). apply Forall_app. split; [assumption|].
      apply Hok in Hl.
      destruct (Z.ltb_spec (now st - last) RATE_LIMIT_SECONDS); constructor;
        [|constructor]. unfold short. lia.
    + destruct Hcase as (_ & ->). assumption.
Qed.

Lemma worker_loop_short net tasks : forall st st',
  (forall i, 0 <= snd (net i)) -> clock_ok st -> Forall short (sleeps (events st)) ->
  worker_loop net tasks st = Ok st' ->
  Forall short (sleeps (events st')).
Proof.
  induction tasks as [|t tasks IH]; intros st st' Hd Hok Hsh Hw.
  - now injection Hw as <-.
  - cbn [worker_loop] in Hw. unfold mbind, result_bind in Hw.
    destruct (fetch_task net st t) as [st1|] eqn:Hf; [|discriminate].
    destruct (fetch_task_short net st t st1 (Hd _) Hok Hsh Hf) as (Hok1 & Hsh1 & _).
    eapply IH; eassumption.
Qed.

Lemma sequential_loop_short net cb total tasks : forall i st st',
  (forall i, 0 <= snd (net i)) -> clock_ok st -> Forall short (sleeps (events st)) ->
  sequential_loop net cb total i tasks st = Ok st' ->
  Forall short (sleeps (events st')).
Proof.
  induction tasks as [|t tasks IH]; intros i st st' Hd Hok Hsh Hw.
  - now injection Hw as <-.
  - cbn [sequential_loop] in Hw. unfold mbind, result_bind in Hw.
    destruct (fetch_task net st t) as [st1|] eqn:Hf; [|discriminate].
    destruct (fetch_task_short net st t st1 (Hd _) Hok Hsh Hf) as (Hok1 & Hsh1 & _).
    eapply IH; [exact Hd| | |exact Hw].
    + destruct cb; exact Hok1.
    + destruct cb; [|exact Hsh1]. cbn [events]. rewrite sleeps_app.
      cbn [sleeps flat_map app]. now rewrite app_nil_r.
Qed.

(** *** The times of the requests

    The trace of a loop and the durations of the calls give the time at
    which every request was issued and answered. *)

Fixpoint timeline (net : network) (clock : Z) (j : nat)
    (evs : list (effect (Id := Id))) : list (task Id * Z * Z) :=
  match evs with
  | [] => []
  | Slept s :: evs' => timeline net (clock + s) j evs'
  | Called t :: evs' =>
      (t, clock, clock + snd (net j)) :: timeline net (clock + snd (net j)) (S j) evs'
  | Progress _ _ :: evs' => timeline net clock j evs'
  end.

(** The clock and the number of calls at the end of a trace. *)
Fixpoint clock_end (net : network) (clock : Z) (j : nat)
    (evs : list (effect (Id := Id))) : Z * nat :=
  match evs with
  | [] => (clock, j)
  | Slept s :: evs' => clock_end net (clock + s) j evs'
  | Called t :: evs' => clock_end net (clock + snd (net j)) (S j) evs'
  | Progress _ _ :: evs' => clock_end net clock j evs'
  end.

Lemma timeline_app net : forall e1 e2 clock j,
  timeline net clock j (e1 ++ e2) =
  (timeline net clock j e1 ++
   timeline net (fst (clock_end net clock j e1)) (snd (clock_end net clock j e1)) e2)%list.
Proof.
  induction e1 as [|[s|t|c tot] e1 IH]; intros e2 clock j; cbn [app timeline clock_end];
    rewrite ?IH; reflexivity.
Qed.

Lemma clock_end_app net : forall e1 e2 clock j,
  clock_end net clock j (e1 ++ e2) =
  clock_end net (fst (clock_end net clock j e1)) (snd (clock_end net clock j e1)) e2.
Proof.
  induction e1 as [|[s|t|c tot] e1 IH]; intros e2 clock j; cbn [app clock_end];
    rewrite ?IH; reflexivity.
Qed.

(** Two requests for one vehicle: the later is issued thirty seconds
    after the earlier was answered, or later still. *)
Definition spaced (tl : list (task Id * Z * Z)) : Prop :=
  forall i j t1 issued1 answered1 t2 issued2 answered2,
    (i < j)%nat ->
    tl !! i = Some (t1, issued1, answered1) ->
    tl !! j = Some (t2, issued2, answered2) ->
    ts_id_mo t1 = ts_id_mo t2 ->
    answered1 + RATE_LIMIT_SECONDS <= issued2.

(** The state agrees with its trace. *)
Record timed (net : network) (start : Z) st : Prop := {
  timed_clock : clock_end net start 0 (events st) = (now st, calls st);
  timed_ok : clock_ok st;
  timed_last : forall t issued answered,
    In (t, issued, answered) (timeline net start 0 (events st)) ->
    exists last, last_request_time st !! ts_id_mo t = Some last /\ answered <= last;
  timed_spaced : spaced (timeline net start 0 (events st))
}.

Lemma timed_initial net start : timed net start (initial start).
Proof.
  split; unfold clock_ok, initial;
    cbn [events now calls timeline clock_end last_request_time].
  - reflexivity.
  - intros vid last. rewrite lookup_empty. discriminate.
  - intros ? ? ? [].
  - intros i j ? ? ? ? ? ? _ Hi. rewrite lookup_nil in Hi. discriminate.
Qed.

Lemma wait_for_vehicle_trace net start vid st :
  clock_end net start 0 (events st) = (now st, calls st) ->
  let w := wait_for_vehicle vid st in
  clock_end net start 0 (events w) = (now w, calls w) /\
  timeline net start 0 (events w) = timeline net start 0 (events st).
Proof.
  intros Hc. unfold wait_for_vehicle. destruct (last_request_time st !! vid); [|auto].
  destruct (_ <? _); [|auto]. cbn [events now calls].
  rewrite clock_end_app, timeline_app, Hc. cbn [fst snd clock_end timeline].
  now rewrite app_nil_r.
Qed.

Lemma fetch_task_timed net start st t st' :
  0 <= snd (net (calls st)) -> timed net start st ->
  fetch_task net st t = Ok st' -> timed net start st'.
Proof.
  intros Hd [Hc Hok Hlast Hsp] Hf.
  destruct (fetch_task_clock net st t) as (st1 & Hst1 & Hl & Hnow & Hcalls & Hcase).
  rewrite Hf in Hst1. injection Hst1 as <-. cbv zeta in *.
  assert (Htrace : clock_end net start 0 (events st') = (now st', calls st') /\
                   timeline net start 0 (events st') =
                   (timeline net start 0 (events st) ++
                    [(t, now st' - snd (net (calls st)), now st')])%list).
  { revert Hf. unfold fetch_task.
    destruct (wait_for_vehicle_trace net start (ts_id_mo t) st Hc) as (Hcw & Htw).
    destruct (wait_for_vehicle_keeps (ts_id_mo t) st) as (_ & Hcallsw & _).
    set (w := wait_for_vehicle (ts_id_mo t) st) in *. rewrite Hcallsw.
    destruct (net (calls st)) as [response duration] eqn:Hnet. cbn [snd].
    assert (Hst : forall parsed,
      let s := record (pl_id t, ts_id_mo t) (ts_id_mo t) parsed
                 (mkstate (results w) (last_request_time w) (now w + duration)
                          (S (calls st)) (events w ++ [Called t])) in
      clock_end net start 0 (events s) = (now s, calls s) /\
      timeline net start 0 (events s) =
      (timeline net start 0 (events st) ++ [(t, now s - duration, now s)])%list).
    { intros parsed. cbn [record events now calls].
      rewrite clock_end_app, timeline_app, Hcw, Htw. cbn [fst snd clock_end timeline].
      rewrite Hcallsw, Hnet. cbn [snd]. split; [reflexivity|].
      do 4 f_equal. lia. }
    set (body := response ≫= _).
    destruct body as [parsed|e]; [|destruct e]; intros [= <-]; apply Hst. }
  destruct Htrace as (Hc' & Ht').
  assert (Hok' : clock_ok st').
  { intros vid last. rewrite Hl.
    destruct (decide (ts_id_mo t = vid)) as [<-|Hne].
    - rewrite lookup_insert_eq. intros [= <-]. lia.
    - rewrite lookup_insert_ne by assumption. intros Hv%Hok. lia. }
  split; [exact Hc'|exact Hok'| |].
  - intros t0 issued answered. rewrite Ht'. intros [Hin|[[= <- _ <-]|[]]]%in_app_or.
    + destruct (Hlast _ _ _ Hin) as (last & Hlk & Hle). rewrite Hl.
      destruct (decide (ts_id_mo t = ts_id_mo t0)) as [Heq|Hne].
      * rewrite Heq, lookup_insert_eq. eexists. split; [reflexivity|].
        apply Hok in Hlk. lia.
      * rewrite lookup_insert_ne by assumption. eauto.
    + rewrite Hl, lookup_insert_eq. eexists. split; [reflexivity|lia].
  - rewrite Ht'. intros i j t1 i1 a1 t2 i2 a2 Hij Hi Hj Hv.
    assert (Hjlen : (j < length (timeline net start 0 (events st)) \/
                     j = length (timeline net start 0 (events st)))%nat).
    { apply lookup_lt_Some in Hj. rewrite length_app in Hj. cbn [length] in Hj. lia. }
    destruct Hjlen as [Hjl|Hjl].
    + rewrite lookup_app_l in Hi by lia. rewrite lookup_app_l in Hj by lia.
      exact (Hsp i j _ _ _ _ _ _ Hij Hi Hj Hv).
    + rewrite lookup_app_l in Hi by lia.
      rewrite lookup_app_r in Hj by lia. rewrite Hjl, Nat.sub_diag in Hj.
      injection Hj as <- <- <-.
      apply list_elem_of_lookup_2, list_elem_of_In in Hi.
      destruct (Hlast _ _ _ Hi) as (last & Hlk & Hle).
      rewrite Hv in Hlk. rewrite Hlk in Hcase. lia.
Qed.

Lemma worker_loop_timed net start tasks : forall st st',
  (forall i, 0 <= snd (net i)) -> timed net start st ->
  worker_loop net tasks st = Ok st' -> timed net start st'.
Proof.
  induction tasks as [|t tasks IH]; intros st st' Hd Ht Hw.
  - now injection Hw as <-.
  - cbn [worker_loop] in Hw. unfold mbind, result_bind in Hw.
    destruct (fetch_task net st t) as [st1|] eqn:Hf; [|discriminate].
    eapply IH; [exact Hd| |exact Hw]. eapply fetch_task_timed; eauto.
Qed.

Lemma progress_timed net start st c tot :
  timed net start st ->
  timed net start (mkstate (results st) (last_request_time st) (now st) (calls st)
                           (events st ++ [Progress c tot])).
Proof.
  intros [Hc Hok Hlast Hsp].
  assert (Ht : timeline net start 0 (events st ++ [Progress c tot]) =
               timeline net start 0 (events st)).
  { rewrite timeline_app. cbn [timeline]. now rewrite app_nil_r. }
  split; cbn [events now calls last_request_time]; rewrite ?Ht; try assumption.
  rewrite clock_end_app, Hc. reflexivity.
Qed.

Lemma sequential_loop_timed net start cb total tasks : forall i st st',
  (forall i, 0 <= snd (net i)) -> timed net start st ->
  sequential_loop net cb total i tasks st = Ok st' -> timed net start st'.
Proof.
  induction tasks as [|t tasks IH]; intros i st st' Hd Ht Hw.
  - now injection Hw as <-.
  - cbn [sequential_loop] in Hw. unfold mbind, result_bind in Hw.
    destruct (fetch_task net st t) as [st1|] eqn:Hf; [|discriminate].
    eapply IH; [exact Hd| |exact Hw].
    pose proof (fetch_task_timed net start st t st1 (Hd _) Ht Hf) as Ht1.
    destruct cb; [now apply progress_timed|exact Ht1].
Qed.

End WithId.

(** X15.  The dictionary [fetch_monitoring_batch] returns has no key but the
    keys of the tasks, with one token or several and in whatever order
    the workers complete; without tasks it is empty. *)
Theorem batch_has_only_task_keys {Id : Type} `{Countable Id} (F : FloatOps)
    (nets : nat -> network) (n : nat) (order : list nat) (start : Z)
    (tasks : list (task Id)) (progress_callback : bool) :
  exists m reports,
    fetch_monitoring_batch nets n order start tasks progress_callback = Ok (m, reports) /\
    (forall k, is_Some (m !! k) -> exists t, In t tasks /\ key_of t = k) /\
    (tasks = [] -> m = ∅).
Proof.
  assert (Hb : exists m reports,
            fetch_monitoring_batch nets n order start tasks progress_callback
              = Ok (m, reports) /\ only_keys m tasks).
  { unfold fetch_monitoring_batch. destruct (Nat.ltb_spec 1 n) as [Hn|Hn].
    - destruct (parallel_spec nets n order start tasks progress_callback ltac:(lia))
        as (r & Hr & _).
      rewrite Hr. cbn [mbind result_bind]. do 2 eexists. split; [reflexivity|].
      eapply parallel_only_keys, Hr.
    - destruct (sequential_spec (nets O) start tasks progress_callback)
        as (st & Hst & _).
      rewrite Hst. cbn [mbind result_bind]. do 2 eexists. split; [reflexivity|].
      eapply sequential_only_keys, Hst. }
  destruct Hb as (m & reports & Hb & Hk). exists m, reports.
  split; [exact Hb|]. split; [exact Hk|].
  intros ->. apply map_eq. intros k. rewrite lookup_empty.
  destruct (m !! k) eqn:E; [|reflexivity].
  destruct (Hk k) as (t & [] & _). rewrite E. eauto.
Qed.

(** X16.  No task is lost and none is asked for twice.  With one token the
    requests are the tasks, reordered; with [n] tokens worker [k] asks
    for the tasks at the positions [k], [k + n], [k + 2n], ... in that
    order, and the workers together for all the tasks. *)
Theorem every_task_is_requested_once {Id : Type} `{Countable Id} (F : FloatOps)
    (nets : nat -> network) (n : nat) (order : list nat) (start : Z)
    (tasks : list (task Id)) (progress_callback : bool) :
  (exists st,
     _fetch_monitoring_sequential (nets O) start tasks progress_callback = Ok st /\
     Permutation tasks (calls_of (events st))) /\
  ((0 < n)%nat ->
   exists r,
     _fetch_monitoring_parallel nets n order start tasks progress_callback = Ok r /\
     Permutation tasks
       (concat (map (fun w => match w with
                              | Ok st => calls_of (events st)
                              | Raise _ => []
                              end) (workers r)))).
Proof.
  split.
  - destruct (sequential_spec (nets O) start tasks progress_callback)
      as (st & Hst & _ & Hcalls & _).
    exists st. split; [exact Hst|]. rewrite Hcalls.
    rewrite InterleaverSpec.reorder_is_interleave.
    apply InterleaverSpec.interleave_spec_perm.
  - intros Hn.
    destruct (parallel_spec nets n order start tasks progress_callback Hn)
      as (r & Hr & Hlen & Hw & _).
    exists r. split; [exact Hr|].
    assert (Hq : map (fun w : result (state (Id := Id)) =>
                        match w with
                        | Ok st => calls_of (events st)
                        | Raise _ => []
                        end) (workers r) =
                 map (fun k => queue_of n k tasks) (seq 0 n)).
    { apply list_eq. intros k. rewrite !list_lookup_fmap.
      destruct (Nat.lt_ge_cases k n) as [Hk|Hk].
      - destruct (Hw k Hk) as (st & Hst & Hcalls & _).
        rewrite Hst, lookup_seq_lt by assumption. cbn. now rewrite Hcalls.
      - rewrite lookup_ge_None_2 by lia.
        rewrite lookup_seq_ge by assumption. reflexivity. }
    rewrite Hq. now apply queues_perm.
Qed.

Lemma every_task_is_requested_once_witness :
  exists r,
    _fetch_monitoring_parallel (H0 := MonitoringParserSpec.no_arithmetic)
      Examples.not_found 2 [0; 1]%nat 0
      [Examples.t0; Examples.t1; Examples.t2] false = Ok r /\
    Permutation [Examples.t0; Examples.t1; Examples.t2]
      (concat (map (fun w => match w with
                             | Ok st => calls_of (events st)
                             | Raise _ => []
                             end) (workers r))).
Proof.
  apply (every_task_is_requested_once MonitoringParserSpec.no_arithmetic
           Examples.not_found 2 [0; 1]%nat 0
           [Examples.t0; Examples.t1; Examples.t2] false).
  lia.
Defined.

(** X17.  While the clock does not run backwards, a loop over tasks never
    sleeps longer than thirty seconds at a time, and two requests for
    one vehicle are at least thirty seconds apart: the later one is
    issued no sooner than thirty seconds after the earlier one was
    answered.  The times are those of the trace: the clock starts at
    [start] and advances by every sleep and by the duration of every
    call. *)
Theorem requests_for_a_vehicle_are_spaced {Id : Type} `{Countable Id} (F : FloatOps)
    (net : network) (start : Z) (tasks : list (task Id)) (progress_callback : bool) :
  (forall i, 0 <= snd (net i)) ->
  (exists st,
     _fetch_monitoring_sequential net start tasks progress_callback = Ok st /\
     clock_end net start 0 (events st) = (now st, calls st) /\
     spaced (timeline net start 0 (events st)) /\
     Forall short (sleeps (events st))) /\
  (exists st,
     worker net start tasks = Ok st /\
     clock_end net start 0 (events st) = (now st, calls st) /\
     spaced (timeline net start 0 (events st)) /\
     Forall short (sleeps (events st))).
Proof.
  intros Hd. split.
  - destruct (sequential_spec net start tasks progress_callback) as (st & Hst & _).
    exists st. split; [exact Hst|]. unfold _fetch_monitoring_sequential in Hst.
    pose proof (sequential_loop_timed _ _ _ _ _ _ _ _ Hd (timed_initial net start) Hst)
      as [Hc _ _ Hsp].
    repeat split; try assumption.
    eapply sequential_loop_short; [exact Hd| | |exact Hst].
    + apply (timed_ok _ _ _ (timed_initial net start)).
    + constructor.
  - destruct (worker_spec net start tasks) as (st & Hst & _).
    exists st. split; [exact Hst|]. unfold worker in Hst.
    pose proof (worker_loop_timed _ _ _ _ _ Hd (timed_initial net start) Hst)
      as [Hc _ _ Hsp].
    repeat split; try assumption.
    eapply worker_loop_short; [exact Hd| | |exact Hst].
    + apply (timed_ok _ _ _ (timed_initial net start)).
    + constructor.
Qed.

(** Two tasks for the vehicle 101 and a network that answers at once. *)
Definition same_vehicle : list (task Z) := [Examples.t0; Examples.t2].
Definition instant : network := fun _ => (Raise NotFoundError, 0).

Lemma requests_for_a_vehicle_are_spaced_witness :
  exists st,
    worker (H0 := MonitoringParserSpec.no_arithmetic) instant 0 same_vehicle = Ok st /\
    clock_end instant 0 0 (events st) = (now st, calls st) /\
    spaced (timeline instant 0 0 (events st)) /\
    Forall short (sleeps (events st)).
Proof.
  apply (requests_for_a_vehicle_are_spaced MonitoringParserSpec.no_arithmetic
           instant 0 same_vehicle false).
  intros i. cbn. lia.
Defined.

End FetcherInvariants.

Module InterleaverOrder.
Import Py Interleaver InterleaverSpec.

Section WithId.
Context {Id : Type} `{EqDecision Id}.
Implicit Types (t : task Id) (l : list (task Id)) (gl : list (list (task Id))).
Implicit Types (ks : list Id).

(** Group [i] holds tasks of the vehicle [ks !! i] only. *)
Definition keyed ks gl : Prop :=
  Forall2 (fun k g => Forall (fun t => ts_id_mo t = k) g) ks gl.

(** The rounds taken from the groups: what [rounds] appends. *)
Definition taken gl (n : nat) : list (task Id) :=
  flat_map (spec_round gl) (seq 0 n).

(** Where two neighbours are of one vehicle, so is all that follows. *)
Fixpoint settled l : Prop :=
  match l with
  | t1 :: (t2 :: _) as l' =>
      (ts_id_mo t1 = ts_id_mo t2 -> Forall (fun t => ts_id_mo t = ts_id_mo t1) l') /\
      settled l'
  | _ => True
  end.

Lemma taken_S gl n : taken gl (S n) = (heads gl ++ taken (map (@tl _) gl) n)%list.
Proof.
  unfold taken. cbn [seq flat_map]. rewrite spec_round_0, flat_map_seq_S.
  f_equal. apply flat_map_ext. intros k. apply spec_round_S.
Qed.

Lemma keyed_tl ks gl : keyed ks gl -> keyed ks (map (@tl _) gl).
Proof.
  induction 1 as [|k g ks gl Hg _ IH]; cbn [map]; constructor; [|exact IH].
  destruct g; [constructor|]. now inversion Hg.
Qed.

Lemma heads_vehicles ks gl :
  keyed ks gl -> sublist (map ts_id_mo (heads gl)) ks.
Proof.
  induction 1 as [|k g ks gl Hg _ IH]; [constructor|].
  unfold heads in *. cbn [flat_map]. destruct g as [|t g]; cbn [app map].
  - now apply sublist_cons.
  - inversion Hg as [|? ? Ht _]; subst. now apply sublist_skip.
Qed.

Lemma heads_in ks gl t : keyed ks gl -> In t (heads gl) -> In (ts_id_mo t) ks.
Proof.
  intros Hk Hin. apply heads_vehicles in Hk.
  apply list_elem_of_In. apply (sublist_subseteq _ _ Hk).
  apply list_elem_of_In, in_map, Hin.
Qed.

Lemma heads_empty gl : heads gl = [] -> Forall (fun g => g = []) gl.
Proof.
  induction gl as [|g gl IH]; [constructor|]. unfold heads in *. cbn [flat_map].
  destruct g; [|discriminate]. cbn [app]. intros Hh. constructor; auto.
Qed.

Lemma empty_groups_tl gl :
  Forall (fun g => g = []) gl -> Forall (fun g => g = []) (map (@tl _) gl).
Proof. induction 1 as [|g gl -> _ IH]; cbn [map tl]; constructor; auto. Qed.

Lemma empty_groups_heads gl : Forall (fun g => g = []) gl -> heads gl = [].
Proof. induction 1 as [|g gl -> _ IH]; [reflexivity|exact IH]. Qed.

Lemma empty_groups_concat gl : Forall (fun g => g = []) gl -> concat gl = [].
Proof. induction 1 as [|g gl -> _ IH]; [reflexivity|exact IH]. Qed.

Lemma empty_groups_taken n : forall gl, Forall (fun g => g = []) gl -> taken gl n = [].
Proof.
  induction n as [|n IH]; intros gl He; [reflexivity|].
  rewrite taken_S, empty_groups_heads by assumption.
  apply IH. now apply empty_groups_tl.
Qed.

Lemma taken_in n : forall gl t, In t (taken gl n) -> In t (concat gl).
Proof.
  induction n as [|n IH]; intros gl t Hin; [destruct Hin|].
  rewrite taken_S in Hin. apply in_app_or in Hin as [Hin|Hin].
  - clear IH. induction gl as [|g gl IHg]; [destruct Hin|].
    unfold heads in Hin. cbn [flat_map concat] in *.
    apply in_or_app. apply in_app_or in Hin as [Hin|Hin]; [left|right; auto].
    destruct g; [destruct Hin|]. destruct Hin as [<-|[]]. now left.
  - apply IH in Hin. clear IH. induction gl as [|g gl IHg]; [destruct Hin|].
    cbn [map concat] in *. apply in_or_app.
    apply in_app_or in Hin as [Hin|Hin]; [left|right; auto].
    destruct g; [destruct Hin|]. now right.
Qed.

Lemma head_taken n gl b : head (taken gl n) = Some b -> head (heads gl) = Some b.
Proof.
  destruct n as [|n]; [discriminate|]. rewrite taken_S.
  destruct (heads gl) as [|h hs] eqn:Hh; [|now cbn].
  rewrite empty_groups_taken; [discriminate|].
  now apply empty_groups_tl, heads_empty.
Qed.

Lemma heads_nil gl : heads ([] :: gl) = heads gl.
Proof. reflexivity. Qed.

Lemma heads_cons t g gl : heads ((t :: g) :: gl) = t :: heads gl.
Proof. reflexivity. Qed.

(** The end of one round and the start of the next. *)
Lemma round_boundary ks gl :
  keyed ks gl -> List.NoDup ks ->
  forall a b, last (heads gl) = Some a -> head (heads (map (@tl _) gl)) = Some b ->
    ts_id_mo a = ts_id_mo b ->
    forall t, In t (concat (map (@tl _) gl)) -> ts_id_mo t = ts_id_mo a.
Proof.
  induction 1 as [|k g ks gl Hg Hk IH]; intros Hnd a b Ha Hb Hab t Ht.
  { destruct Ht. }
  inversion Hnd as [|? ? Hnotin Hnd']; subst.
  destruct g as [|t0 [|t1 g]]; cbn [map tl concat app] in Hb, Ht;
    rewrite ?heads_nil, ?heads_cons in Ha; rewrite ?heads_nil, ?heads_cons in Hb.
  - eapply IH; eassumption.
  - destruct (heads gl) as [|h hs] eqn:Hh.
    + apply heads_empty, empty_groups_tl, empty_groups_heads in Hh.
      rewrite Hh in Hb. discriminate.
    + rewrite last_cons_cons in Ha. eapply IH; try eassumption.
  - cbn [head] in Hb. injection Hb as <-.
    apply List.Forall_cons_iff in Hg as (Ht0 & Hg').
    apply List.Forall_cons_iff in Hg' as (Ht1 & Hg'').
    destruct (heads gl) as [|h hs] eqn:Hh.
    + cbn [last] in Ha. injection Ha as <-.
      apply heads_empty, empty_groups_tl, empty_groups_concat in Hh. rewrite Hh in Ht.
      rewrite app_nil_r in Ht. destruct Ht as [<-|Ht]; [congruence|].
      rewrite Ht0. eapply List.Forall_forall in Hg''; eassumption.
    + exfalso. rewrite last_cons_cons in Ha.
      apply Hnotin. rewrite <- Ht1, <- Hab.
      eapply heads_in; [exact Hk|]. rewrite Hh.
      apply list_elem_of_In. eapply last_Some_elem_of, Ha.
Qed.

Lemma settled_app l1 : forall l2,
  List.NoDup (map ts_id_mo l1) -> settled l2 ->
  (forall a b, last l1 = Some a -> head l2 = Some b -> ts_id_mo a = ts_id_mo b ->
     Forall (fun t => ts_id_mo t = ts_id_mo a) l2) ->
  settled (l1 ++ l2).
Proof.
  induction l1 as [|a l1 IH]; intros l2 Hnd Hs Hb; [exact Hs|].
  cbn [map] in Hnd. inversion Hnd as [|? ? Hnotin Hnd']; subst.
  destruct l1 as [|a2 l1].
  - cbn [app]. destruct l2 as [|b l2]; [exact I|].
    cbn [settled]. split; [|exact Hs]. intros Hab. now apply (Hb a b).
  - cbn [app settled]. split.
    + intros Heq. exfalso. apply Hnotin. cbn [map]. left. congruence.
    + apply IH; [exact Hnd'|exact Hs|].
      intros x b Hx. apply Hb. rewrite last_cons, Hx. reflexivity.
Qed.

Lemma taken_settled n : forall ks gl,
  keyed ks gl -> List.NoDup ks -> settled (taken gl n).
Proof.
  induction n as [|n IH]; intros ks gl Hk Hnd; [exact I|].
  rewrite taken_S. apply settled_app.
  - apply NoDup_ListNoDup. eapply sublist_NoDup; [|apply heads_vehicles, Hk].
    now apply NoDup_ListNoDup.
  - eapply IH; [apply keyed_tl, Hk|exact Hnd].
  - intros a b Ha Hb Hab. apply List.Forall_forall. intros t Ht.
    eapply round_boundary; try eassumption.
    + eapply head_taken, Hb.
    + eapply taken_in, Ht.
Qed.

Lemma settled_split l : forall pre t1 t2 post,
  settled l -> l = (pre ++ t1 :: t2 :: post)%list -> ts_id_mo t1 = ts_id_mo t2 ->
  Forall (fun t => ts_id_mo t = ts_id_mo t1) post.
Proof.
  induction l as [|x l IH]; intros pre t1 t2 post Hs Hl Heq.
  - destruct pre; discriminate.
  - destruct pre as [|p pre]; cbn [app] in Hl.
    + injection Hl as -> ->. cbn [settled] in Hs. destruct Hs as (Hs & _).
      specialize (Hs Heq). now inversion Hs.
    + injection Hl as -> Hl. destruct l as [|y l]; [destruct pre; discriminate|].
      cbn [settled] in Hs. destruct Hs as (_ & Hs). eapply IH; eassumption.
Qed.

Lemma spec_groups_keyed (tasks : list (task Id)) :
  keyed (first_appearance (map ts_id_mo tasks)) (spec_groups tasks).
Proof.
  unfold keyed, spec_groups.
  induction (first_appearance (map ts_id_mo tasks)) as [|k ks IH]; cbn [map];
    constructor; [|exact IH].
  apply List.Forall_forall. intros t Ht. unfold group_of in Ht.
  apply List.filter_In in Ht as (_ & Ht). now apply bool_decide_eq_true in Ht.
Qed.

Lemma reorder_settled (tasks : list (task Id)) :
  settled (_reorder_tasks_for_rate_limit tasks).
Proof.
  rewrite reorder_is_interleave. unfold interleave_spec.
  eapply (taken_settled _ _ _ (spec_groups_keyed tasks)).
  apply first_appearance_nodup.
Qed.

End WithId.

(** X18.  In the order of [_reorder_tasks_for_rate_limit] two neighbours are
    of one vehicle only where nothing but tasks of that vehicle is left:
    all the tasks after them are of that vehicle too. *)
Theorem same_vehicle_twice_only_at_the_end {Id : Type} `{EqDecision Id}
    (tasks pre : list (task Id)) (t1 t2 : task Id) (post : list (task Id)) :
  _reorder_tasks_for_rate_limit tasks = (pre ++ t1 :: t2 :: post)%list ->
  ts_id_mo t1 = ts_id_mo t2 ->
  Forall (fun t => ts_id_mo t = ts_id_mo t1) post.
Proof.
  intros Hr Heq. eapply settled_split; [apply reorder_settled|exact Hr|exact Heq].
Qed.

(** A fourth task of the vehicle A. *)
Definition a4 : task string :=
  mktask "pl7" "A" JNull JNull (JStr "01.01.2026") (JStr "02.01.2026").

Lemma same_vehicle_twice_only_at_the_end_witness :
  _reorder_tasks_for_rate_limit
    [InterleaverExample.a1; InterleaverExample.a2; InterleaverExample.b1;
     InterleaverExample.a3; a4] =
  [InterleaverExample.a1; InterleaverExample.b1; InterleaverExample.a2;
   InterleaverExample.a3; a4] /\
  Forall (fun t => ts_id_mo t = "A") [a4].
Proof.
  split; [reflexivity|].
  apply (same_vehicle_twice_only_at_the_end
           [InterleaverExample.a1; InterleaverExample.a2; InterleaverExample.b1;
            InterleaverExample.a3; a4]
           [InterleaverExample.a1; InterleaverExample.b1]
           InterleaverExample.a2 InterleaverExample.a3 [a4]); reflexivity.
Defined.

End InterleaverOrder.

Module ExtractorInvariants.
Import Py Extractor ExtractorSpec.

Section WithStr.
Variable py_str : json -> string.
Hypothesis py_str_str : forall s, py_str (JStr s) = s.

(** The entry [ts] of the [ts] list of the record [pl] is one the
    extractor makes a task from: the record has both planned dates, the
    entry has a true [idMO], and its [nameMO] is there and, in lower
    case, holds the word for a tractor. *)
Definition tractor_of (pls : list json) (pl ts : dict) : Prop :=
  In (JDict pl) pls /\
  truthy (date_out_plan pl) = true /\ truthy (date_in_plan pl) = true /\
  (exists ts_list,
     iterate (get_default pl "ts" (JList [])) = Ok ts_list /\ In (JDict ts) ts_list) /\
  truthy (get ts "idMO") = true /\
  exists name, lookup "nameMO" ts = Some name /\
               Str.contains "тягач" (lower (py_str name)) = true.

Lemma contains_empty needle : needle <> "" -> Str.contains needle "" = false.
Proof. destruct needle; [congruence|reflexivity]. Qed.

(** The name test of the loop, which reads a missing name as [""]. *)
Lemma name_test ts :
  Str.contains "тягач" (lower (py_str (get_default ts "nameMO" (JStr "")))) = true <->
  exists name, lookup "nameMO" ts = Some name /\
               Str.contains "тягач" (lower (py_str name)) = true.
Proof.
  unfold get_default. destruct (lookup "nameMO" ts) as [v|].
  - split; [eauto|]. now intros (name & [= <-] & Hc).
  - rewrite py_str_str. cbn [lower]. rewrite contains_empty by discriminate.
    split; [discriminate|]. now intros (name & [= ] & _).
Qed.

Lemma ts_tasks_member pid dop dip ts t :
  In t (ts_tasks py_str pid dop dip ts) <->
  exists d, ts = JDict d /\ truthy (get d "idMO") = true /\
    Str.contains "тягач" (lower (py_str (get_default d "nameMO" (JStr "")))) = true /\
    t = mktask pid (get d "idMO") (get d "regNumber") (get d "nameMO") dop dip.
Proof.
  unfold ts_tasks. split.
  - destruct ts as [| | | | | |d]; try (intros []).
    destruct (truthy (get d "idMO")) eqn:Hid; cbn [negb]; [|intros []].
    destruct (Str.contains _ _) eqn:Hname; cbn [negb]; [|intros []].
    intros [<-|[]]. exists d. auto.
  - intros (d & -> & -> & -> & ->). cbn [negb]. now left.
Qed.

(** The entries of a list that is worth a loop: it is not empty. *)
Lemma iterated_entry v l ts : iterate v = Ok l -> In (JDict ts) l -> truthy v = true.
Proof.
  destruct v as [| | | |s|l'|d]; cbn [iterate]; try discriminate; intros [= <-].
  - intros (c & [= ] & _)%in_map_iff.
  - now destruct l'.
  - intros (kv & [= ] & _)%in_map_iff.
Qed.

Lemma pl_tasks_member pl new :
  pl_tasks py_str pl = Ok new ->
  exists d, pl = JDict d /\
    forall t, In t new <->
      truthy (date_out_plan d) = true /\ truthy (date_in_plan d) = true /\
      exists ts_list ts,
        iterate (get_default d "ts" (JList [])) = Ok ts_list /\ In (JDict ts) ts_list /\
        truthy (get ts "idMO") = true /\
        Str.contains "тягач" (lower (py_str (get_default ts "nameMO" (JStr "")))) = true /\
        t = task_of py_str d ts.
Proof.
  unfold pl_tasks. destruct pl as [| | | | | |d]; try discriminate.
  cbn [as_dict mbind result_bind]. fold (date_out_plan d) (date_in_plan d).
  intros Hpl. exists d. split; [reflexivity|].
  destruct (truthy (date_out_plan d)) eqn:Hout; cbn [negb orb] in Hpl;
    [|injection Hpl as <-; split; [intros []|now intros (? & _)]].
  destruct (truthy (date_in_plan d)) eqn:Hin; cbn [negb orb] in Hpl;
    [|injection Hpl as <-; split; [intros []|now intros (_ & ? & _)]].
  destruct (truthy (get_default d "ts" (JList []))) eqn:Hts; cbn [negb] in Hpl.
  - destruct (iterate (get_default d "ts" (JList []))) as [l|] eqn:Hit;
      cbn [mbind result_bind] in Hpl; [|discriminate].
    injection Hpl as <-. intros t. rewrite in_flat_map. split.
    + intros (ts & Hin' & (v & -> & Hid & Hname & ->)%ts_tasks_member).
      split; [reflexivity|]. split; [reflexivity|]. exists l, v. auto.
    + intros (_ & _ & l' & ts & [= <-] & Hin' & Hid & Hname & ->).
      exists (JDict ts). split; [exact Hin'|]. apply ts_tasks_member. exists ts. auto.
  - injection Hpl as <-. intros t. split; [intros []|].
    intros (_ & _ & l & ts & Hit & Hin' & _).
    rewrite (iterated_entry _ _ _ Hit Hin') in Hts. discriminate.
Qed.

Lemma concat_member pls : forall news t,
  Forall2 (fun pl new => pl_tasks py_str pl = Ok new) pls news ->
  In t (concat news) <->
  exists pl new, In pl pls /\ pl_tasks py_str pl = Ok new /\ In t new.
Proof.
  induction pls as [|pl pls IH]; intros news t Hall; inversion Hall as [|? new ? news' Hpl Hall'];
    subst; cbn [concat].
  - split; [intros []|now intros (? & ? & [] & _)].
  - rewrite in_app_iff, (IH news' t Hall'). split.
    + intros [Hin|(pl' & new' & Hin & Hpl' & Ht)].
      * exists pl, new. auto with datatypes.
      * exists pl', new'. auto with datatypes.
    + intros (pl' & new' & [<-|Hin] & Hpl' & Ht).
      * left. congruence.
      * right. eauto.
Qed.

Lemma extract_loop_raises pl : forall pls acc,
  In pl pls -> as_dict pl = Raise AttributeError ->
  exists e, extract_loop py_str pls acc = Raise e.
Proof.
  induction pls as [|p pls IH]; intros acc Hin Hbad; [destruct Hin|].
  cbn [extract_loop]. unfold mbind, result_bind.
  destruct Hin as [->|Hin].
  - unfold pl_tasks, mbind, result_bind. rewrite Hbad. eauto.
  - destruct (pl_tasks py_str p) as [new|e]; [|eauto].
    now apply IH.
Qed.

End WithStr.

(** What [str] gives for strings, numbers apart. *)
Definition str_of_text (v : json) : string :=
  match v with
  | JStr s => s
  | _ => "None"
  end.

(** X19.  The tasks the extractor emits are exactly the tasks made from the
    tractors of the input: a task is emitted if and only if it is the
    task of a record of the list that has both planned dates and of an
    entry of the [ts] list of that record with a true [idMO] whose
    [nameMO] is there and, in lower case, contains the word for a
    tractor.  Its [pl_id] is the number and the departure date of the
    record, joined by an underscore, and its window the planned dates of
    the record. *)
Theorem extracted_tasks_are_tractors (py_str : json -> string)
    (pl_data : json) (tasks : list (task json)) :
  (forall s, py_str (JStr s) = s) ->
  extract_monitoring_tasks py_str pl_data = Ok tasks ->
  exists d pls,
    pl_data = JDict d /\ iterate (get_default d "list" (JList [])) = Ok pls /\
    forall t, In t tasks <->
      exists pl ts, tractor_of py_str pls pl ts /\
        t = mktask (py_str (get pl "tsNumber") ++ "_" ++ py_str (get pl "dateOut"))
                   (get ts "idMO") (get ts "regNumber") (get ts "nameMO")
                   (get_default pl "dateOutPlan" (JStr ""))
                   (get_default pl "dateInPlan" (JStr "")).
Proof.
  intros Hstr He. unfold extract_monitoring_tasks, mbind, result_bind in He.
  destruct pl_data as [| | | | | |d]; try discriminate. cbn [as_dict] in He.
  destruct (iterate _) as [pls|] eqn:Hit; [|discriminate].
  exists d, pls. split; [reflexivity|]. split; [exact Hit|].
  apply extract_loop_parts in He as (news & Hnews & ->). cbn [app].
  intros t. rewrite (concat_member py_str pls news t Hnews). unfold tractor_of. split.
  - intros (pl & new & Hin & Hpl & Ht).
    destruct (pl_tasks_member py_str pl new Hpl) as (pd & -> & Hmem).
    apply Hmem in Ht as (Hout & Hinp & l & ts & Hl & Hts & Hid & Hname & ->).
    apply (name_test py_str Hstr) in Hname.
    exists pd, ts. split; [|reflexivity]. eauto 10.
  - intros (pl & ts & (Hin & Hout & Hinp & (l & Hl & Hts) & Hid & Hname) & ->).
    assert (Hok : exists new, pl_tasks py_str (JDict pl) = Ok new).
    { clear -Hnews Hin. induction Hnews as [|p n ps ns Hp _ IH]; [destruct Hin|].
      destruct Hin as [->|Hin]; eauto. }
    destruct Hok as (new & Hpl). exists (JDict pl), new.
    split; [exact Hin|]. split; [exact Hpl|].
    destruct (pl_tasks_member py_str (JDict pl) new Hpl) as (pd & [= <-] & Hmem).
    apply Hmem. apply (name_test py_str Hstr) in Hname.
    split; [exact Hout|]. split; [exact Hinp|]. exists l, ts. auto.
Qed.

Lemma extracted_tasks_are_tractors_witness :
  exists d pls,
    bad_windows = JDict d /\ iterate (get_default d "list" (JList [])) = Ok pls /\
    forall t, In t bad_tasks <->
      exists pl ts, tractor_of str_of_text pls pl ts /\
        t = mktask (str_of_text (get pl "tsNumber") ++ "_" ++ str_of_text (get pl "dateOut"))
                   (get ts "idMO") (get ts "regNumber") (get ts "nameMO")
                   (get_default pl "dateOutPlan" (JStr ""))
                   (get_default pl "dateInPlan" (JStr "")).
Proof.
  apply (extracted_tasks_are_tractors str_of_text bad_windows bad_tasks).
  - reflexivity.
  - reflexivity.
Defined.

(** X20.  One entry of the list of route lists that is not a dictionary makes
    the whole extraction raise: no task is returned, not even those of
    the route lists before it. *)
Theorem malformed_route_list_aborts (py_str : json -> string)
    (d : dict) (pls : list json) (pl : json) :
  get_default d "list" (JList []) = JList pls ->
  In pl pls -> as_dict pl = Raise AttributeError ->
  exists e, extract_monitoring_tasks py_str (JDict d) = Raise e.
Proof.
  intros Hl Hin Hbad. unfold extract_monitoring_tasks.
  cbn [as_dict mbind result_bind]. rewrite Hl. cbn [iterate].
  eapply extract_loop_raises; eassumption.
Qed.

Lemma malformed_route_list_aborts_witness :
  exists e,
    extract_monitoring_tasks str_of_text
      (JDict [("list", JList [
         JDict [("tsNumber", JStr "T1"); ("dateOut", JStr "25.01.2026");
                ("dateOutPlan", JStr "25.01.2026 08:00");
                ("dateInPlan", JStr "25.01.2026 19:30");
                ("ts", JList [JDict [("idMO", JInt 5); ("nameMO", JStr "Тягач Volvo")]])];
         JNull])]) = Raise e.
Proof.
  eapply (malformed_route_list_aborts str_of_text _ _ JNull).
  - reflexivity.
  - right. now left.
  - reflexivity.
Defined.

End ExtractorInvariants.

Module TrackSpec.
Import Py Datetime MonitoringParser.

(** The time of a track point, as the loop reads it. *)
Definition time_of (point : dict) : result (option datetime) :=
  _parse_datetime (get_default point "time" (JStr "")).

Definition timed_point (point : dict) : Prop :=
  exists dt, time_of point = Ok (Some dt).

(** When both points have a time, the second is at least the interval
    after the first. *)
Definition apart (interval_minutes : Z) (p q : dict) : Prop :=
  forall tp tq, time_of p = Ok (Some tp) -> time_of q = Ok (Some tq) ->
    interval_minutes * 60 * 1000000 <= timedelta_us tq tp.

(** Neighbours in the list are apart. *)
Definition spread (interval_minutes : Z) (l : list dict) : Prop :=
  forall i p q, l !! i = Some p -> l !! S i = Some q -> apart interval_minutes p q.

Lemma spread_snoc iv l p q :
  spread iv (l ++ [p]) -> apart iv p q -> spread iv ((l ++ [p]) ++ [q]).
Proof.
  intros Hs Ha i x y Hx Hy.
  assert (Hi : (S i < length ((l ++ [p]) ++ [q]))%nat) by (eapply lookup_lt_Some, Hy).
  rewrite !length_app in Hi. cbn [length] in Hi.
  destruct (decide (S i = length l + 1)%nat) as [Heq|Hne].
  - rewrite lookup_app_l in Hx by (rewrite length_app; cbn [length]; lia).
    rewrite lookup_app_r in Hx by lia.
    replace (i - length l)%nat with O in Hx by lia. injection Hx as <-.
    rewrite lookup_app_r in Hy by (rewrite length_app; cbn [length]; lia).
    rewrite length_app in Hy. cbn [length] in Hy.
    replace (S i - (length l + 1))%nat with O in Hy by lia. injection Hy as <-.
    exact Ha.
  - rewrite lookup_app_l in Hx by (rewrite length_app; cbn [length]; lia).
    rewrite lookup_app_l in Hy by (rewrite length_app; cbn [length]; lia).
    eapply Hs; eassumption.
Qed.

(** The loop: what is kept is what was kept before and a part of the
    points, in their order; every point it adds has a time; and
    [last_time] is the time of the last point kept. *)
Lemma simplify_loop_spec iv points : forall kept0 last lt r,
  time_of last = Ok lt -> spread iv (kept0 ++ [last]) ->
  simplify_loop iv points (kept0 ++ [last]) lt = Ok r ->
  exists mid,
    r = ((kept0 ++ [last]) ++ mid)%list /\
    sublist mid points /\
    Forall timed_point mid /\
    spread iv r.
Proof.
  induction points as [|point points IH]; intros kept0 last lt r Hlt Hsp Hr;
    cbn [simplify_loop] in Hr.
  - injection Hr as <-. exists []. rewrite app_nil_r. repeat split; auto.
  - unfold mbind, result_bind in Hr. fold (time_of point) in Hr.
    assert (Hskip : simplify_loop iv points (kept0 ++ [last]) lt = Ok r ->
              exists mid, r = ((kept0 ++ [last]) ++ mid)%list /\
                sublist mid (point :: points) /\ Forall timed_point mid /\ spread iv r).
    { intros Hr'. apply IH in Hr' as (mid & -> & Hsub & Htimed & Hspr); try assumption.
      exists mid. repeat split; [now apply sublist_cons|assumption..]. }
    assert (Hkeep : forall pt, time_of point = Ok (Some pt) -> apart iv last point ->
              simplify_loop iv points ((kept0 ++ [last]) ++ [point]) (Some pt) = Ok r ->
              exists mid, r = ((kept0 ++ [last]) ++ mid)%list /\
                sublist mid (point :: points) /\ Forall timed_point mid /\ spread iv r).
    { intros pt Hpt Hap Hr'.
      apply IH in Hr' as (mid & -> & Hsub & Htimed & Hspr);
        [|exact Hpt|now apply spread_snoc].
      exists (point :: mid).
      split; [now rewrite <- app_assoc|]. split; [now apply sublist_skip|].
      split; [|assumption]. constructor; [now exists pt|assumption]. }
    destruct (time_of point) as [[pt|]|] eqn:Hpt; [| |discriminate].
    + destruct lt as [l|].
      * destruct (timedelta_us pt l >=? iv * 60 * 1000000) eqn:Hc; [|now apply Hskip].
        apply (Hkeep pt eq_refl); [|exact Hr].
        intros tp tq Htp Htq. rewrite Hlt in Htp. rewrite Hpt in Htq.
        injection Htp as <-. injection Htq as <-. apply Z.geb_le in Hc. exact Hc.
      * apply (Hkeep pt eq_refl); [|exact Hr].
        intros tp tq Htp. rewrite Hlt in Htp. discriminate.
    + now apply Hskip.
Qed.

Lemma spread_one iv p : spread iv [p].
Proof. intros i x y _ Hy. destruct i; discriminate. Qed.

(** X21.  A track of more than two points is simplified to its first point,
    some of the points between in their order, and its last point; a
    point between is kept only if it has a time. *)
Theorem simplified_track_keeps_ends (first : dict) (rest : list dict)
    (interval_minutes : Z) (r : list dict) :
  (2 <= length rest)%nat ->
  _simplify_track (first :: rest) interval_minutes = Ok r ->
  exists mid,
    r = (first :: mid ++ [List.last rest first])%list /\
    sublist mid (removelast rest) /\
    Forall timed_point mid.
Proof.
  intros Hlen. unfold _simplify_track.
  destruct (Nat.leb_spec (length (first :: rest)) 2) as [Hle|_];
    [cbn [length] in Hle; lia|].
  cbn [orb]. unfold mbind, result_bind. fold (time_of first).
  destruct (time_of first) as [lt|] eqn:Hlt; [|discriminate].
  destruct (simplify_loop _ _ _ _) as [kept|] eqn:Hk; [|discriminate].
  intros [= <-].
  apply (simplify_loop_spec _ _ [] first lt kept Hlt (spread_one _ _))
    in Hk as (mid & -> & Hsub & Htimed & _).
  exists mid. cbn [app]. auto.
Qed.

(** Three points a quarter of an hour apart. *)
Definition point_at (minute : string) : dict :=
  [("lat", JInt 55); ("lon", JInt 37); ("time", JStr ("25.01.2026 08:" ++ minute));
   ("speed", JInt 40)].

Lemma simplified_track_keeps_ends_witness :
  exists mid,
    [point_at "00"; point_at "30"] =
      (point_at "00" :: mid ++ [List.last [point_at "15"; point_at "30"] (point_at "00")])%list /\
    sublist mid (removelast [point_at "15"; point_at "30"]) /\
    Forall timed_point mid.
Proof.
  apply (simplified_track_keeps_ends (point_at "00") [point_at "15"; point_at "30"] 20).
  - cbn. lia.
  - reflexivity.
Defined.

(** X22.  In a simplified track, the last point apart, two neighbours that
    both have a time are at least the interval apart. *)
Theorem simplified_track_is_spread (first : dict) (rest : list dict)
    (interval_minutes : Z) (r : list dict) :
  (2 <= length rest)%nat ->
  _simplify_track (first :: rest) interval_minutes = Ok r ->
  spread interval_minutes (removelast r).
Proof.
  intros Hlen. unfold _simplify_track.
  destruct (Nat.leb_spec (length (first :: rest)) 2) as [Hle|_];
    [cbn [length] in Hle; lia|].
  cbn [orb]. unfold mbind, result_bind. fold (time_of first).
  destruct (time_of first) as [lt|] eqn:Hlt; [|discriminate].
  destruct (simplify_loop _ _ _ _) as [kept|] eqn:Hk; [|discriminate].
  intros [= <-]. rewrite removelast_last.
  apply (simplify_loop_spec _ _ [] first lt kept Hlt (spread_one _ _))
    in Hk as (mid & _ & _ & _ & Hspr).
  exact Hspr.
Qed.

Lemma simplified_track_is_spread_witness :
  spread 20 (removelast [point_at "00"; point_at "20"; point_at "30"]).
Proof.
  apply (simplified_track_is_spread (point_at "00")
           [point_at "10"; point_at "20"; point_at "30"] 20).
  - cbn. lia.
  - reflexivity.
Defined.

End TrackSpec.

(** Case analysis on every [bind] of a hypothesis, pairs included. *)
Ltac run_binds H :=
  unfold mbind, result_bind in H;
  repeat match type of H with
         | context [match ?r with Ok _ => _ | Raise _ => _ end] =>
             let E := fresh "E" in
             (destruct r as [[? ?] | ?] eqn:E || destruct r eqn:E); try discriminate H
         end.

Module ParserInvariants.
Import Py Datetime DatetimeFacts FormatFacts MonitoringParser MonitoringParserSpec.

(** The entries of a list that are dictionaries. *)
Definition dicts (l : list json) : list dict :=
  flat_map (fun v => match v with JDict d => [d] | _ => [] end) l.

Section WithFloats.
Context `{FloatOps}.

(** The record of a parking without its duration. *)
Definition parking_of (rec : json) : json * json * json * json * json :=
  match rec with
  | JDict r => (get r "begin", get r "end", get r "address", get r "lat", get r "lon")
  | _ => (JNull, JNull, JNull, JNull, JNull)
  end.

Definition parking_in (p : dict) : json * json * json * json * json :=
  (get p "begin", get p "end", get_default p "address" (JStr ""), get p "lat", get p "lon").

Lemma parse_parkings_spec parkings : forall acc total acc' total',
  parse_parkings parkings acc total = Ok (acc', total') ->
  exists recs, acc' = (acc ++ recs)%list /\
               map parking_of recs = map parking_in (dicts parkings).
Proof.
  induction parkings as [|p parkings IH]; intros acc total acc' total' Hp.
  - injection Hp as <- <-. exists []. now rewrite app_nil_r.
  - cbn [parse_parkings] in Hp.
    destruct p as [| | | | | |p]; try (apply IH in Hp as (recs & -> & Hm); now exists recs).
    unfold mbind, result_bind in Hp.
    destruct (_parse_datetime (get p "begin")) as [b|]; [|discriminate].
    destruct (_parse_datetime (get p "end")) as [e|]; [|discriminate].
    match type of Hp with
    | match ?r with Ok _ => _ | Raise _ => _ end = _ =>
        destruct r as [[minutes total1]|]; [|discriminate]
    end.
    apply IH in Hp as (recs & -> & Hm). eexists (_ :: recs).
    split; [now rewrite <- app_assoc|].
    unfold dicts. cbn [flat_map app map parking_of]. unfold dicts in Hm. rewrite Hm.
    reflexivity.
Qed.

Lemma parse_fuels_spec l :
  parse_fuels (JList l) = map fuel_record (dicts l).
Proof.
  unfold parse_fuels, dicts. induction l as [|[| | | | | |d] l IH]; cbn [flat_map app map];
    rewrite ?IH; reflexivity.
Qed.

End WithFloats.

(** The fields of a record in the order of the dictionary. *)
Definition fields_of (r : dict) : list string := map fst r.

(** X23.  A parsed record has the fields of the empty record, each once. *)
Theorem parsed_record_has_the_fields_of_the_empty_one (F : FloatOps)
    (data : json) (r : dict) :
  parse_monitoring data = Ok r ->
  Permutation (fields_of r) (fields_of _empty_monitoring) /\
  List.NoDup (fields_of r).
Proof.
  intros Hp.
  assert (Hnd : List.NoDup (fields_of _empty_monitoring)).
  { unfold fields_of, _empty_monitoring. cbn [map fst].
    repeat (constructor;
            [intros Hin; repeat (destruct Hin as [Hin|Hin]; [discriminate|]);
             destruct Hin|]).
    constructor. }
  assert (Hperm : Permutation (fields_of r) (fields_of _empty_monitoring)).
  { unfold parse_monitoring in Hp.
    destruct data as [| | | | | |[|kv data]];
      try (injection Hp as <-; reflexivity).
    run_binds Hp. injection Hp as <-.
    unfold fields_of, _empty_monitoring. cbn [map fst].
    do 10 apply perm_skip.
    apply (Permutation_middle
             ["mon_fuel_name"; "mon_fuel_charges"; "mon_fuel_discharges";
              "mon_fuel_rate"; "mon_fuel_begin"; "mon_fuel_end"]
             ["mon_parkings"; "mon_parkings_count"; "mon_parkings_total_hours";
              "mon_track"] "mon_fuels"). }
  split; [exact Hperm|].
  eapply Permutation_NoDup; [symmetry; exact Hperm|exact Hnd].
Qed.

Lemma parsed_record_has_the_fields_of_the_empty_one_witness :
  Permutation
    ["mon_mo_uid"; "mon_name_mo"; "mon_distance"; "mon_moving_time"; "mon_engine_time";
     "mon_engine_idling_time"; "mon_last_activity"; "mon_moving_time_hours";
     "mon_engine_time_hours"; "mon_idling_time_hours"; "mon_fuels"; "mon_fuel_name";
     "mon_fuel_charges"; "mon_fuel_discharges"; "mon_fuel_rate"; "mon_fuel_begin";
     "mon_fuel_end"; "mon_parkings"; "mon_parkings_count"; "mon_parkings_total_hours";
     "mon_track"]
    (fields_of _empty_monitoring).
Proof.
  exact (proj1 (parsed_record_has_the_fields_of_the_empty_one no_arithmetic
                  (JDict idle_payload) _ eq_refl)).
Defined.

(** X24.  [mon_parkings] has one record for every dictionary in [parkings],
    in order, with its bounds, address and coordinates, whether or not
    the bounds could be read; [mon_parkings_count] is their number. *)
Theorem every_parking_is_recorded (F : FloatOps) (data r : dict) (parkings : list json) :
  data <> [] ->
  get_default data "parkings" (JList []) = JList parkings ->
  parse_monitoring (JDict data) = Ok r ->
  exists recs,
    lookup "mon_parkings" r = Some (JList recs) /\
    map parking_of recs = map parking_in (dicts parkings) /\
    lookup "mon_parkings_count" r = Some (JInt (Z.of_nat (length (dicts parkings)))).
Proof.
  intros Hne Hpk Hp. unfold parse_monitoring in Hp.
  destruct data as [|kv data]; [congruence|].
  rewrite Hpk in Hp. unfold mbind, result_bind in Hp.
  do 3 (match type of Hp with
        | context [match hours ?v with Ok _ => _ | Raise _ => _ end] =>
            destruct (hours v); [|discriminate Hp]
        end).
  match type of Hp with
  | context [match ?r with Ok _ => _ | Raise _ => _ end] =>
      destruct r as [[recs total]|] eqn:Hrecs; [|discriminate Hp]
  end.
  run_binds Hp. injection Hp as <-.
  assert (Hm : map parking_of recs = map parking_in (dicts parkings)).
  { destruct parkings as [|p parkings].
    - injection Hrecs as <- _. reflexivity.
    - apply parse_parkings_spec in Hrecs as (recs' & -> & Hm). exact Hm. }
  exists recs. split; [reflexivity|]. split; [exact Hm|].
  cbn. do 3 f_equal. rewrite <- (length_map parking_of), Hm. apply length_map.
Qed.

(** A body with one entry of [parkings] that is not a dictionary and one
    whose bounds cannot be read. *)
Definition two_parkings : dict :=
  [("moUid", JStr "mo-17");
   ("parkings", JList [JInt 7; JDict [("begin", JStr "soon"); ("lat", JInt 55)]])].

Lemma every_parking_is_recorded_witness :
  exists r recs,
    parse_monitoring (H := no_arithmetic) (JDict two_parkings) = Ok r /\
    lookup "mon_parkings" r = Some (JList recs) /\
    map parking_of recs =
      [(JStr "soon", JNull, JStr "", JInt 55, JNull)] /\
    lookup "mon_parkings_count" r = Some (JInt 1).
Proof.
  eexists.
  destruct (every_parking_is_recorded no_arithmetic two_parkings _
              [JInt 7; JDict [("begin", JStr "soon"); ("lat", JInt 55)]]
              ltac:(discriminate) eq_refl eq_refl) as (recs & H1 & H2 & H3).
  exists recs. split; [reflexivity|]. split; [exact H1|]. split; [exact H2|exact H3].
Defined.

(** X25.  [mon_fuels] has one record for every dictionary in [fuels], in
    order, and the flat fuel fields are those of the first of them, or
    [None] when there is none. *)
Theorem first_fuel_fills_the_flat_fields (F : FloatOps) (data r : dict)
    (fuels : list json) :
  data <> [] ->
  get_default data "fuels" (JList []) = JList fuels ->
  parse_monitoring (JDict data) = Ok r ->
  let first := match dicts fuels with f :: _ => f | [] => [] end in
  lookup "mon_fuels" r = Some (JList (map fuel_record (dicts fuels))) /\
  lookup "mon_fuel_name" r = Some (get first "fuelName") /\
  lookup "mon_fuel_charges" r = Some (get first "charges") /\
  lookup "mon_fuel_discharges" r = Some (get first "discharges") /\
  lookup "mon_fuel_rate" r = Some (get first "rate") /\
  lookup "mon_fuel_begin" r = Some (get first "valueBegin") /\
  lookup "mon_fuel_end" r = Some (get first "valueEnd").
Proof.
  intros Hne Hf Hp. unfold parse_monitoring in Hp.
  destruct data as [|kv data]; [congruence|].
  rewrite Hf in Hp.
  assert (Hfuels : (if truthy (JList fuels) then parse_fuels (JList fuels) else [])
                   = map fuel_record (dicts fuels)).
  { rewrite parse_fuels_spec. now destruct fuels. }
  rewrite Hfuels in Hp. run_binds Hp. injection Hp as <-.
  destruct (dicts fuels) as [|f fs]; cbn; auto 10.
Qed.

Lemma first_fuel_fills_the_flat_fields_witness :
  exists r,
    parse_monitoring (H := no_arithmetic)
      (JDict [("fuels", JList [JNull; JDict [("fuelName", JStr "Diesel")]])]) = Ok r /\
    lookup "mon_fuels" r =
      Some (JList [JDict [("name", JStr "Diesel"); ("charges", JNull);
                          ("discharges", JNull); ("rate", JNull);
                          ("value_begin", JNull); ("value_end", JNull)]]) /\
    lookup "mon_fuel_name" r = Some (JStr "Diesel").
Proof.
  eexists.
  destruct (first_fuel_fills_the_flat_fields no_arithmetic
              [("fuels", JList [JNull; JDict [("fuelName", JStr "Diesel")]])] _
              [JNull; JDict [("fuelName", JStr "Diesel")]]
              ltac:(discriminate) eq_refl eq_refl) as (H1 & H2 & _).
  split; [reflexivity|]. split; [exact H1|exact H2].
Defined.

(** X26.  The monitoring parser reads a date with a time, written with a
    year of four digits, as the shift module reads it, and does not read
    a date without a time, which the shift module reads as midnight.
    On what the shift module prints the two agree for a date with a
    time, also for the years before 1000, which neither reads; a printed
    date without a time the monitoring parser never reads. *)
Theorem parser_reads_times_not_dates (dt : datetime) :
  valid dt = true ->
  _parse_datetime (JStr (written_datetime dt)) = Ok (Some (ShiftsRoundTrip.to_minute dt)) /\
  Shifts.parse_datetime (written_datetime dt) = Some (ShiftsRoundTrip.to_minute dt) /\
  _parse_datetime (JStr (written_date dt)) = Ok None /\
  Shifts.parse_datetime (written_date dt) = Some (ShiftsRoundTrip.midnight dt) /\
  _parse_datetime (JStr (Shifts.format_datetime dt)) =
    Ok (Shifts.parse_datetime (Shifts.format_datetime dt)) /\
  _parse_datetime (JStr (Shifts.format_date dt)) = Ok None.
Proof.
  intros Hv. pose proof (ShiftsSpec.valid_date_of dt Hv) as Hd.
  assert (Htime : _parse_datetime (JStr (written_datetime dt)) =
                  Ok (Some (ShiftsRoundTrip.to_minute dt))).
  { unfold _parse_datetime. cbn [truthy]. rewrite written_datetime_nonempty. cbn [negb].
    now rewrite strptime_HMS_refuses_minutes, strptime_written_datetime. }
  assert (Hdate : _parse_datetime (JStr (written_date dt)) = Ok None).
  { unfold _parse_datetime. cbn [truthy]. rewrite written_date_nonempty. cbn [negb].
    now rewrite strptime_HMS_refuses_date, strptime_HM_refuses_date. }
  split; [exact Htime|].
  split; [now apply ShiftsRoundTrip.parse_written_datetime|].
  split; [exact Hdate|].
  split; [now apply ShiftsRoundTrip.parse_written_date|].
  unfold Shifts.format_datetime, Shifts.format_date.
  destruct (Z.leb_spec 1000 (year dt)) as [Hy|Hy].
  - rewrite strftime_written_datetime, strftime_written_date by assumption.
    rewrite ShiftsRoundTrip.parse_written_datetime by assumption. auto.
  - rewrite ShiftsRoundTrip.parse_short_datetime by assumption.
    unfold _parse_datetime. cbn [truthy]. rewrite datetime_nonempty, date_nonempty.
    cbn [negb].
    change fmt_dmY_HMS with (fmt_dmY ++ [Ws; DH; Lit ":"; DM; Lit ":"; DS])%list.
    change fmt_dmY_HM with (fmt_dmY ++ [Ws; DH; Lit ":"; DM])%list.
    now rewrite !short_datetime_unread, !short_date_unread by assumption.
Qed.

Lemma parser_reads_times_not_dates_witness :
  _parse_datetime (JStr "25.01.2026 08:05") = Ok (Some (mkdt 2026 1 25 8 5 0 0)) /\
  _parse_datetime (JStr "25.01.2026") = Ok None /\
  Shifts.parse_datetime "25.01.2026" = Some (mkdt 2026 1 25 0 0 0 0).
Proof.
  destruct (parser_reads_times_not_dates (mkdt 2026 1 25 8 5 0 0) eq_refl)
    as (H1 & _ & H3 & H4 & _).
  split; [exact H1|split; [exact H3|exact H4]].
Defined.

End ParserInvariants.
